(** * The InnoDB general query executor (row/row0query.cc)

    A shallow embedding of [QueryExecutor]: every member function of the
    class is a Rocq function over an explicit [world] (the executor, its
    transaction, the index it works on and the answers of the storage
    engine), and the statements of the design document are theorems about
    those functions.

    The B-tree, the lock manager, the undo log and the update primitives are
    collaborators of the executor, not part of it.  Their answers are read
    from scripts held in the world (one list per primitive, consumed call by
    call), so that a theorem quantified over worlds covers every finite
    behaviour of the collaborators; an exhausted script answers like an
    engine on which nothing goes wrong. *)

From Stdlib Require Import ZArith List Bool Lia PeanoNat.
Import ListNotations.

(** ** Error codes *)

(** Modelled from the spec: [dberr_t] is declared in db0err.h, which is not
    among the sources; the constructors are the codes named in row0query.cc
    and in section 6 of the design document, with a few representatives of
    the class of hard engine errors.  [DB_SUCCESS] is the zero of the
    enumeration: [if (err)] tests for anything else. *)
Inductive dberr_t : Type :=
| DB_SUCCESS
| DB_SUCCESS_LOCKED_REC
| DB_ERROR
| DB_OUT_OF_FILE_SPACE
| DB_LOCK_WAIT
| DB_DEADLOCK
| DB_DUPLICATE_KEY
| DB_LOCK_WAIT_TIMEOUT
| DB_RECORD_NOT_FOUND
| DB_TABLE_NOT_FOUND
| DB_CORRUPTION
| DB_OVERFLOW
| DB_UNDERFLOW.

Definition dberr_eq_dec (a b : dberr_t) : {a = b} + {a <> b}.
Proof. decide equality. Defined.

Definition dberr_eqb (a b : dberr_t) : bool :=
  if dberr_eq_dec a b then true else false.

Infix "=?e" := dberr_eqb (at level 70, no associativity).

(** [if (err)] on a [dberr_t]. *)
Definition is_error (e : dberr_t) : bool := negb (e =?e DB_SUCCESS).

(** ** Tuples, records and offsets *)

(** Modelled from the spec: the data types of data0data.h and rem0types.h,
    which are not among the sources, as far as the executor looks into
    them.  A field is its value and the number of bytes it occupies. *)
Record dfield_t : Type := mk_dfield { dfield_data : Z; dfield_len : Z }.

(** A search key or a row to insert. *)
Definition dtuple_t : Type := list dfield_t.

Definition trx_id_t : Type := Z.

(** A leaf record of an index: its fields, the delete mark, the id of the
    transaction that wrote it (DB_TRX_ID) and the REC_INFO_MIN_REC_FLAG bit
    of its info bits. *)
Record rec_t : Type := mk_rec {
  rec_fields : list dfield_t;
  rec_deleted : bool;
  rec_trx_id : trx_id_t;
  rec_min_rec : bool
}.

(** The field-boundary data of [rec_get_offsets]: the size of every field. *)
Definition rec_offs : Type := list Z.

Definition rec_get_offsets (r : rec_t) : rec_offs :=
  map dfield_len (rec_fields r).

Definition rec_offs_n_fields (offsets : rec_offs) : nat := length offsets.

Definition rec_offs_nth_size (offsets : rec_offs) (n : nat) : Z :=
  nth n offsets 0%Z.

Definition rec_get_deleted_flag (r : rec_t) : bool := rec_deleted r.

Definition row_get_rec_trx_id (r : rec_t) : trx_id_t := rec_trx_id r.

Definition rec_set_deleted (r : rec_t) : rec_t :=
  mk_rec (rec_fields r) true (rec_trx_id r) (rec_min_rec r).

(** Modelled from the spec: [cmp_dtuple_rec_with_match] lives in rem0cmp.cc;
    the design document has it "compare full tuple against record".  The
    fields of the tuple are compared in order with the leading fields of the
    record; the sign of the first difference is the answer, 0 when every
    field of the tuple is matched. *)
Fixpoint cmp_dtuple_rec_with_match (tuple : dtuple_t) (fields : list dfield_t)
  : Z :=
  match tuple, fields with
  | [], _ => 0%Z
  | _ :: _, [] => 1%Z
  | d :: tuple', f :: fields' =>
      match Z.compare (dfield_data d) (dfield_data f) with
      | Eq => cmp_dtuple_rec_with_match tuple' fields'
      | Lt => (-1)%Z
      | Gt => 1%Z
      end
  end.

Definition cmp_dtuple_rec (tuple : dtuple_t) (r : rec_t) : Z :=
  cmp_dtuple_rec_with_match tuple (rec_fields r).

(** ** The callback protocol *)

(** Modelled from the spec: [RecordCompareAction] and [RecordCallback] are
    declared in row0query.h, which is not among the sources; section 4.4 of
    the design document gives the three verdicts and the two operations. *)
Inductive RecordCompareAction : Type := PROCESS | SKIP | STOP.

Definition action_eqb (a b : RecordCompareAction) : bool :=
  match a, b with
  | PROCESS, PROCESS | SKIP, SKIP | STOP, STOP => true
  | _, _ => false
  end.

(** The two operations of [RecordCallback]; the search tuple handed to the
    comparator may be the null pointer. *)
Record RecordCallback : Type := mk_callback {
  compare_record : option dtuple_t -> rec_t -> rec_offs -> RecordCompareAction;
  process_record : rec_t -> rec_offs -> bool
}.

(** ** What the executor does to its surroundings *)

(** The two indexes of the table: the clustered one and a secondary one. *)
Inductive index_id : Type := CLUST | SEC.

(** Modelled from the spec: the lock-wait classification of que0que.h, "the
    thread's lock-wait classification (table vs. row)". *)
Inductive que_thr_lock_state : Type :=
| QUE_THR_LOCK_NOLOCK
| QUE_THR_LOCK_ROW
| QUE_THR_LOCK_TABLE.

(** One entry per call that leaves the executor.  Records of the clustered
    index are named by their position among the user records. *)
Inductive event : Type :=
| EvMtrStart
| EvMtrCommit
| EvSavepoint
| EvRollbackToSavepoint
| EvTrxStart
| EvViewOpen
| EvCursorOpen (res : dberr_t)
| EvExamine (pos : nat)
| EvLock (pos : nat) (res : dberr_t)
| EvSetErrorState (err : dberr_t)
| EvSetLockState (st : que_thr_lock_state)
| EvWaitThr (pending : bool)
| EvLockWait (res : dberr_t)
| EvDelMark (pos : nat) (res : dberr_t)
| EvCompare (r : rec_t) (action : RecordCompareAction)
| EvProcess (r : rec_t) (offsets : rec_offs)
| EvVersBuild (r : rec_t)
| EvInsert (tuple : dtuple_t)
| EvTableLock
| EvIndexXLock
| EvUpdateInPlace
| EvOptimisticUpdate (cmpl_info : Z)
| EvPessimisticUpdate (cmpl_info : Z)
| EvStoreBigRec.

(** The answers of the storage engine, one script per primitive.  What a
    primitive does to the page is left out, except for the delete mark,
    which the scans read back. *)
Record oracle : Type := mk_oracle {
  o_open : list dberr_t;            (* btr_pcur_open_on_user_rec, open_leaf *)
  o_lock : list dberr_t;            (* lock_clust_rec_read_check_and_lock *)
  o_wait : list (option dberr_t);   (* trx->lock.wait_thr and lock_wait() *)
  o_delmark : list dberr_t;         (* btr_cur_del_mark_set_clust_rec *)
  o_insert : list dberr_t;          (* row_ins_clust_index_entry *)
  o_table_lock : list dberr_t;      (* ::lock_table *)
  o_inplace : list dberr_t;         (* btr_cur_update_in_place *)
  o_optimistic : list dberr_t;      (* btr_cur_optimistic_update *)
  o_pessimistic : list (dberr_t * bool);
                                    (* btr_cur_pessimistic_update, big_rec *)
  o_store_big : list dberr_t        (* btr_store_big_rec_extern_fields *)
}.

(** The executor and its surroundings.  The index is the one this
    transaction sees: between two calls of the engine only the executor
    itself changes it. *)
Record world : Type := mk_world {
  clust_index : list rec_t;      (* user records of the clustered index *)
  sec_index : list rec_t;        (* user records of the secondary index *)
  pcur_index : index_id;         (* m_pcur.btr_cur.page_cur.index *)
  pcur_pos : nat;                (* 0 infimum, i+1 the i-th user record *)
  trx_present : bool;            (* m_mtr.trx != nullptr *)
  read_view_open : bool;         (* trx->read_view.is_open() *)
  changes_visible : trx_id_t -> bool;   (* trx->read_view.changes_visible *)
  vers_build : rec_t -> dberr_t * option rec_t;
                                 (* row_vers_build_for_consistent_read *)
  row_build_row_ref : rec_t -> dtuple_t;
  error_state : dberr_t;         (* trx->error_state *)
  lock_state : que_thr_lock_state;      (* m_thr->lock_state *)
  engine : oracle;
  trace : list event             (* newest event first *)
}.

Definition set_clust_index (l : list rec_t) (w : world) : world :=
  mk_world l (sec_index w) (pcur_index w) (pcur_pos w) (trx_present w)
    (read_view_open w) (changes_visible w) (vers_build w)
    (row_build_row_ref w) (error_state w) (lock_state w) (engine w) (trace w).

Definition set_pcur_index (i : index_id) (w : world) : world :=
  mk_world (clust_index w) (sec_index w) i (pcur_pos w) (trx_present w)
    (read_view_open w) (changes_visible w) (vers_build w)
    (row_build_row_ref w) (error_state w) (lock_state w) (engine w) (trace w).

Definition set_pcur_pos (p : nat) (w : world) : world :=
  mk_world (clust_index w) (sec_index w) (pcur_index w) p (trx_present w)
    (read_view_open w) (changes_visible w) (vers_build w)
    (row_build_row_ref w) (error_state w) (lock_state w) (engine w) (trace w).

Definition set_read_view_open (b : bool) (w : world) : world :=
  mk_world (clust_index w) (sec_index w) (pcur_index w) (pcur_pos w)
    (trx_present w) b (changes_visible w) (vers_build w)
    (row_build_row_ref w) (error_state w) (lock_state w) (engine w) (trace w).

Definition set_error_state (e : dberr_t) (w : world) : world :=
  mk_world (clust_index w) (sec_index w) (pcur_index w) (pcur_pos w)
    (trx_present w) (read_view_open w) (changes_visible w) (vers_build w)
    (row_build_row_ref w) e (lock_state w) (engine w) (trace w).

Definition set_lock_state (s : que_thr_lock_state) (w : world) : world :=
  mk_world (clust_index w) (sec_index w) (pcur_index w) (pcur_pos w)
    (trx_present w) (read_view_open w) (changes_visible w) (vers_build w)
    (row_build_row_ref w) (error_state w) s (engine w) (trace w).

Definition set_engine (o : oracle) (w : world) : world :=
  mk_world (clust_index w) (sec_index w) (pcur_index w) (pcur_pos w)
    (trx_present w) (read_view_open w) (changes_visible w) (vers_build w)
    (row_build_row_ref w) (error_state w) (lock_state w) o (trace w).

Definition log (ev : event) (w : world) : world :=
  mk_world (clust_index w) (sec_index w) (pcur_index w) (pcur_pos w)
    (trx_present w) (read_view_open w) (changes_visible w) (vers_build w)
    (row_build_row_ref w) (error_state w) (lock_state w) (engine w)
    (ev :: trace w).

Definition set_o_open (l : list dberr_t) (o : oracle) : oracle :=
  mk_oracle l (o_lock o) (o_wait o) (o_delmark o) (o_insert o)
    (o_table_lock o) (o_inplace o) (o_optimistic o) (o_pessimistic o)
    (o_store_big o).

Definition set_o_lock (l : list dberr_t) (o : oracle) : oracle :=
  mk_oracle (o_open o) l (o_wait o) (o_delmark o) (o_insert o)
    (o_table_lock o) (o_inplace o) (o_optimistic o) (o_pessimistic o)
    (o_store_big o).

Definition set_o_wait (l : list (option dberr_t)) (o : oracle) : oracle :=
  mk_oracle (o_open o) (o_lock o) l (o_delmark o) (o_insert o)
    (o_table_lock o) (o_inplace o) (o_optimistic o) (o_pessimistic o)
    (o_store_big o).

Definition set_o_delmark (l : list dberr_t) (o : oracle) : oracle :=
  mk_oracle (o_open o) (o_lock o) (o_wait o) l (o_insert o)
    (o_table_lock o) (o_inplace o) (o_optimistic o) (o_pessimistic o)
    (o_store_big o).

Definition set_o_insert (l : list dberr_t) (o : oracle) : oracle :=
  mk_oracle (o_open o) (o_lock o) (o_wait o) (o_delmark o) l
    (o_table_lock o) (o_inplace o) (o_optimistic o) (o_pessimistic o)
    (o_store_big o).

Definition set_o_table_lock (l : list dberr_t) (o : oracle) : oracle :=
  mk_oracle (o_open o) (o_lock o) (o_wait o) (o_delmark o) (o_insert o)
    l (o_inplace o) (o_optimistic o) (o_pessimistic o) (o_store_big o).

Definition set_o_inplace (l : list dberr_t) (o : oracle) : oracle :=
  mk_oracle (o_open o) (o_lock o) (o_wait o) (o_delmark o) (o_insert o)
    (o_table_lock o) l (o_optimistic o) (o_pessimistic o) (o_store_big o).

Definition set_o_optimistic (l : list dberr_t) (o : oracle) : oracle :=
  mk_oracle (o_open o) (o_lock o) (o_wait o) (o_delmark o) (o_insert o)
    (o_table_lock o) (o_inplace o) l (o_pessimistic o) (o_store_big o).

Definition set_o_pessimistic (l : list (dberr_t * bool)) (o : oracle)
  : oracle :=
  mk_oracle (o_open o) (o_lock o) (o_wait o) (o_delmark o) (o_insert o)
    (o_table_lock o) (o_inplace o) (o_optimistic o) l (o_store_big o).

Definition set_o_store_big (l : list dberr_t) (o : oracle) : oracle :=
  mk_oracle (o_open o) (o_lock o) (o_wait o) (o_delmark o) (o_insert o)
    (o_table_lock o) (o_inplace o) (o_optimistic o) (o_pessimistic o) l.

(** The next answer of a script; [dflt] once the script is exhausted. *)
Definition next_answer {A : Type} (dflt : A) (script : list A) : A :=
  match script with
  | [] => dflt
  | a :: _ => a
  end.

(** ** Loops *)

(** A [while] loop or a jump back to a label: [body] either leaves the loop
    with a result or hands the state to the next round.  [fuel] bounds the
    number of rounds; [None] means the bound was reached (or that a loop
    inside the body reached its own). *)
Fixpoint loop {St Res : Type} (body : St -> option (Res + St)) (fuel : nat)
  (s : St) : option Res :=
  match fuel with
  | 0 => None
  | S fuel' =>
      match body s with
      | None => None
      | Some (inl r) => Some r
      | Some (inr s') => loop body fuel' s'
      end
  end.

(** ** The collaborators *)

Definition mtr_start (w : world) : world := log EvMtrStart w.

Definition mtr_commit (w : world) : world := log EvMtrCommit w.

Definition trx_start_if_not_started (w : world) : world := log EvTrxStart w.

Definition read_view_do_open (w : world) : world :=
  log EvViewOpen (set_read_view_open true w).

(** The user records of the index the persistent cursor is bound to. *)
Definition cursor_recs (w : world) : list rec_t :=
  match pcur_index w with
  | CLUST => clust_index w
  | SEC => sec_index w
  end.

(** Modelled from the spec: the B-tree search of btr0cur.cc in mode
    PAGE_CUR_GE, "position cursor on the first record >= tuple": the number
    of leading records that are smaller than the tuple. *)
Fixpoint page_cur_ge (tuple : dtuple_t) (recs : list rec_t) : nat :=
  match recs with
  | [] => 0
  | r :: recs' =>
      if (0 <? cmp_dtuple_rec tuple r)%Z then S (page_cur_ge tuple recs')
      else 0
  end.

(** Modelled from the spec: the same search in mode PAGE_CUR_LE, the last
    record that is not greater than the tuple; [None] is the infimum. *)
Fixpoint page_cur_le (tuple : dtuple_t) (recs : list rec_t) : option rec_t :=
  match recs with
  | [] => None
  | r :: recs' =>
      if (0 <=? cmp_dtuple_rec tuple r)%Z then
        match page_cur_le tuple recs' with
        | Some r' => Some r'
        | None => Some r
        end
      else None
  end.

(** Modelled from the spec: [btr_pcur_open_on_user_rec] (btr0pcur.cc).  On
    success the cursor stands on the first user record >= tuple, or on the
    supremum when there is none. *)
Definition btr_pcur_open_on_user_rec (tuple : dtuple_t) (w : world)
  : dberr_t * world :=
  let err := next_answer DB_SUCCESS (o_open (engine w)) in
  let w1 := log (EvCursorOpen err)
              (set_engine (set_o_open (tl (o_open (engine w))) (engine w)) w) in
  if err =?e DB_SUCCESS
  then (err, set_pcur_pos (S (page_cur_ge tuple (cursor_recs w1))) w1)
  else (err, w1).

(** Modelled from the spec: [btr_pcur_t::open_leaf(true, index, ...)], which
    binds the cursor to [index] and leaves it before the first user record
    ("scans the whole index from its first leaf record"). *)
Definition open_leaf (index : index_id) (w : world) : dberr_t * world :=
  let err := next_answer DB_SUCCESS (o_open (engine w)) in
  let w1 := log (EvCursorOpen err)
              (set_engine (set_o_open (tl (o_open (engine w))) (engine w))
                 (set_pcur_index index w)) in
  if err =?e DB_SUCCESS then (err, set_pcur_pos 0 w1) else (err, w1).

(** [btr_pcur_is_on_user_rec] and [btr_pcur_get_rec] in one: the record under
    the cursor and its position, [None] on the infimum and the supremum. *)
Definition btr_pcur_get_user_rec (w : world) : option (nat * rec_t) :=
  match pcur_pos w with
  | 0 => None
  | S i =>
      match nth_error (cursor_recs w) i with
      | Some r => Some (i, r)
      | None => None
      end
  end.

(** The cursor stands on the supremum. *)
Definition btr_pcur_is_after_last (w : world) : bool :=
  length (cursor_recs w) <? pcur_pos w.

(** Modelled from the spec: [btr_pcur_move_to_next]; false when the cursor
    was already after the last record, otherwise one step forward. *)
Definition btr_pcur_move_to_next (w : world) : bool * world :=
  if btr_pcur_is_after_last w then (false, w)
  else (true, set_pcur_pos (S (pcur_pos w)) w).

(** Modelled from the spec: the lock manager's answer to an exclusive
    non-gap row lock request on the record at [pos]. *)
Definition lock_clust_rec_read_check_and_lock (pos : nat) (w : world)
  : dberr_t * world :=
  let err := next_answer DB_SUCCESS (o_lock (engine w)) in
  (err, log (EvLock pos err)
          (set_engine (set_o_lock (tl (o_lock (engine w))) (engine w)) w)).

Fixpoint del_mark_nth (pos : nat) (recs : list rec_t) : list rec_t :=
  match recs, pos with
  | [], _ => []
  | r :: recs', 0 => rec_set_deleted r :: recs'
  | r :: recs', S pos' => r :: del_mark_nth pos' recs'
  end.

(** Modelled from the spec: [btr_cur_del_mark_set_clust_rec], "mark record
    deleted (delete-mark, not physical removal)"; a failed call leaves the
    record as it was. *)
Definition btr_cur_del_mark_set_clust_rec (pos : nat) (w : world)
  : dberr_t * world :=
  let err := next_answer DB_SUCCESS (o_delmark (engine w)) in
  let w1 := log (EvDelMark pos err)
              (set_engine (set_o_delmark (tl (o_delmark (engine w))) (engine w))
                 w) in
  if err =?e DB_SUCCESS
  then (err, set_clust_index (del_mark_nth pos (clust_index w1)) w1)
  else (err, w1).

(** ** QueryExecutor::insert_record, QueryExecutor::lock_table *)

(** [row_ins_clust_index_entry] answers from its script. *)
Definition insert_record (tuple : dtuple_t) (w : world) : dberr_t * world :=
  let err := next_answer DB_SUCCESS (o_insert (engine w)) in
  (err, log (EvInsert tuple)
          (set_engine (set_o_insert (tl (o_insert (engine w))) (engine w)) w)).

(** [::lock_table] answers from its script. *)
Definition lock_table (w : world) : dberr_t * world :=
  let w1 := trx_start_if_not_started w in
  let err := next_answer DB_SUCCESS (o_table_lock (engine w1)) in
  (err, log EvTableLock
          (set_engine
             (set_o_table_lock (tl (o_table_lock (engine w1))) (engine w1))
             w1)).

(** ** QueryExecutor::handle_wait *)

(** [trx->lock.wait_thr] and, when it is set, the result of [lock_wait]:
    one entry of the wait script, [None] for "no wait request outstanding". *)
Definition pending_wait (w : world) : option dberr_t :=
  next_answer None (o_wait (engine w)).

(** Modelled from the spec: [lock_wait] of lock0lock.cc, which is not among
    the sources, suspends the thread until the lock manager has settled the
    wait request; section 3 of the design document has the error state of
    the transaction "mutated to report the outcome of a wait".  The result
    of the wait is returned and left in [trx->error_state]. *)
Definition lock_wait (wait_err : dberr_t) (w : world) : world :=
  log (EvLockWait wait_err) (set_error_state wait_err w).

Definition handle_wait (err : dberr_t) (table_lock : bool) (w : world)
  : dberr_t * world :=
  let w1 := log (EvSetErrorState err) (set_error_state err w) in
  let st := if table_lock then QUE_THR_LOCK_TABLE else QUE_THR_LOCK_ROW in
  let w2 := log (EvSetLockState st) (set_lock_state st w1) in
  let w3 := log (EvWaitThr (match pending_wait w2 with
                            | Some _ => true
                            | None => false
                            end))
              (set_engine (set_o_wait (tl (o_wait (engine w2))) (engine w2))
                 w2) in
  match pending_wait w2 with
  | Some wait_err =>
      let w4 := lock_wait wait_err w3 in
      let err1 := if wait_err =?e DB_LOCK_WAIT_TIMEOUT then wait_err else err in
      if wait_err =?e DB_SUCCESS
      then (DB_SUCCESS,
            log (EvSetLockState QUE_THR_LOCK_NOLOCK)
              (set_lock_state QUE_THR_LOCK_NOLOCK w4))
      else (err1, w4)
  | None => (err, w3)
  end.

(** ** QueryExecutor::delete_record *)

(** How the scan of one attempt ends: at the label [func_exit] with the
    current [err], by the [return err] after a failed wait, or at [retry]. *)
Inductive delete_ctl : Type :=
| DelFuncExit (err : dberr_t)
| DelReturn (err : dberr_t)
| DelRetry.

(** The state of the loop: [err], [deleted_count] and the world. *)
Definition delete_state : Type := (dberr_t * nat * world)%type.

(** The label [next_rec] at the end of the loop body. *)
Definition delete_next_rec (err : dberr_t) (deleted_count : nat) (w : world)
  : (delete_ctl * nat * world) + delete_state :=
  let '(moved, w1) := btr_pcur_move_to_next w in
  if moved then inr (err, deleted_count, w1)
  else inl (DelFuncExit err, deleted_count, w1).

(** One round of [while (btr_pcur_is_on_user_rec(&m_pcur))]. *)
Definition delete_body (tuple : dtuple_t) (s : delete_state)
  : (delete_ctl * nat * world) + delete_state :=
  let '(err, deleted_count, w) := s in
  match btr_pcur_get_user_rec w with
  | None => inl (DelFuncExit err, deleted_count, w)
  | Some (pos, rec) =>
      if rec_get_deleted_flag rec then
        delete_next_rec err deleted_count w
      else
        let w1 := log (EvExamine pos) w in
        if negb (cmp_dtuple_rec tuple rec =? 0)%Z then
          inl (DelFuncExit err, deleted_count, w1)      (* break *)
        else
          let '(err1, w2) := lock_clust_rec_read_check_and_lock pos w1 in
          if err1 =?e DB_LOCK_WAIT then
            let w3 := mtr_commit w2 in
            let '(err2, w4) := handle_wait err1 false w3 in
            if negb (err2 =?e DB_SUCCESS)
            then inl (DelReturn err2, deleted_count, w4)
            else inl (DelRetry, deleted_count, w4)
          else if negb (err1 =?e DB_SUCCESS)
                  && negb (err1 =?e DB_SUCCESS_LOCKED_REC) then
            inl (DelFuncExit err1, deleted_count, w2)
          else
            let '(err3, w3) := btr_cur_del_mark_set_clust_rec pos w2 in
            if negb (err3 =?e DB_SUCCESS) then
              inl (DelFuncExit err3, deleted_count, w3)
            else
              delete_next_rec err3 (S deleted_count) w3
  end.

Definition delete_scan (fuel : nat) (tuple : dtuple_t) (err : dberr_t)
  (deleted_count : nat) (w : world) : option (delete_ctl * nat * world) :=
  loop (fun s => Some (delete_body tuple s)) fuel (err, deleted_count, w).

(** Enough iterations to walk the cursor off the index it is bound to. *)
Definition scan_fuel (w : world) : nat := S (S (length (cursor_recs w))).

(** From [retry:] up to the end of the loop. *)
Definition delete_attempt (tuple : dtuple_t) (deleted_count : nat) (w : world)
  : option (delete_ctl * nat * world) :=
  let w1 := mtr_start w in
  let w2 := set_pcur_index CLUST w1 in
  let '(err, w3) := btr_pcur_open_on_user_rec tuple w2 in
  if negb (err =?e DB_SUCCESS) then Some (DelFuncExit err, deleted_count, w3)
  else delete_scan (scan_fuel w3) tuple err deleted_count w3.

(** How a call ended, next to the value it returned: the scan ran to its end
    (comparison mismatch or cursor exhausted) or a hard error cut it short. *)
Inductive delete_end : Type :=
| ScanTerminated
| HardError (err : dberr_t).

(** One pass from [retry:] to a [return] or back to [retry:].  The result
    carries, besides the returned code, the final [deleted_count] and the
    way the call ended. *)
Definition delete_record_body (tuple : dtuple_t) (s : nat * world)
  : option ((dberr_t * nat * delete_end * world) + (nat * world)) :=
  let '(deleted_count, w) := s in
  match delete_attempt tuple deleted_count w with
  | None => None
  | Some (DelRetry, n, w1) => Some (inr (n, w1))
  | Some (DelReturn err, n, w1) => Some (inl (err, n, HardError err, w1))
  | Some (DelFuncExit err, n, w1) =>
      let w2 := mtr_commit w1 in
      if is_error err then Some (inl (err, n, HardError err, w2))
      else Some (inl (if 0 <? n then DB_SUCCESS else DB_RECORD_NOT_FOUND,
                      n, ScanTerminated, w2))
  end.

Definition delete_record_loop (retries : nat) (tuple : dtuple_t)
  (deleted_count : nat) (w : world)
  : option (dberr_t * nat * delete_end * world) :=
  loop (delete_record_body tuple) retries (deleted_count, w).

(** Every jump back to [retry:] follows a DB_LOCK_WAIT answer of the lock
    manager, so the lock script bounds the number of attempts. *)
Definition retry_fuel (w : world) : nat := S (length (o_lock (engine w))).

Definition delete_record_full (tuple : dtuple_t) (w : world)
  : option (dberr_t * nat * delete_end * world) :=
  delete_record_loop (retry_fuel w) tuple 0 w.

Definition delete_record (tuple : dtuple_t) (w : world)
  : option (dberr_t * world) :=
  match delete_record_full tuple w with
  | Some (err, _, _, w') => Some (err, w')
  | None => None
  end.

(** ** QueryExecutor::delete_all *)

Inductive delete_all_ctl : Type :=
| DelAllExit (err : dberr_t)      (* the loop ended, commit follows *)
| DelAllReturn (err : dberr_t)    (* [return err] inside the loop *)
| DelAllRetry.

Definition delete_all_next_rec (err : dberr_t) (w : world)
  : (delete_all_ctl * world) + (dberr_t * world) :=
  let '(moved, w1) := btr_pcur_move_to_next w in
  if moved then inr (err, w1) else inl (DelAllExit err, w1).

(** One round of the [while] loop of [delete_all]. *)
Definition delete_all_body (s : dberr_t * world)
  : (delete_all_ctl * world) + (dberr_t * world) :=
  let '(err, w) := s in
  if btr_pcur_is_after_last w then inl (DelAllExit err, w)
  else
    match btr_pcur_get_user_rec w with
    | None => delete_all_next_rec err w
    | Some (pos, rec) =>
        if rec_get_deleted_flag rec then delete_all_next_rec err w
        else if rec_min_rec rec then delete_all_next_rec err w
        else
          let '(err1, w2) := lock_clust_rec_read_check_and_lock pos w in
          if err1 =?e DB_LOCK_WAIT then
            let w3 := mtr_commit w2 in
            let '(err2, w4) := handle_wait err1 false w3 in
            if negb (err2 =?e DB_SUCCESS)
            then inl (DelAllReturn err2, w4)
            else inl (DelAllRetry, w4)
          else if negb (err1 =?e DB_SUCCESS)
                  && negb (err1 =?e DB_SUCCESS_LOCKED_REC) then
            let w3 := mtr_commit w2 in
            inl (DelAllReturn err1, w3)
          else
            let '(err3, w3) := btr_cur_del_mark_set_clust_rec pos w2 in
            if is_error err3 then inl (DelAllExit err3, w3)
            else delete_all_next_rec err3 w3
    end.

Definition delete_all_scan (fuel : nat) (err : dberr_t) (w : world)
  : option (delete_all_ctl * world) :=
  loop (fun s => Some (delete_all_body s)) fuel (err, w).

Definition delete_all_attempt (w : world) : option (delete_all_ctl * world) :=
  let w1 := mtr_start w in
  let '(err, w3) := open_leaf CLUST w1 in
  if negb (err =?e DB_SUCCESS) then
    Some (DelAllReturn err, mtr_commit w3)
  else
    let '(moved, w4) := btr_pcur_move_to_next w3 in
    if negb moved then Some (DelAllReturn err, mtr_commit w4)
    else delete_all_scan (scan_fuel w4) err w4.

Definition delete_all_retry_body (w : world)
  : option ((dberr_t * world) + world) :=
  match delete_all_attempt w with
  | None => None
  | Some (DelAllRetry, w1) => Some (inr w1)
  | Some (DelAllReturn err, w1) => Some (inl (err, w1))
  | Some (DelAllExit err, w1) => Some (inl (err, mtr_commit w1))
  end.

Definition delete_all_loop (retries : nat) (w : world)
  : option (dberr_t * world) :=
  loop delete_all_retry_body retries w.

Definition delete_all (w : world) : option (dberr_t * world) :=
  delete_all_loop (retry_fuel w) w.

(** ** QueryExecutor::select_for_update *)

(** The label [err_exit]: commit the mini-transaction and return [err]. *)
Definition err_exit (err : dberr_t) (w : world) : dberr_t * world :=
  (err, mtr_commit w).

(** The opening lines shared by the reading entry points: a transaction
    without a read view gets one. *)
Definition ensure_read_view (w : world) : world :=
  if trx_present w && negb (read_view_open w)
  then read_view_do_open (trx_start_if_not_started w)
  else w.

Definition select_for_update (search_tuple : dtuple_t)
  (callback : option RecordCallback) (w : world) : dberr_t * world :=
  let w1 := mtr_start w in
  let w2 := ensure_read_view w1 in
  let w3 := set_pcur_index CLUST w2 in
  let '(err, w4) := btr_pcur_open_on_user_rec search_tuple w3 in
  if negb (err =?e DB_SUCCESS) then err_exit err w4
  else
    match btr_pcur_get_user_rec w4 with
    | None => err_exit DB_RECORD_NOT_FOUND w4
    | Some (pos, rec) =>
        let offsets := rec_get_offsets rec in
        if trx_present w4 && read_view_open w4
           && negb (row_get_rec_trx_id rec =? 0)%Z
           && negb (changes_visible w4 (row_get_rec_trx_id rec))
        then err_exit DB_RECORD_NOT_FOUND w4
        else
          let w5 := log (EvExamine pos) w4 in
          if negb (cmp_dtuple_rec search_tuple rec =? 0)%Z
          then err_exit DB_RECORD_NOT_FOUND w5
          else
            let '(err1, w6) := lock_clust_rec_read_check_and_lock pos w5 in
            if err1 =?e DB_LOCK_WAIT then
              let w7 := mtr_commit w6 in
              let '(err2, w8) := handle_wait err1 false w7 in
              if negb (err2 =?e DB_SUCCESS) then (err2, w8)
              else (DB_LOCK_WAIT, w8)
            else if negb (err1 =?e DB_SUCCESS)
                    && negb (err1 =?e DB_SUCCESS_LOCKED_REC) then
              err_exit err1 w6
            else
              match callback with
              | Some cb =>
                  let action :=
                    compare_record cb (Some search_tuple) rec offsets in
                  let w7 := log (EvCompare rec action) w6 in
                  let w8 := if action_eqb action PROCESS
                            then log (EvProcess rec offsets) w7 else w7 in
                  if action_eqb action SKIP
                  then err_exit DB_RECORD_NOT_FOUND w8
                  else (DB_SUCCESS, w8)
              | None => (DB_SUCCESS, w6)
              end
    end.

(** ** QueryExecutor::update_record *)

(** Modelled from the spec: the constants of row0upd.h and univ.i used by
    [update_record]; the headers are not among the sources.  The two
    [cmpl_info] flags are distinct bits, and [UNIV_SQL_NULL] is the length
    that stands for an SQL NULL value. *)
Definition UPD_NODE_NO_ORD_CHANGE : Z := 1.
Definition UPD_NODE_NO_SIZE_CHANGE : Z := 2.
Definition UNIV_SQL_NULL : Z := 4294967295.

Record upd_field_t : Type := mk_upd_field {
  field_no : nat;
  new_val : dfield_t
}.

(** [upd_t]: [n_fields] is the length of the list. *)
Definition upd_t : Type := list upd_field_t.

(** The [for] loop over [update->fields], from the field it stands on. *)
Fixpoint upd_size_scan (fields : list upd_field_t) (offsets : rec_offs)
  (cmpl_info : Z) (err : dberr_t) : Z * dberr_t :=
  match fields with
  | [] => (cmpl_info, err)
  | upd_field :: fields' =>
      if field_no upd_field <? rec_offs_n_fields offsets then
        let old_len := rec_offs_nth_size offsets (field_no upd_field) in
        let new_len := dfield_len (new_val upd_field) in
        if negb (new_len =? UNIV_SQL_NULL)%Z && negb (new_len =? old_len)%Z
        then (Z.land cmpl_info (Z.lnot UPD_NODE_NO_SIZE_CHANGE), DB_OVERFLOW)
        else upd_size_scan fields' offsets cmpl_info err
      else upd_size_scan fields' offsets cmpl_info err
  end.

(** Modelled from the spec: the update primitives of btr0cur.cc, "in-place/
    optimistic/pessimistic update primitives, off-page storage write"; each
    answers from its script. *)
Definition btr_cur_update_in_place (w : world) : dberr_t * world :=
  let err := next_answer DB_SUCCESS (o_inplace (engine w)) in
  (err, log EvUpdateInPlace
          (set_engine (set_o_inplace (tl (o_inplace (engine w))) (engine w))
             w)).

Definition btr_cur_optimistic_update (cmpl_info : Z) (w : world)
  : dberr_t * world :=
  let err := next_answer DB_SUCCESS (o_optimistic (engine w)) in
  (err, log (EvOptimisticUpdate cmpl_info)
          (set_engine
             (set_o_optimistic (tl (o_optimistic (engine w))) (engine w)) w)).

(** The second component is [big_rec != nullptr] after the call. *)
Definition btr_cur_pessimistic_update (cmpl_info : Z) (w : world)
  : dberr_t * bool * world :=
  let '(err, big_rec) :=
    next_answer (DB_SUCCESS, false) (o_pessimistic (engine w)) in
  (err, big_rec,
   log (EvPessimisticUpdate cmpl_info)
     (set_engine
        (set_o_pessimistic (tl (o_pessimistic (engine w))) (engine w)) w)).

Definition btr_store_big_rec_extern_fields (w : world) : dberr_t * world :=
  let err := next_answer DB_SUCCESS (o_store_big (engine w)) in
  (err, log EvStoreBigRec
          (set_engine
             (set_o_store_big (tl (o_store_big (engine w))) (engine w)) w)).

(** The offsets of the record under the cursor; [update_record] is only
    meant to follow a successful [select_for_update], which leaves the
    cursor on a user record. *)
Definition pcur_rec_offsets (w : world) : rec_offs :=
  match btr_pcur_get_user_rec w with
  | Some (_, rec) => rec_get_offsets rec
  | None => []
  end.

Definition update_record (update : upd_t) (w : world) : dberr_t * world :=
  let offsets := pcur_rec_offsets w in
  let w1 := log EvIndexXLock w in
  let '(cmpl_info, err) :=
    upd_size_scan update offsets
      (Z.lor UPD_NODE_NO_ORD_CHANGE UPD_NODE_NO_SIZE_CHANGE) DB_SUCCESS in
  let '(err1, w2) :=
    if negb (Z.land cmpl_info UPD_NODE_NO_SIZE_CHANGE =? 0)%Z
    then btr_cur_update_in_place w1
    else (err, w1) in
  if err1 =?e DB_OVERFLOW then
    let '(err2, w3) := btr_cur_optimistic_update cmpl_info w2 in
    if (err2 =?e DB_OVERFLOW) || (err2 =?e DB_UNDERFLOW) then
      let '(err3, big_rec, w4) := btr_cur_pessimistic_update cmpl_info w3 in
      if (err3 =?e DB_SUCCESS) && big_rec
      then btr_store_big_rec_extern_fields w4
      else (err3, w4)
    else (err2, w3)
  else (err1, w2).

(** ** QueryExecutor::replace_record *)

(** One pass from [retry_again:] to a [return] or back to the label. *)
Definition replace_record_body (search_tuple : dtuple_t) (update : upd_t)
  (insert_tuple : dtuple_t) (w : world) : option ((dberr_t * world) + world) :=
  let '(err, w1) := select_for_update search_tuple None w in
  if err =?e DB_SUCCESS then
    let '(err1, w2) := update_record update w1 in
    Some (inl (err1, mtr_commit w2))
  else if err =?e DB_RECORD_NOT_FOUND then
    Some (inl (insert_record insert_tuple w1))
  else if err =?e DB_LOCK_WAIT then Some (inr w1)
  else Some (inl (err, w1)).

Definition replace_record_loop (retries : nat) (search_tuple : dtuple_t)
  (update : upd_t) (insert_tuple : dtuple_t) (w : world)
  : option (dberr_t * world) :=
  loop (replace_record_body search_tuple update insert_tuple) retries w.

(** [select_for_update] answers DB_LOCK_WAIT after a lock wait, or when the
    cursor open itself reports that code: one entry of the lock script or of
    the open script is used up by every retry. *)
Definition replace_fuel (w : world) : nat :=
  S (length (o_lock (engine w)) + length (o_open (engine w))).

Definition replace_record (search_tuple : dtuple_t) (update : upd_t)
  (insert_tuple : dtuple_t) (w : world) : option (dberr_t * world) :=
  replace_record_loop (replace_fuel w) search_tuple update insert_tuple w.

(** ** QueryExecutor::process_record_with_mvcc *)

(** Modelled from the spec: [row_vers_build_for_consistent_read] of
    row0vers.cc, "build the prior visible version from the undo chain": the
    world's [vers_build] gives the status and the version (if any). *)
Definition row_vers_build_for_consistent_read (rec : rec_t) (w : world)
  : dberr_t * option rec_t * world :=
  let '(error, version_rec) := vers_build w rec in
  (error, version_rec, log (EvVersBuild rec) w).

(** [callback.process_record(version_rec, index, version_offsets)]. *)
Definition call_process_record (callback : RecordCallback) (rec : rec_t)
  (offsets : rec_offs) (w : world) : bool * world :=
  (process_record callback rec offsets, log (EvProcess rec offsets) w).

(** The result is the returned status, the value left in the reference
    parameter [continue_processing], and the world. *)
Definition process_record_with_mvcc (rec : rec_t) (offsets : rec_offs)
  (callback : RecordCallback) (continue_processing : bool) (w : world)
  : dberr_t * bool * world :=
  let is_deleted := rec_get_deleted_flag rec in
  let finish (should_process_record : bool) (version_rec : rec_t)
             (version_offsets : rec_offs) (error : dberr_t) (w0 : world) :=
    if should_process_record then
      let '(c, w1) :=
        call_process_record callback version_rec version_offsets w0 in
      (error, c, w1)
    else (error, continue_processing, w0) in
  if trx_present w && read_view_open w then
    if negb (row_get_rec_trx_id rec =? 0)%Z
       && negb (changes_visible w (row_get_rec_trx_id rec))
    then
      let '(error, version, w1) := row_vers_build_for_consistent_read rec w in
      match error =?e DB_SUCCESS, version with
      | true, Some version_rec =>
          let version_offsets := rec_get_offsets version_rec in
          let is_deleted := rec_get_deleted_flag version_rec in
          finish (negb is_deleted) version_rec version_offsets error w1
      | _, _ =>
          if negb (error =?e DB_SUCCESS) then (error, false, w1)
          else finish false rec offsets error w1
      end
    else finish (negb is_deleted) rec offsets DB_SUCCESS w
  else finish (negb is_deleted) rec offsets DB_SUCCESS w.

(** ** QueryExecutor::read *)

Inductive read_ctl : Type :=
| ReadReturn (err : dberr_t)   (* [return err] inside the loop, committed *)
| ReadLoopEnd.                 (* the loop ended, commit follows *)

(** The end of a round: advance the cursor, or leave the loop when it
    cannot advance. *)
Definition read_next_rec (match_count : nat) (w : world)
  : (read_ctl * nat * world) + (nat * world) :=
  let '(moved, w') := btr_pcur_move_to_next w in
  if moved then inr (match_count, w') else inl (ReadLoopEnd, match_count, w').

(** One round of the [while] loop of [read]. *)
Definition read_body (tuple : option dtuple_t) (callback : RecordCallback)
  (s : nat * world) : (read_ctl * nat * world) + (nat * world) :=
  let '(match_count, w) := s in
  match btr_pcur_get_user_rec w with
  | None => inl (ReadLoopEnd, match_count, w)
  | Some (_, rec) =>
      let offsets := rec_get_offsets rec in
      let action := compare_record callback tuple rec offsets in
      let w1 := log (EvCompare rec action) w in
      match action with
      | PROCESS =>
          let '(err, continue_processing, w2) :=
            process_record_with_mvcc rec offsets callback true w1 in
          if is_error err || negb continue_processing
          then inl (ReadReturn err, match_count, mtr_commit w2)
          else read_next_rec (S match_count) w2
      | STOP => inl (ReadLoopEnd, match_count, w1)
      | SKIP => read_next_rec match_count w1
      end
  end.

Definition read_scan (fuel : nat) (tuple : option dtuple_t)
  (callback : RecordCallback) (match_count : nat) (w : world)
  : option (read_ctl * nat * world) :=
  loop (fun s => Some (read_body tuple callback s)) fuel (match_count, w).

(** How a call of [read] ended, next to the value it returned. *)
Inductive read_end : Type :=
| ReadNotPositioned     (* the cursor could not be positioned *)
| ReadCutShort          (* left from inside the loop *)
| ReadScanDone.         (* the scan ran to STOP or to the end of the index *)

(** The result carries, besides the returned code, the final [match_count]
    and the way the call ended.  The parameter [mode] of the source is not
    used by it and has no counterpart here. *)
(** What [read] makes of the way its loop ended. *)
Definition read_finish (tuple : option dtuple_t)
  (scanned : option (read_ctl * nat * world))
  : option (dberr_t * nat * read_end * world) :=
  match scanned with
  | None => None
  | Some (ReadReturn err, n, w') => Some (err, n, ReadCutShort, w')
  | Some (ReadLoopEnd, n, w') =>
      Some (if (0 <? n) || (match tuple with None => true | _ => false end)
            then DB_SUCCESS else DB_RECORD_NOT_FOUND,
            n, ReadScanDone, mtr_commit w')
  end.

Definition read_full (tuple : option dtuple_t) (callback : RecordCallback)
  (w : world) : option (dberr_t * nat * read_end * world) :=
  let w1 := mtr_start w in
  let w2 := ensure_read_view w1 in
  let w3 := set_pcur_index CLUST w2 in
  let scan (w0 : world) :=
    read_finish tuple (read_scan (scan_fuel w0) tuple callback 0 w0) in
  match tuple with
  | Some t =>
      let '(err, w4) := btr_pcur_open_on_user_rec t w3 in
      if negb (err =?e DB_SUCCESS)
      then Some (err, 0, ReadNotPositioned, mtr_commit w4)
      else scan w4
  | None =>
      let '(err, w4) := open_leaf CLUST w3 in
      if negb (err =?e DB_SUCCESS)
      then Some (err, 0, ReadNotPositioned, mtr_commit w4)
      else
        let '(moved, w5) := btr_pcur_move_to_next w4 in
        if negb moved then Some (err, 0, ReadNotPositioned, mtr_commit w5)
        else scan w5
  end.

Definition read (tuple : option dtuple_t) (callback : RecordCallback)
  (w : world) : option (dberr_t * world) :=
  match read_full tuple callback w with
  | Some (err, _, _, w') => Some (err, w')
  | None => None
  end.

(** ** QueryExecutor::lookup_clustered_record, QueryExecutor::read_by_index *)

(** Modelled from the spec: [btr_pcur_open] on the separate cursor
    [clust_pcur] in mode PAGE_CUR_LE; the record it stands on, [None] for
    the infimum. *)
Definition btr_pcur_open_le (tuple : dtuple_t) (w : world)
  : dberr_t * option rec_t * world :=
  let err := next_answer DB_SUCCESS (o_open (engine w)) in
  let w1 := log (EvCursorOpen err)
              (set_engine (set_o_open (tl (o_open (engine w))) (engine w)) w) in
  (err, page_cur_le tuple (clust_index w1), w1).

(** The result is the returned status and the values left in the reference
    parameters [match_count] and [continue_processing]. *)
Definition lookup_clustered_record (sec_rec : rec_t)
  (callback : RecordCallback) (match_count : nat) (continue_processing : bool)
  (w : world) : dberr_t * nat * bool * world :=
  let clust_tuple := row_build_row_ref w sec_rec in
  let w1 := log EvSavepoint w in
  let '(clust_err, found, w2) := btr_pcur_open_le clust_tuple w1 in
  let rollback_to_savepoint := log EvRollbackToSavepoint in
  if clust_err =?e DB_SUCCESS then
    match found with
    | Some clust_rec =>
        let clust_offsets := rec_get_offsets clust_rec in
        if (cmp_dtuple_rec clust_tuple clust_rec =? 0)%Z then
          let '(err, c, w3) :=
            process_record_with_mvcc clust_rec clust_offsets callback
              continue_processing w2 in
          if negb (err =?e DB_SUCCESS)
          then (err, match_count, c, rollback_to_savepoint w3)
          else (clust_err, S match_count, c, rollback_to_savepoint w3)
        else (clust_err, match_count, continue_processing,
              rollback_to_savepoint w2)
    | None => (clust_err, match_count, continue_processing,
               rollback_to_savepoint w2)
    end
  else (clust_err, match_count, continue_processing, rollback_to_savepoint w2).

(** One round of the [while] loop of [read_by_index]. *)
Definition read_by_index_body (search_tuple : dtuple_t)
  (callback : RecordCallback) (s : nat * world)
  : (read_ctl * nat * world) + (nat * world) :=
  let '(match_count, w) := s in
  match btr_pcur_get_user_rec w with
  | None => inl (ReadLoopEnd, match_count, w)
  | Some (_, sec_rec) =>
      let sec_offsets := rec_get_offsets sec_rec in
      let action :=
        compare_record callback (Some search_tuple) sec_rec sec_offsets in
      let w1 := log (EvCompare sec_rec action) w in
      match action with
      | PROCESS =>
          let '(err, n, continue_processing, w2) :=
            lookup_clustered_record sec_rec callback match_count true w1 in
          if is_error err || negb continue_processing
          then inl (ReadReturn err, n, mtr_commit w2)
          else read_next_rec n w2
      | STOP => inl (ReadLoopEnd, match_count, w1)
      | SKIP => read_next_rec match_count w1
      end
  end.

Definition read_by_index_scan (fuel : nat) (search_tuple : dtuple_t)
  (callback : RecordCallback) (match_count : nat) (w : world)
  : option (read_ctl * nat * world) :=
  loop (fun s => Some (read_by_index_body search_tuple callback s)) fuel
    (match_count, w).

(** What [read_by_index] makes of the way its loop ended. *)
Definition read_by_index_finish (scanned : option (read_ctl * nat * world))
  : option (dberr_t * world) :=
  match scanned with
  | None => None
  | Some (ReadReturn err, _, w') => Some (err, w')
  | Some (ReadLoopEnd, n, w') =>
      Some (if 0 <? n then DB_SUCCESS else DB_RECORD_NOT_FOUND, mtr_commit w')
  end.

Definition read_by_index (search_tuple : dtuple_t) (callback : RecordCallback)
  (w : world) : option (dberr_t * world) :=
  let w1 := mtr_start w in
  let w2 := ensure_read_view w1 in
  let w3 := set_pcur_index SEC w2 in
  let '(err, w4) := btr_pcur_open_on_user_rec search_tuple w3 in
  if negb (err =?e DB_SUCCESS) then Some (err, mtr_commit w4)
  else
    read_by_index_finish
      (read_by_index_scan (scan_fuel w4) search_tuple callback 0 w4).

(** ** Reading the trace *)

(** The events of a run in the order they happened. *)
Definition history (w : world) : list event := rev (trace w).

Definition count_events (p : event -> bool) (w : world) : nat :=
  length (filter p (trace w)).

Definition is_mtr_start (ev : event) : bool :=
  match ev with EvMtrStart => true | _ => false end.

Definition is_mtr_commit (ev : event) : bool :=
  match ev with EvMtrCommit => true | _ => false end.

Definition is_vers_build (ev : event) : bool :=
  match ev with EvVersBuild _ => true | _ => false end.

Definition is_process (ev : event) : bool :=
  match ev with EvProcess _ _ => true | _ => false end.


Definition is_lock (ev : event) : bool :=
  match ev with EvLock _ _ => true | _ => false end.

Definition is_lock_wait (ev : event) : bool :=
  match ev with EvLockWait _ => true | _ => false end.

Definition is_del_mark (ev : event) : bool :=
  match ev with EvDelMark _ _ => true | _ => false end.

(** A call of the delete-mark primitive that marked its record. *)
Definition is_marked (ev : event) : bool :=
  match ev with EvDelMark _ DB_SUCCESS => true | _ => false end.

Definition is_update_in_place (ev : event) : bool :=
  match ev with EvUpdateInPlace => true | _ => false end.

Definition is_optimistic_update (ev : event) : bool :=
  match ev with EvOptimisticUpdate _ => true | _ => false end.

Definition mtr_starts : world -> nat := count_events is_mtr_start.
Definition mtr_commits : world -> nat := count_events is_mtr_commit.

(** The mini-transactions started and committed between two worlds. *)
Definition mtr_started (w w' : world) : nat := mtr_starts w' - mtr_starts w.
Definition mtr_committed (w w' : world) : nat :=
  mtr_commits w' - mtr_commits w.

(** The rows delete-marked between two worlds. *)
Definition rows_marked (w w' : world) : nat :=
  count_events is_marked w' - count_events is_marked w.

(** An event that examines no record beyond position [j] and locks or
    delete-marks no record at or beyond it. *)
Definition touches_below (j : nat) (ev : event) : bool :=
  match ev with
  | EvExamine i => i <=? j
  | EvLock i _ => i <? j
  | EvDelMark i _ => i <? j
  | _ => true
  end.






(** ** The public operations *)

(** A call of one of the public member functions of section 4.1. *)
Inductive operation : Type :=
| OpInsertRecord (tuple : dtuple_t)
| OpLockTable
| OpHandleWait (err : dberr_t) (table_lock : bool)
| OpDeleteRecord (tuple : dtuple_t)
| OpDeleteAll
| OpSelectForUpdate (search_tuple : dtuple_t)
    (callback : option RecordCallback)
| OpUpdateRecord (update : upd_t)
| OpReplaceRecord (search_tuple : dtuple_t) (update : upd_t)
    (insert_tuple : dtuple_t)
| OpRead (tuple : option dtuple_t) (callback : RecordCallback)
| OpReadByIndex (search_tuple : dtuple_t) (callback : RecordCallback).

Definition run (op : operation) (w : world) : option (dberr_t * world) :=
  match op with
  | OpInsertRecord tuple => Some (insert_record tuple w)
  | OpLockTable => Some (lock_table w)
  | OpHandleWait err table_lock => Some (handle_wait err table_lock w)
  | OpDeleteRecord tuple => delete_record tuple w
  | OpDeleteAll => delete_all w
  | OpSelectForUpdate search_tuple callback =>
      Some (select_for_update search_tuple callback w)
  | OpUpdateRecord update => Some (update_record update w)
  | OpReplaceRecord search_tuple update insert_tuple =>
      replace_record search_tuple update insert_tuple w
  | OpRead tuple callback => read tuple callback w
  | OpReadByIndex search_tuple callback =>
      read_by_index search_tuple callback w
  end.

(** The one return that leaves the mini-transaction open: DB_SUCCESS from
    [select_for_update]. *)
Definition leaves_mtr_open (op : operation) (r : dberr_t) : bool :=
  match op with
  | OpSelectForUpdate _ _ => r =?e DB_SUCCESS
  | _ => false
  end.

(** ** MVCC resolution as the design document words it *)

(** A read view is consulted only when there is a transaction and its view
    is open. *)
Definition view_is_open (w : world) : bool :=
  trx_present w && read_view_open w.

(** The creator of the record is visible under the view, or the record
    carries no creator id. *)
Definition creator_visible (w : world) (rec : rec_t) : bool :=
  (row_get_rec_trx_id rec =? 0)%Z || changes_visible w (row_get_rec_trx_id rec).





(** ** The update strategy as the design document words it *)

(** Some updated field has a new length different from its old one, read
    literally: whatever the field number and the new length are. *)
Definition some_length_differs (update : upd_t) (offsets : rec_offs) : bool :=
  existsb
    (fun f => negb (dfield_len (new_val f)
                    =? rec_offs_nth_size offsets (field_no f))%Z)
    update.

(** What the loop of [update_record] looks for: an updated field that lies
    within the record, whose new value is not SQL NULL, and whose new
    length differs from the size of the stored field. *)
Definition size_changes (update : upd_t) (offsets : rec_offs) : bool :=
  existsb
    (fun f =>
       (field_no f <? rec_offs_n_fields offsets)
       && negb (dfield_len (new_val f) =? UNIV_SQL_NULL)%Z
       && negb (dfield_len (new_val f)
                =? rec_offs_nth_size offsets (field_no f))%Z)
    update.

(** Optimistic update, then pessimistic update on OVERFLOW or UNDERFLOW,
    then the external storage of a big-record remainder. *)
Definition escalate_update (cmpl_info : Z) (w : world) : dberr_t * world :=
  let '(err, w1) := btr_cur_optimistic_update cmpl_info w in
  if (err =?e DB_OVERFLOW) || (err =?e DB_UNDERFLOW) then
    let '(err', big_rec, w2) := btr_cur_pessimistic_update cmpl_info w1 in
    if (err' =?e DB_SUCCESS) && big_rec
    then btr_store_big_rec_extern_fields w2
    else (err', w2)
  else (err, w1).

(** The strategy of section 4.1: in place when no field changes its size,
    otherwise optimistic first; the status of the last primitive called is
    the result. *)
Definition update_strategy_spec (update : upd_t) (w : world)
  : dberr_t * world :=
  let w1 := log EvIndexXLock w in
  if size_changes update (pcur_rec_offsets w) then
    escalate_update UPD_NODE_NO_ORD_CHANGE w1
  else
    let '(err, w2) := btr_cur_update_in_place w1 in
    if err =?e DB_OVERFLOW
    then escalate_update
           (Z.lor UPD_NODE_NO_ORD_CHANGE UPD_NODE_NO_SIZE_CHANGE) w2
    else (err, w2).

(** ** Measures and invariants of the loops *)

(** The distance of the cursor from the end of its index. *)
Definition cursor_room (w : world) : nat :=
  S (length (cursor_recs w)) - pcur_pos w.

Definition lock_script_len (w : world) : nat := length (o_lock (engine w)).

(** [w'] started [ds] and committed [dc] mini-transactions more than [w]. *)
Definition mtr_delta (w w' : world) (ds dc : nat) : Prop :=
  mtr_starts w' = ds + mtr_starts w /\ mtr_commits w' = dc + mtr_commits w.

(** The cursor and the indexes are where they were. *)
Definition same_place (w w' : world) : Prop :=
  clust_index w' = clust_index w /\ sec_index w' = sec_index w /\
  pcur_index w' = pcur_index w /\ pcur_pos w' = pcur_pos w.

(** The entries left in the lock script and in the open script. *)
Definition script_len (w : world) : nat :=
  length (o_lock (engine w)) + length (o_open (engine w)).

(** [w'] has seen as many commits as starts since [w]. *)
Definition mtr_balanced (w w' : world) : Prop :=
  exists k, mtr_delta w w' k k.

(** Nothing has been locked or marked since [w0], and the index is as it
    was. *)
Definition untouched (w0 w : world) : Prop :=
  pcur_index w = CLUST /\ clust_index w = clust_index w0 /\
  count_events is_lock w = count_events is_lock w0 /\
  count_events is_del_mark w = count_events is_del_mark w0.

(** Nothing was touched at or beyond [j], the index is as in [w0] from [j]
    on, and the search for [tuple] still starts where it did. *)
Definition below_j (tuple : dtuple_t) (w0 : world) (j : nat) (w : world)
  : Prop :=
  forallb (touches_below j) (trace w) = true /\
  page_cur_ge tuple (clust_index w) = page_cur_ge tuple (clust_index w0) /\
  (forall k, j <= k ->
             nth_error (clust_index w) k = nth_error (clust_index w0) k).

(** The same during a scan of the clustered index that has not passed [j]. *)
Definition scanning_below_j (tuple : dtuple_t) (w0 : world) (j : nat)
  (w : world) : Prop :=
  below_j tuple w0 j w /\ pcur_index w = CLUST /\ pcur_pos w <= S j.







(** ** Concrete worlds *)

(** An engine on which nothing goes wrong. *)
Definition quiet_engine : oracle := mk_oracle [] [] [] [] [] [] [] [] [] [].

(** A one-column key and a row of a table keyed by it. *)
Definition key (k : Z) : dtuple_t := [mk_dfield k 4].

Definition row (k : Z) (deleted : bool) (trx_id : trx_id_t) : rec_t :=
  mk_rec [mk_dfield k 4; mk_dfield (10 * k) 8] deleted trx_id false.

Arguments row k%_Z deleted%_bool trx_id%_Z.
Arguments key k%_Z.

(** A transaction without a read view yet, to which every change is
    visible, on a table with the given rows. *)
Definition table_world (rows : list rec_t) (o : oracle) : world :=
  mk_world rows [] CLUST 0 true false (fun _ => true)
    (fun _ => (DB_SUCCESS, None)) (fun r => firstn 1 (rec_fields r))
    DB_SUCCESS QUE_THR_LOCK_NOLOCK o [].

(** A world whose read view is open and hides the changes of every
    transaction but number 1; the version builder answers [answer]. *)
Definition snapshot_world (rows : list rec_t)
  (answer : dberr_t * option rec_t) : world :=
  mk_world rows [] CLUST 1 true true (fun id => (id =? 1)%Z)
    (fun _ => answer) (fun r => firstn 1 (rec_fields r))
    DB_SUCCESS QUE_THR_LOCK_NOLOCK quiet_engine [].

(** A callback that wants every record processed and never ends the scan. *)
Definition process_all : RecordCallback :=
  mk_callback (fun _ _ _ => PROCESS) (fun _ _ => true).

(** Three rows, the one with key 2 delete-marked. *)
Definition tombstone_world : world :=
  table_world [row 1 false 0; row 2 true 0; row 3 false 0] quiet_engine.


(** The index of property P4: keys 1, 2, 2, 3, nothing deleted. *)
Definition p4_world : world :=
  table_world [row 1 false 0; row 2 false 0; row 2 false 0; row 3 false 0]
    quiet_engine.


(** A locked row with an 8-byte second field, the cursor on it, and an
    update that sets that field to SQL NULL. *)
Definition selected_world : world :=
  snd (select_for_update (key 2) None
         (table_world [row 2 false 0] quiet_engine)).

Definition null_update : upd_t :=
  [mk_upd_field 1 (mk_dfield 0 UNIV_SQL_NULL)].

(** ** Locks, delete marks and matching records *)

(** A row-lock request the lock manager granted at once. *)
Definition lock_granted (e : dberr_t) : bool :=
  (e =?e DB_SUCCESS) || (e =?e DB_SUCCESS_LOCKED_REC).

(** [cmp == 0] in [delete_record] and [select_for_update]. *)
Definition tuple_matches (tuple : dtuple_t) (rec : rec_t) : bool :=
  (cmp_dtuple_rec tuple rec =? 0)%Z.

(** A live record that compares equal to the tuple. *)
Definition live_match (tuple : dtuple_t) (rec : rec_t) : bool :=
  negb (rec_deleted rec) && tuple_matches tuple rec.

(** A record whose info bits do not carry REC_INFO_MIN_REC_FLAG. *)
Definition not_min_rec (rec : rec_t) : bool := negb (rec_min_rec rec).

(** The record with its delete mark set if [sel] selects it. *)
Definition mark_if (sel : rec_t -> bool) (rec : rec_t) : rec_t :=
  if sel rec then rec_set_deleted rec else rec.

Definition count_deleted (recs : list rec_t) : nat :=
  length (filter rec_deleted recs).

(** [recs'] is [recs] but for delete marks set on records that were live
    and selected by [sel]. *)
Definition marked_from (sel : rec_t -> bool) (recs recs' : list rec_t)
  : Prop :=
  Forall2 (fun r r' =>
             r' = r \/
             (r' = rec_set_deleted r /\ rec_deleted r = false /\ sel r = true))
    recs recs'.

(** Every call of the delete-mark primitive in the trace (newest event
    first) follows directly on a granted lock request for the same
    record. *)
Fixpoint marks_under_lock (t : list event) : bool :=
  match t with
  | [] => true
  | EvDelMark pos _ :: t' =>
      match t' with
      | EvLock pos' e :: _ => (pos =? pos') && lock_granted e
      | _ => false
      end
      && marks_under_lock t'
  | _ :: t' => marks_under_lock t'
  end.

(** An engine that opens the cursor, grants every row lock at once and
    sets every delete mark it is asked to set. *)
Definition cooperative (w : world) : bool :=
  (next_answer DB_SUCCESS (o_open (engine w)) =?e DB_SUCCESS)
  && forallb lock_granted (o_lock (engine w))
  && forallb (fun e => e =?e DB_SUCCESS) (o_delmark (engine w)).

(** The records stand in the order of their keys: seen from [tuple], the
    comparison results never grow along the index. *)
Fixpoint ordered_for (tuple : dtuple_t) (recs : list rec_t) : bool :=
  match recs with
  | [] => true
  | r :: recs' =>
      forallb (fun r' => (cmp_dtuple_rec tuple r' <=? cmp_dtuple_rec tuple r)%Z)
        recs'
      && ordered_for tuple recs'
  end.

(** The loop of [delete_record] as a function of the records from the
    cursor on: delete-marked records are passed over, live matching ones
    are marked, the first live record that does not match ends it. *)
Fixpoint delete_run (tuple : dtuple_t) (recs : list rec_t) : list rec_t :=
  match recs with
  | [] => []
  | r :: recs' =>
      if rec_deleted r then r :: delete_run tuple recs'
      else if tuple_matches tuple r
           then rec_set_deleted r :: delete_run tuple recs'
           else r :: recs'
  end.

(** The value of [deleted_count] after that loop. *)
Fixpoint delete_run_count (tuple : dtuple_t) (recs : list rec_t) : nat :=
  match recs with
  | [] => 0
  | r :: recs' =>
      if rec_deleted r then delete_run_count tuple recs'
      else if tuple_matches tuple r
           then S (delete_run_count tuple recs')
           else 0
  end.

(** ** What the scans hand to the processing callback *)

(** The records handed to the processing callback, oldest first. *)
Definition processed_records (w : world) : list rec_t :=
  flat_map (fun ev => match ev with EvProcess r _ => [r] | _ => [] end)
    (history w).

(** What a reader gets to see of a record (the reading entry points give a
    transaction a read view when it has none): the record itself when
    there is no transaction or its creator is visible, else the version
    the version builder finds; nothing when that is delete-marked or
    missing. *)
Definition version_seen (w : world) (rec : rec_t) : list rec_t :=
  if trx_present w && negb (creator_visible w rec) then
    match snd (vers_build w rec) with
    | Some v => if rec_deleted v then [] else [v]
    | None => []
    end
  else if rec_deleted rec then [] else [rec].

(** The records of a scan up to the first one the comparator answers STOP
    to. *)
Fixpoint until_stop (verdict : rec_t -> RecordCompareAction)
  (recs : list rec_t) : list rec_t :=
  match recs with
  | [] => []
  | r :: recs' =>
      match verdict r with
      | STOP => []
      | _ => r :: until_stop verdict recs'
      end
  end.

(** Among them, those the comparator wants processed. *)
Definition wanted (verdict : rec_t -> RecordCompareAction)
  (recs : list rec_t) : list rec_t :=
  filter (fun r => action_eqb (verdict r) PROCESS) (until_stop verdict recs).

(** Where the scan of [read] starts: at the first record >= tuple, or at
    the first record of the index when no tuple is given. *)
Definition read_start (tuple : option dtuple_t) (recs : list rec_t) : nat :=
  match tuple with
  | Some t => page_cur_ge t recs
  | None => 0
  end.

(** The records [read] wants processed. *)
Definition read_hits (tuple : option dtuple_t) (callback : RecordCallback)
  (recs : list rec_t) : list rec_t :=
  wanted (fun r => compare_record callback tuple r (rec_get_offsets r))
    (skipn (read_start tuple recs) recs).

(** The clustered record a secondary record refers to, if it is there: the
    last clustered record <= the row reference, when it equals it. *)
Definition clustered_of (w : world) (sec_rec : rec_t) : list rec_t :=
  match page_cur_le (row_build_row_ref w sec_rec) (clust_index w) with
  | Some clust_rec =>
      if (cmp_dtuple_rec (row_build_row_ref w sec_rec) clust_rec =? 0)%Z
      then [clust_rec] else []
  | None => []
  end.

(** The clustered records [read_by_index] looks up: one for every
    secondary record the comparator wants processed, where there is
    one. *)
Definition read_by_index_rows (search_tuple : dtuple_t)
  (callback : RecordCallback) (w : world) : list rec_t :=
  flat_map (clustered_of w)
    (wanted (fun r => compare_record callback (Some search_tuple) r
                        (rec_get_offsets r))
       (skipn (page_cur_ge search_tuple (sec_index w)) (sec_index w))).

(** ** select_for_update and replace_record seen from outside *)

(** What [select_for_update] answers after a lock wait, by the answer of
    the wait: only a timeout is reported as such. *)
Definition after_lock_wait (wait : option dberr_t) : dberr_t :=
  match wait with
  | Some wait_err =>
      if wait_err =?e DB_LOCK_WAIT_TIMEOUT then DB_LOCK_WAIT_TIMEOUT
      else DB_LOCK_WAIT
  | None => DB_LOCK_WAIT
  end.

Definition is_compare (ev : event) : bool :=
  match ev with EvCompare _ _ => true | _ => false end.

(** A call of [update_record] announces itself by the X-latch it takes on
    the index, a call of [insert_record] by the insertion. *)
Definition is_update_call (ev : event) : bool :=
  match ev with EvIndexXLock => true | _ => false end.

Definition is_insert (ev : event) : bool :=
  match ev with EvInsert _ => true | _ => false end.

(** How a call of [replace_record] ended. *)
Inductive replace_end : Type :=
| Updated
| Inserted
| GaveUp.

Definition replace_outcome (insert_tuple : dtuple_t) (w w' : world)
  (r : dberr_t) (e : replace_end) : Prop :=
  match e with
  | Updated =>
      count_events is_update_call w' = S (count_events is_update_call w) /\
      count_events is_insert w' = count_events is_insert w /\
      hd_error (trace w') = Some EvMtrCommit
  | Inserted =>
      count_events is_update_call w' = count_events is_update_call w /\
      count_events is_insert w' = S (count_events is_insert w) /\
      hd_error (trace w') = Some (EvInsert insert_tuple)
  | GaveUp =>
      count_events is_update_call w' = count_events is_update_call w /\
      count_events is_insert w' = count_events is_insert w /\
      r <> DB_SUCCESS /\ r <> DB_RECORD_NOT_FOUND /\ r <> DB_LOCK_WAIT
  end.

(** The record [select_for_update] looks at, the first one >= tuple, is
    there, compares equal to the tuple and is not hidden by the read
    view. *)
Definition key_found (tuple : dtuple_t) (w : world) : bool :=
  match nth_error (clust_index w) (page_cur_ge tuple (clust_index w)) with
  | Some rec =>
      tuple_matches tuple rec
      && negb (trx_present w && negb (creator_visible w rec))
  | None => false
  end.

(** ** Reading and waiting *)

(** A call that asks for a lock, waits for one or changes a table. *)
Definition is_write (ev : event) : bool :=
  match ev with
  | EvLock _ _ | EvLockWait _ | EvDelMark _ _ | EvInsert _ | EvTableLock
  | EvIndexXLock | EvUpdateInPlace | EvOptimisticUpdate _
  | EvPessimisticUpdate _ | EvStoreBigRec => true
  | _ => false
  end.

(** Both indexes are as they were, and nothing was locked or written. *)
Definition read_only (w w' : world) : Prop :=
  clust_index w' = clust_index w /\ sec_index w' = sec_index w /\
  count_events is_write w' = count_events is_write w.

(** A lock wait that ended with the lock granted. *)
Definition is_granted_wait (ev : event) : bool :=
  match ev with EvLockWait DB_SUCCESS => true | _ => false end.

(** The lock waits granted between two worlds. *)
Definition granted_waits (w w' : world) : nat :=
  count_events is_granted_wait w' - count_events is_granted_wait w.

(** ** More measures and invariants of the loops *)

(** The trace keeps every delete mark under a lock. *)
Definition locks_first (w : world) : Prop :=
  marks_under_lock (trace w) = true.

(** Since [w0] only delete marks were set, on records selected by [sel]
    that were live, one per successful call of the delete-mark
    primitive. *)
Definition only_marked (sel : rec_t -> bool) (w0 w : world) : Prop :=
  marked_from sel (clust_index w0) (clust_index w) /\
  sec_index w = sec_index w0 /\
  count_events is_marked w0 <= count_events is_marked w /\
  count_deleted (clust_index w) + count_events is_marked w0
  = count_deleted (clust_index w0) + count_events is_marked w.

(** The same during a scan of the clustered index. *)
Definition marking_scan (sel : rec_t -> bool) (w0 w : world) : Prop :=
  only_marked sel w0 w /\ pcur_index w = CLUST.

(** The cursor is bound to the index [i] and stands on the first record of
    [suf], with the records [pre] behind it. *)
Definition at_rec (i : index_id) (pre suf : list rec_t) (w : world) : Prop :=
  pcur_index w = i /\ cursor_recs w = pre ++ suf /\
  pcur_pos w = S (length pre).

(** Every row lock left in the script is granted at once and every delete
    mark left in the script is set. *)
Definition grants (w : world) : Prop :=
  forallb lock_granted (o_lock (engine w)) = true /\
  forallb (fun e => e =?e DB_SUCCESS) (o_delmark (engine w)) = true.

(** Every cursor open left in the script succeeds. *)
Definition opens (w : world) : Prop :=
  forallb (fun e => e =?e DB_SUCCESS) (o_open (engine w)) = true.

(** The tables, the read view and the version builder of [w'] are those of
    [w], and the view is open if there is a transaction. *)
Definition same_view (w w' : world) : Prop :=
  trx_present w' = trx_present w /\ view_is_open w' = trx_present w /\
  changes_visible w' = changes_visible w /\ vers_build w' = vers_build w /\
  clust_index w' = clust_index w /\
  row_build_row_ref w' = row_build_row_ref w.

(** The mini-transaction starts of [w'] are those of [w], and [k] more lock
    waits were granted. *)
Definition waits_more (w w' : world) (k : nat) : Prop :=
  mtr_starts w' = mtr_starts w /\
  count_events is_granted_wait w'
  = k + count_events is_granted_wait w.



(** ** More concrete worlds *)

(** A row with key 2 whose lock request is answered with DB_LOCK_WAIT; the
    wait that follows is granted. *)
Definition lock_wait_world : world :=
  table_world [row 2 false 0]
    (set_o_wait [Some DB_SUCCESS] (set_o_lock [DB_LOCK_WAIT] quiet_engine)).

(** One row with key 2; the lock manager answers the lock request with
    DB_LOCK_WAIT and the wait ends with [wait_err]. *)
Definition refused_wait_world (wait_err : dberr_t) : world :=
  table_world [row 2 false 0]
    (set_o_wait [Some wait_err] (set_o_lock [DB_LOCK_WAIT] quiet_engine)).

(** An entry of a secondary index on the second column of [row]: that
    column, then the key of the row. *)
Definition sec_row (k : Z) : rec_t :=
  mk_rec [mk_dfield (10 * k) 8; mk_dfield k 4] false 0%Z false.

Arguments sec_row k%_Z.

(** The rows of [tombstone_world] with a secondary index that still has an
    entry for each of them and one, for key 4, without a row. *)
Definition indexed_world : world :=
  mk_world [row 1 false 0; row 2 true 0; row 3 false 0]
    [sec_row 1; sec_row 2; sec_row 3; sec_row 4]
    CLUST 0 true false (fun _ => true)
    (fun _ => (DB_SUCCESS, None)) (fun r => skipn 1 (rec_fields r))
    DB_SUCCESS QUE_THR_LOCK_NOLOCK quiet_engine [].

(** * Properties *)

Lemma dberr_eqb_eq (a b : dberr_t) : (a =?e b) = true <-> a = b.
Proof. unfold dberr_eqb. destruct (dberr_eq_dec a b); split; congruence. Qed.

Lemma dberr_eqb_neq (a b : dberr_t) : (a =?e b) = false <-> a <> b.
Proof. unfold dberr_eqb. destruct (dberr_eq_dec a b); split; congruence. Qed.

Lemma dberr_eqb_refl (a : dberr_t) : (a =?e a) = true.
Proof. apply dberr_eqb_eq. reflexivity. Qed.

Lemma is_error_false (e : dberr_t) : is_error e = false <-> e = DB_SUCCESS.
Proof.
  unfold is_error. rewrite negb_false_iff. apply dberr_eqb_eq.
Qed.

Lemma is_error_true (e : dberr_t) : is_error e = true <-> e <> DB_SUCCESS.
Proof.
  unfold is_error. rewrite negb_true_iff. apply dberr_eqb_neq.
Qed.

(** ** handle_wait *)

(** C4.  [handle_wait err table_lock] first stores [err] in the
    transaction's [error_state] and classifies the thread's lock wait as a
    table or a row wait; these are the two oldest events of the call.  With
    a wait request outstanding it then calls [lock_wait] once: a granted
    wait resets the thread's lock state and gives DB_SUCCESS, a timed-out
    wait gives DB_LOCK_WAIT_TIMEOUT, any other result gives [err] back.
    Without an outstanding request it does not wait, returns [err] and
    leaves [err] in [error_state]. *)
Theorem handle_wait_outcome (err : dberr_t) (table_lock : bool) (w : world) :
  let st := if table_lock then QUE_THR_LOCK_TABLE else QUE_THR_LOCK_ROW in
  let r := fst (handle_wait err table_lock w) in
  let w' := snd (handle_wait err table_lock w) in
  (exists later,
      trace w'
      = later ++ EvSetLockState st :: EvSetErrorState err :: trace w) /\
  match pending_wait w with
  | Some wait_err =>
      count_events is_lock_wait w' = S (count_events is_lock_wait w) /\
      if wait_err =?e DB_SUCCESS then
        r = DB_SUCCESS /\ lock_state w' = QUE_THR_LOCK_NOLOCK
      else
        lock_state w' = st /\
        if wait_err =?e DB_LOCK_WAIT_TIMEOUT then r = DB_LOCK_WAIT_TIMEOUT
        else r = err
  | None =>
      r = err /\ lock_state w' = st /\ error_state w' = err /\
      count_events is_lock_wait w' = count_events is_lock_wait w
  end.
Proof.
  intros st r w'. subst r w'. unfold handle_wait, lock_wait, pending_wait.
  fold st. cbn [engine set_lock_state set_error_state log].
  destruct (next_answer None (o_wait (engine w))) as [wait_err|].
  - destruct (wait_err =?e DB_SUCCESS) eqn:Hs.
    + cbn. repeat split; auto.
      exists [EvSetLockState QUE_THR_LOCK_NOLOCK; EvLockWait wait_err;
              EvWaitThr true].
      reflexivity.
    + cbn. repeat split; auto.
      * exists [EvLockWait wait_err; EvWaitThr true]. reflexivity.
      * destruct (wait_err =?e DB_LOCK_WAIT_TIMEOUT) eqn:Ht; auto.
        apply dberr_eqb_eq in Ht. auto.
  - cbn. repeat split; auto. exists [EvWaitThr false]. reflexivity.
Qed.

(** ** process_record_with_mvcc *)














(** ** Loops: invariants and termination *)

Lemma loop_total {St Res : Type} (body : St -> option (Res + St))
  (I : St -> Prop) (m : St -> nat) :
  (forall s, I s ->
     exists o, body s = Some o /\
       match o with inl _ => True | inr s' => I s' /\ m s' < m s end) ->
  forall fuel s, I s -> m s < fuel -> exists r, loop body fuel s = Some r.
Proof.
  intros Hbody. induction fuel as [|fuel IH]; intros s Hs Hm; [lia|].
  destruct (Hbody s Hs) as [o [Ho Hstep]]. cbn [loop]. rewrite Ho.
  destruct o as [r|s']; [eauto|]. destruct Hstep as [Hs' Hm'].
  apply IH; [assumption|lia].
Qed.

Lemma loop_post {St Res : Type} (body : St -> option (Res + St))
  (I : St -> Prop) (Q : Res -> Prop) :
  (forall s, I s ->
     match body s with
     | Some (inl r) => Q r
     | Some (inr s') => I s'
     | None => True
     end) ->
  forall fuel s r, I s -> loop body fuel s = Some r -> Q r.
Proof.
  intros Hbody. induction fuel as [|fuel IH]; intros s r Hs Hr;
    [discriminate|].
  cbn [loop] in Hr. specialize (Hbody s Hs).
  destruct (body s) as [[r'|s']|]; try discriminate.
  - inversion Hr; subst. assumption.
  - exact (IH s' r Hbody Hr).
Qed.

(** Symbolic execution of a loop body: split on the innermost test, then
    simplify the record projections. *)
Ltac break_inner :=
  match goal with
  | |- context [match ?x with _ => _ end] =>
      lazymatch x with
      | context [match _ with _ => _ end] => fail
      | _ => destruct x eqn:?
      end
  end.

Ltac wsimpl := cbn -[Nat.sub Nat.ltb Nat.leb Nat.add] in *.

Ltac exec0 := repeat (break_inner; wsimpl; try exact I); try congruence.

Ltac unfold_prims :=
  unfold btr_pcur_move_to_next, btr_pcur_is_after_last,
    lock_clust_rec_read_check_and_lock, btr_cur_del_mark_set_clust_rec,
    btr_pcur_get_user_rec,
    btr_pcur_open_on_user_rec, open_leaf, mtr_commit, mtr_start,
    ensure_read_view, read_view_do_open, trx_start_if_not_started,
    err_exit, cursor_recs in *.

Ltac unfold_mvcc :=
  unfold lookup_clustered_record, btr_pcur_open_le, process_record_with_mvcc,
    call_process_record, row_vers_build_for_consistent_read in *.

Ltac ltb_facts :=
  repeat match goal with
    | H : (_ <? _) = false |- _ => apply Nat.ltb_ge in H
    | H : (_ <? _) = true |- _ => apply Nat.ltb_lt in H
    end.

Lemma del_mark_nth_length (pos : nat) (recs : list rec_t) :
  length (del_mark_nth pos recs) = length recs.
Proof.
  revert pos. induction recs as [|r recs IH]; intros [|pos]; cbn; auto.
Qed.

Lemma next_answer_lock_wait (l : list dberr_t) :
  (next_answer DB_SUCCESS l =?e DB_LOCK_WAIT) = true ->
  length (tl l) < length l.
Proof. destruct l; cbn; [discriminate|lia]. Qed.

Lemma length_tl_le {A : Type} (l : list A) : length (tl l) <= length l.
Proof. destruct l; cbn; lia. Qed.

Ltac frame_rewrite :=
  repeat match goal with
    | H : ?proj ?w = _ |- _ =>
        is_var w;
        lazymatch proj with
        | clust_index => idtac
        | sec_index => idtac
        | pcur_index => idtac
        | pcur_pos => idtac
        | engine => idtac
        end;
        try rewrite H in *; clear H
    | H : o_lock (engine ?w) = _ |- _ =>
        is_var w; try rewrite H in *; clear H
    end.

Lemma next_answer_lock_wait_eq (l : list dberr_t) :
  next_answer DB_SUCCESS l = DB_LOCK_WAIT -> length (tl l) < length l.
Proof. destruct l; cbn; [discriminate|lia]. Qed.

Ltac frame_facts :=
  repeat match goal with
    | H : (next_answer DB_SUCCESS ?l =?e DB_LOCK_WAIT) = true |- _ =>
        apply next_answer_lock_wait in H
    | H : next_answer DB_SUCCESS ?l = DB_LOCK_WAIT |- _ =>
        apply next_answer_lock_wait_eq in H
    | |- context [length (tl ?l)] =>
        lazymatch goal with
        | _ : length (tl l) <= length l |- _ => fail
        | _ => pose proof (length_tl_le l)
        end
    | _ : context [length (tl ?l)] |- _ =>
        lazymatch goal with
        | _ : length (tl l) <= length l |- _ => fail
        | _ => pose proof (length_tl_le l)
        end
    end.

Ltac frame_solve :=
  unfold mtr_delta, same_place, lock_script_len, script_len, mtr_starts,
    mtr_commits, count_events in *;
  wsimpl; frame_rewrite; wsimpl; rewrite ?del_mark_nth_length in *; ltb_facts;
  repeat split; intros; frame_facts; try congruence; try lia.

(** What [handle_wait], MVCC resolution and the clustered lookup leave
    untouched. *)
Lemma handle_wait_frame (err : dberr_t) (table_lock : bool) (w : world) :
  let w' := snd (handle_wait err table_lock w) in
  same_place w w' /\ o_lock (engine w') = o_lock (engine w) /\
  length (o_open (engine w')) <= length (o_open (engine w)) /\
  mtr_delta w w' 0 0.
Proof.
  unfold handle_wait, pending_wait, lock_wait. exec0; frame_solve.
Qed.

Lemma mvcc_frame (rec : rec_t) (offsets : rec_offs)
  (callback : RecordCallback) (c : bool) (w : world) :
  let w' := snd (process_record_with_mvcc rec offsets callback c w) in
  same_place w w' /\ o_lock (engine w') = o_lock (engine w) /\
  length (o_open (engine w')) <= length (o_open (engine w)) /\
  mtr_delta w w' 0 0.
Proof.
  unfold_mvcc. exec0; frame_solve.
Qed.

Lemma lookup_frame (sec_rec : rec_t) (callback : RecordCallback) (n : nat)
  (c : bool) (w : world) :
  let w' := snd (lookup_clustered_record sec_rec callback n c w) in
  same_place w w' /\ o_lock (engine w') = o_lock (engine w) /\
  length (o_open (engine w')) <= length (o_open (engine w)) /\
  mtr_delta w w' 0 0.
Proof.
  unfold lookup_clustered_record, btr_pcur_open_le. cbv zeta.
  destruct (next_answer DB_SUCCESS (o_open (engine (log EvSavepoint w)))
            =?e DB_SUCCESS); [|frame_solve].
  destruct (page_cur_le _ _) as [clust_rec|]; [|frame_solve].
  destruct (cmp_dtuple_rec _ clust_rec =? 0)%Z; [|frame_solve].
  match goal with |- context [process_record_with_mvcc ?r ?o ?cb ?k ?x] =>
    pose proof (mvcc_frame r o cb k x) as F;
    destruct (process_record_with_mvcc r o cb k x) as [[e c'] w3]
  end.
  cbn [snd] in F. destruct F as [[F1 [F2 [F3 F4]]] [F5 [F8 [F6 F7]]]].
  destruct (negb (e =?e DB_SUCCESS)); frame_solve.
Qed.

Ltac use_frames :=
  match goal with
  | |- context [handle_wait ?e ?t ?x] =>
      let F := fresh "F" in
      pose proof (handle_wait_frame e t x) as F;
      destruct (handle_wait e t x) as [? ?];
      cbn [snd] in F;
      destruct F as [[?F [?F [?F ?F]]] [?F [?F [?F ?F]]]]
  | |- context [process_record_with_mvcc ?r ?o ?cb ?k ?x] =>
      let F := fresh "F" in
      pose proof (mvcc_frame r o cb k x) as F;
      destruct (process_record_with_mvcc r o cb k x) as [[? ?] ?];
      cbn [snd] in F;
      destruct F as [[?F [?F [?F ?F]]] [?F [?F [?F ?F]]]]
  | |- context [lookup_clustered_record ?r ?cb ?n ?k ?x] =>
      let F := fresh "F" in
      pose proof (lookup_frame r cb n k x) as F;
      destruct (lookup_clustered_record r cb n k x) as [[[? ?] ?] ?];
      cbn [snd] in F;
      destruct F as [[?F [?F [?F ?F]]] [?F [?F [?F ?F]]]]
  end.

Ltac exec :=
  repeat (first [use_frames | break_inner]; wsimpl; try exact I);
  try congruence.

(** What one round of each scan does to the cursor, the lock script and
    the mini-transaction. *)
Lemma delete_body_frame (tuple : dtuple_t) (s : delete_state) :
  match delete_body tuple s with
  | inl (ctl, _, w') =>
      lock_script_len w' <= lock_script_len (snd s) /\
      (ctl = DelRetry -> lock_script_len w' < lock_script_len (snd s)) /\
      mtr_delta (snd s) w' 0
        (match ctl with DelFuncExit _ => 0 | _ => 1 end)
  | inr (_, _, w') =>
      cursor_room w' < cursor_room (snd s) /\
      lock_script_len w' <= lock_script_len (snd s) /\
      mtr_delta (snd s) w' 0 0
  end.
Proof.
  destruct s as [[err n] w]. unfold delete_body, delete_next_rec, cursor_room.
  unfold_prims. exec; frame_solve.
Qed.

Lemma delete_all_body_frame (s : dberr_t * world) :
  match delete_all_body s with
  | inl (ctl, w') =>
      lock_script_len w' <= lock_script_len (snd s) /\
      (ctl = DelAllRetry -> lock_script_len w' < lock_script_len (snd s)) /\
      mtr_delta (snd s) w' 0
        (match ctl with DelAllExit _ => 0 | _ => 1 end)
  | inr (_, w') =>
      cursor_room w' < cursor_room (snd s) /\
      lock_script_len w' <= lock_script_len (snd s) /\
      mtr_delta (snd s) w' 0 0
  end.
Proof.
  destruct s as [err w].
  unfold delete_all_body, delete_all_next_rec, cursor_room.
  unfold_prims. exec; frame_solve.
Qed.

Lemma read_body_frame (tuple : option dtuple_t) (callback : RecordCallback)
  (s : nat * world) :
  match read_body tuple callback s with
  | inl (ctl, _, w') =>
      lock_script_len w' = lock_script_len (snd s) /\
      mtr_delta (snd s) w' 0
        (match ctl with ReadLoopEnd => 0 | ReadReturn _ => 1 end)
  | inr (_, w') =>
      cursor_room w' < cursor_room (snd s) /\
      lock_script_len w' = lock_script_len (snd s) /\
      mtr_delta (snd s) w' 0 0
  end.
Proof.
  destruct s as [n w]. unfold read_body, read_next_rec, cursor_room.
  unfold_prims. exec; frame_solve.
Qed.

Lemma read_by_index_body_frame (search_tuple : dtuple_t)
  (callback : RecordCallback) (s : nat * world) :
  match read_by_index_body search_tuple callback s with
  | inl (ctl, _, w') =>
      lock_script_len w' = lock_script_len (snd s) /\
      mtr_delta (snd s) w' 0
        (match ctl with ReadLoopEnd => 0 | ReadReturn _ => 1 end)
  | inr (_, w') =>
      cursor_room w' < cursor_room (snd s) /\
      lock_script_len w' = lock_script_len (snd s) /\
      mtr_delta (snd s) w' 0 0
  end.
Proof.
  destruct s as [n w]. unfold read_by_index_body, read_next_rec, cursor_room.
  unfold_prims. exec; frame_solve.
Qed.

Lemma loop_total_post {St Res : Type} (body : St -> option (Res + St))
  (I : St -> Prop) (Q : Res -> Prop) (m : St -> nat) :
  (forall s, I s ->
     exists o, body s = Some o /\
       match o with inl r => Q r | inr s' => I s' /\ m s' < m s end) ->
  forall fuel s, I s -> m s < fuel ->
  exists r, loop body fuel s = Some r /\ Q r.
Proof.
  intros Hbody. induction fuel as [|fuel IH]; intros s Hs Hm; [lia|].
  destruct (Hbody s Hs) as [o [Ho Hstep]]. cbn [loop]. rewrite Ho.
  destruct o as [r|s']; [eauto|]. destruct Hstep as [Hs' Hm'].
  apply IH; [assumption|lia].
Qed.

(** The scans terminate, and what they do to the lock script and to the
    mini-transaction. *)
Lemma delete_scan_frame (fuel : nat) (tuple : dtuple_t) (err : dberr_t)
  (n : nat) (w : world) :
  cursor_room w < fuel ->
  exists ctl n' w',
    delete_scan fuel tuple err n w = Some (ctl, n', w') /\
    lock_script_len w' <= lock_script_len w /\
    (ctl = DelRetry -> lock_script_len w' < lock_script_len w) /\
    mtr_delta w w' 0 (match ctl with DelFuncExit _ => 0 | _ => 1 end).
Proof.
  intros Hfuel. unfold delete_scan.
  destruct (loop_total_post (fun s => Some (delete_body tuple s))
    (fun s => lock_script_len (snd s) <= lock_script_len w /\
              mtr_delta w (snd s) 0 0)
    (fun r => let '(ctl, _, w') := r in
       lock_script_len w' <= lock_script_len w /\
       (ctl = DelRetry -> lock_script_len w' < lock_script_len w) /\
       mtr_delta w w' 0 (match ctl with DelFuncExit _ => 0 | _ => 1 end))
    (fun s => cursor_room (snd s))) with (fuel := fuel) (s := (err, n, w))
    as [[[ctl n'] w'] [Hr Hq]].
  - intros s [HL HM]. eexists; split; [reflexivity|].
    pose proof (delete_body_frame tuple s) as F.
    destruct (delete_body tuple s) as [[[ctl n'] w']|[[e n'] w']];
      unfold mtr_delta in *; cbn [snd] in *.
    + destruct F as [F1 [F2 [F3 F4]]]. repeat split; try lia.
      intros Hc. specialize (F2 Hc). lia.
    + destruct F as [F1 [F2 [F3 F4]]]. repeat split; lia.
  - cbn [snd]. unfold mtr_delta. repeat split; lia.
  - exact Hfuel.
  - exists ctl, n', w'. split; [exact Hr|exact Hq].
Qed.

Lemma delete_all_scan_frame (fuel : nat) (err : dberr_t) (w : world) :
  cursor_room w < fuel ->
  exists ctl w',
    delete_all_scan fuel err w = Some (ctl, w') /\
    lock_script_len w' <= lock_script_len w /\
    (ctl = DelAllRetry -> lock_script_len w' < lock_script_len w) /\
    mtr_delta w w' 0 (match ctl with DelAllExit _ => 0 | _ => 1 end).
Proof.
  intros Hfuel. unfold delete_all_scan.
  destruct (loop_total_post (fun s => Some (delete_all_body s))
    (fun s => lock_script_len (snd s) <= lock_script_len w /\
              mtr_delta w (snd s) 0 0)
    (fun r => let '(ctl, w') := r in
       lock_script_len w' <= lock_script_len w /\
       (ctl = DelAllRetry -> lock_script_len w' < lock_script_len w) /\
       mtr_delta w w' 0 (match ctl with DelAllExit _ => 0 | _ => 1 end))
    (fun s => cursor_room (snd s))) with (fuel := fuel) (s := (err, w))
    as [[ctl w'] [Hr Hq]].
  - intros s [HL HM]. eexists; split; [reflexivity|].
    pose proof (delete_all_body_frame s) as F.
    destruct (delete_all_body s) as [[ctl w']|[e w']];
      unfold mtr_delta in *; cbn [snd] in *.
    + destruct F as [F1 [F2 [F3 F4]]]. repeat split; try lia.
      intros Hc. specialize (F2 Hc). lia.
    + destruct F as [F1 [F2 [F3 F4]]]. repeat split; lia.
  - cbn [snd]. unfold mtr_delta. repeat split; lia.
  - exact Hfuel.
  - exists ctl, w'. split; [exact Hr|exact Hq].
Qed.

Lemma read_scan_frame (fuel : nat) (tuple : option dtuple_t)
  (callback : RecordCallback) (n : nat) (w : world) :
  cursor_room w < fuel ->
  exists ctl n' w',
    read_scan fuel tuple callback n w = Some (ctl, n', w') /\
    lock_script_len w' = lock_script_len w /\
    mtr_delta w w' 0 (match ctl with ReadLoopEnd => 0 | ReadReturn _ => 1 end).
Proof.
  intros Hfuel. unfold read_scan.
  destruct (loop_total_post (fun s => Some (read_body tuple callback s))
    (fun s => lock_script_len (snd s) = lock_script_len w /\
              mtr_delta w (snd s) 0 0)
    (fun r => let '(ctl, _, w') := r in
       lock_script_len w' = lock_script_len w /\
       mtr_delta w w' 0
         (match ctl with ReadLoopEnd => 0 | ReadReturn _ => 1 end))
    (fun s => cursor_room (snd s))) with (fuel := fuel) (s := (n, w))
    as [[[ctl n'] w'] [Hr Hq]].
  - intros s [HL HM]. eexists; split; [reflexivity|].
    pose proof (read_body_frame tuple callback s) as F.
    destruct (read_body tuple callback s) as [[[ctl n'] w']|[n' w']];
      unfold mtr_delta in *; cbn [snd] in *.
    + destruct F as [F1 [F3 F4]]. repeat split; lia.
    + destruct F as [F1 [F2 [F3 F4]]]. repeat split; lia.
  - cbn [snd]. unfold mtr_delta. repeat split; lia.
  - exact Hfuel.
  - exists ctl, n', w'. split; [exact Hr|exact Hq].
Qed.

Lemma read_by_index_scan_frame (fuel : nat) (search_tuple : dtuple_t)
  (callback : RecordCallback) (n : nat) (w : world) :
  cursor_room w < fuel ->
  exists ctl n' w',
    read_by_index_scan fuel search_tuple callback n w = Some (ctl, n', w') /\
    lock_script_len w' = lock_script_len w /\
    mtr_delta w w' 0 (match ctl with ReadLoopEnd => 0 | ReadReturn _ => 1 end).
Proof.
  intros Hfuel. unfold read_by_index_scan.
  destruct (loop_total_post
    (fun s => Some (read_by_index_body search_tuple callback s))
    (fun s => lock_script_len (snd s) = lock_script_len w /\
              mtr_delta w (snd s) 0 0)
    (fun r => let '(ctl, _, w') := r in
       lock_script_len w' = lock_script_len w /\
       mtr_delta w w' 0
         (match ctl with ReadLoopEnd => 0 | ReadReturn _ => 1 end))
    (fun s => cursor_room (snd s))) with (fuel := fuel) (s := (n, w))
    as [[[ctl n'] w'] [Hr Hq]].
  - intros s [HL HM]. eexists; split; [reflexivity|].
    pose proof (read_by_index_body_frame search_tuple callback s) as F.
    destruct (read_by_index_body search_tuple callback s)
      as [[[ctl n'] w']|[n' w']];
      unfold mtr_delta in *; cbn [snd] in *.
    + destruct F as [F1 [F3 F4]]. repeat split; lia.
    + destruct F as [F1 [F2 [F3 F4]]]. repeat split; lia.
  - cbn [snd]. unfold mtr_delta. repeat split; lia.
  - exact Hfuel.
  - exists ctl, n', w'. split; [exact Hr|exact Hq].
Qed.

Lemma scan_fuel_enough (w : world) : cursor_room w < scan_fuel w.
Proof. unfold cursor_room, scan_fuel. lia. Qed.

(** ** Every operation returns, and what it does to the mini-transaction *)

Ltac retry_lia :=
  intros;
  try match goal with
    | H2 : ?c = ?c' -> _, Hc : ?c = ?c' |- _ => specialize (H2 Hc)
    end;
  lia.

Lemma delete_attempt_frame (tuple : dtuple_t) (n : nat) (w : world) :
  exists ctl n' w',
    delete_attempt tuple n w = Some (ctl, n', w') /\
    lock_script_len w' <= lock_script_len w /\
    (ctl = DelRetry -> lock_script_len w' < lock_script_len w) /\
    mtr_delta w w' 1 (match ctl with DelFuncExit _ => 0 | _ => 1 end).
Proof.
  unfold delete_attempt.
  destruct (btr_pcur_open_on_user_rec tuple
              (set_pcur_index CLUST (mtr_start w))) as [err w3] eqn:Hopen.
  assert (Hw3 : lock_script_len w3 = lock_script_len w /\ mtr_delta w w3 1 0).
  { revert Hopen. unfold_prims. exec0; intros Hopen; inversion Hopen; subst;
      frame_solve. }
  destruct Hw3 as [HL HM].
  destruct (negb (err =?e DB_SUCCESS)).
  - exists (DelFuncExit err), n, w3. repeat split; try lia; try discriminate;
      apply HM.
  - destruct (delete_scan_frame _ tuple err n w3 (scan_fuel_enough w3))
      as [ctl [n' [w' [Hs [H1 [H2 H3]]]]]].
    exists ctl, n', w'. unfold mtr_delta in *.
    repeat split; first [assumption | retry_lia].
Qed.

Lemma delete_record_full_frame (tuple : dtuple_t) (w : world) :
  exists r n e w',
    delete_record_full tuple w = Some (r, n, e, w') /\ mtr_balanced w w'.
Proof.
  unfold delete_record_full, delete_record_loop.
  destruct (loop_total_post (delete_record_body tuple)
    (fun s => mtr_balanced w (snd s))
    (fun r => let '(_, _, _, w') := r in mtr_balanced w w')
    (fun s => lock_script_len (snd s))) with (fuel := retry_fuel w)
    (s := (0, w)) as [[[[r n] e] w'] [Hr Hq]].
  - intros [n ws] [k [HS HC]]. cbn [snd] in *. unfold delete_record_body.
    destruct (delete_attempt_frame tuple n ws)
      as [ctl [n' [w' [Ha [H1 [H2 [H3 H4]]]]]]].
    rewrite Ha. destruct ctl as [err|err|].
    + destruct (is_error err); eexists; (split; [reflexivity|]);
        exists (S k); unfold mtr_delta; frame_solve.
    + eexists; split; [reflexivity|]. exists (S k).
      unfold mtr_delta; frame_solve.
    + eexists; split; [reflexivity|]. cbn [snd]. split.
      * exists (S k). unfold mtr_delta; frame_solve.
      * apply H2. reflexivity.
  - exists 0. unfold mtr_delta. cbn [snd]. lia.
  - unfold retry_fuel, lock_script_len. cbn [snd]. lia.
  - exists r, n, e, w'. split; assumption.
Qed.

Lemma delete_all_attempt_frame (w : world) :
  exists ctl w',
    delete_all_attempt w = Some (ctl, w') /\
    lock_script_len w' <= lock_script_len w /\
    (ctl = DelAllRetry -> lock_script_len w' < lock_script_len w) /\
    mtr_delta w w' 1 (match ctl with DelAllExit _ => 0 | _ => 1 end).
Proof.
  unfold delete_all_attempt.
  destruct (open_leaf CLUST (mtr_start w)) as [err w3] eqn:Hopen.
  assert (Hw3 : lock_script_len w3 = lock_script_len w /\ mtr_delta w w3 1 0).
  { revert Hopen. unfold_prims. exec0; intros Hopen; inversion Hopen; subst;
      frame_solve. }
  destruct Hw3 as [HL HM].
  destruct (negb (err =?e DB_SUCCESS)).
  - exists (DelAllReturn err), (mtr_commit w3).
    repeat split; try discriminate; frame_solve.
  - destruct (btr_pcur_move_to_next w3) as [moved w4] eqn:Hmove.
    assert (Hw4 : lock_script_len w4 = lock_script_len w3 /\
                  mtr_delta w3 w4 0 0).
    { revert Hmove. unfold_prims. exec0; intros Hmove; inversion Hmove; subst;
        frame_solve. }
    destruct Hw4 as [HL4 HM4]. destruct moved; cbn [negb].
    + destruct (delete_all_scan_frame _ err w4 (scan_fuel_enough w4))
        as [ctl [w' [Hs [H1 [H2 H3]]]]].
      exists ctl, w'. unfold mtr_delta in *.
      repeat split; first [assumption | retry_lia].
    + exists (DelAllReturn err), (mtr_commit w4).
      repeat split; try discriminate; frame_solve.
Qed.

Lemma delete_all_frame (w : world) :
  exists r w', delete_all w = Some (r, w') /\ mtr_balanced w w'.
Proof.
  unfold delete_all, delete_all_loop.
  destruct (loop_total_post delete_all_retry_body
    (fun s => mtr_balanced w s)
    (fun r => mtr_balanced w (snd r))
    (fun s => lock_script_len s)) with (fuel := retry_fuel w)
    (s := w) as [[r w'] [Hr Hq]].
  - intros ws [k [HS HC]]. unfold delete_all_retry_body.
    destruct (delete_all_attempt_frame ws) as [ctl [w' [Ha [H1 [H2 [H3 H4]]]]]].
    rewrite Ha. destruct ctl as [err|err|].
    + eexists; split; [reflexivity|]. exists (S k).
      unfold mtr_delta; frame_solve.
    + eexists; split; [reflexivity|]. exists (S k).
      unfold mtr_delta; frame_solve.
    + eexists; split; [reflexivity|]. split.
      * exists (S k). unfold mtr_delta; frame_solve.
      * apply H2. reflexivity.
  - exists 0. unfold mtr_delta. lia.
  - unfold retry_fuel, lock_script_len. lia.
  - exists r, w'. split; assumption.
Qed.

Lemma select_for_update_frame (search_tuple : dtuple_t)
  (callback : option RecordCallback) (w : world) :
  let r := fst (select_for_update search_tuple callback w) in
  let w' := snd (select_for_update search_tuple callback w) in
  script_len w' <= script_len w /\
  (r = DB_LOCK_WAIT -> script_len w' < script_len w) /\
  mtr_delta w w' 1 (if r =?e DB_SUCCESS then 0 else 1).
Proof.
  unfold select_for_update. unfold_prims. exec; frame_solve.
Qed.

Lemma update_record_frame (update : upd_t) (w : world) :
  mtr_delta w (snd (update_record update w)) 0 0.
Proof.
  unfold update_record, btr_cur_update_in_place, btr_cur_optimistic_update,
    btr_cur_pessimistic_update, btr_store_big_rec_extern_fields.
  destruct (upd_size_scan update (pcur_rec_offsets w) _ _) as [cmpl_info err].
  exec0; frame_solve.
Qed.

Lemma insert_record_frame (tuple : dtuple_t) (w : world) :
  mtr_delta w (snd (insert_record tuple w)) 0 0.
Proof. unfold insert_record. frame_solve. Qed.

Lemma lock_table_frame (w : world) : mtr_delta w (snd (lock_table w)) 0 0.
Proof. unfold lock_table, trx_start_if_not_started. frame_solve. Qed.

Lemma replace_record_frame (search_tuple : dtuple_t) (update : upd_t)
  (insert_tuple : dtuple_t) (w : world) :
  exists r w',
    replace_record search_tuple update insert_tuple w = Some (r, w') /\
    mtr_balanced w w'.
Proof.
  unfold replace_record, replace_record_loop.
  destruct (loop_total_post
    (replace_record_body search_tuple update insert_tuple)
    (fun s => mtr_balanced w s)
    (fun r => mtr_balanced w (snd r))
    (fun s => script_len s)) with (fuel := replace_fuel w)
    (s := w) as [[r w'] [Hr Hq]].
  - intros ws [k [HS HC]]. unfold replace_record_body.
    pose proof (select_for_update_frame search_tuple None ws) as F.
    destruct (select_for_update search_tuple None ws) as [err w1].
    cbn [fst snd] in F. destruct F as [F1 [F2 [F3 F4]]].
    destruct (err =?e DB_SUCCESS) eqn:E1.
    + pose proof (update_record_frame update w1) as [U1 U2].
      destruct (update_record update w1) as [err1 w2]. cbn [snd] in *.
      eexists; split; [reflexivity|]. exists (S k).
      unfold mtr_delta; frame_solve.
    + destruct (err =?e DB_RECORD_NOT_FOUND) eqn:E2.
      * pose proof (insert_record_frame insert_tuple w1) as [U1 U2].
        eexists; split; [reflexivity|]. exists (S k).
        unfold mtr_delta; frame_solve.
      * destruct (err =?e DB_LOCK_WAIT) eqn:E3.
        -- apply dberr_eqb_eq in E3. eexists; split; [reflexivity|]. split.
           ++ exists (S k). unfold mtr_delta; frame_solve.
           ++ apply F2. exact E3.
        -- eexists; split; [reflexivity|]. exists (S k).
           unfold mtr_delta; frame_solve.
  - exists 0. unfold mtr_delta. lia.
  - unfold replace_fuel, script_len. lia.
  - exists r, w'. split; assumption.
Qed.

Lemma read_full_frame (tuple : option dtuple_t) (callback : RecordCallback)
  (w : world) :
  exists r n e w',
    read_full tuple callback w = Some (r, n, e, w') /\ mtr_delta w w' 1 1.
Proof.
  assert (Hscan : forall w0, mtr_delta w w0 1 0 ->
    exists r n e w',
      read_finish tuple (read_scan (scan_fuel w0) tuple callback 0 w0)
      = Some (r, n, e, w') /\ mtr_delta w w' 1 1).
  { intros w0 H0.
    destruct (read_scan_frame _ tuple callback 0 w0 (scan_fuel_enough w0))
      as [ctl [n' [w' [Hs [H1 H2]]]]].
    rewrite Hs. destruct ctl; cbn [read_finish];
      do 4 eexists; (split; [reflexivity|]); frame_solve. }
  unfold read_full. destruct tuple as [t|].
  - destruct (btr_pcur_open_on_user_rec t _) as [err w4] eqn:Hopen.
    assert (H4 : mtr_delta w w4 1 0).
    { revert Hopen. unfold_prims. exec0; intros Hopen; inversion Hopen; subst;
        frame_solve. }
    destruct (negb (err =?e DB_SUCCESS)).
    + do 4 eexists. split; [reflexivity|]. frame_solve.
    + apply Hscan. exact H4.
  - destruct (open_leaf _ _) as [err w4] eqn:Hopen.
    assert (H4 : mtr_delta w w4 1 0).
    { revert Hopen. unfold_prims. exec0; intros Hopen; inversion Hopen; subst;
        frame_solve. }
    destruct (negb (err =?e DB_SUCCESS)).
    + do 4 eexists. split; [reflexivity|]. frame_solve.
    + destruct (btr_pcur_move_to_next w4) as [moved w5] eqn:Hmove.
      assert (H5 : mtr_delta w w5 1 0).
      { revert Hmove. unfold_prims. exec0; intros Hmove; inversion Hmove;
          subst; frame_solve. }
      destruct moved; cbn [negb].
      * apply Hscan. exact H5.
      * do 4 eexists. split; [reflexivity|]. frame_solve.
Qed.

Lemma read_by_index_frame (search_tuple : dtuple_t)
  (callback : RecordCallback) (w : world) :
  exists r w',
    read_by_index search_tuple callback w = Some (r, w') /\
    mtr_delta w w' 1 1.
Proof.
  unfold read_by_index.
  destruct (btr_pcur_open_on_user_rec search_tuple _) as [err w4] eqn:Hopen.
  assert (H4 : mtr_delta w w4 1 0).
  { revert Hopen. unfold_prims. exec0; intros Hopen; inversion Hopen; subst;
      frame_solve. }
  destruct (negb (err =?e DB_SUCCESS)).
  - do 2 eexists. split; [reflexivity|]. frame_solve.
  - destruct (read_by_index_scan_frame _ search_tuple callback 0 w4
                (scan_fuel_enough w4)) as [ctl [n' [w' [Hs [H1 H2]]]]].
    rewrite Hs. destruct ctl; cbn [read_by_index_finish];
      do 2 eexists; (split; [reflexivity|]); frame_solve.
Qed.

Lemma mtr_balanced_counts (w w' : world) :
  mtr_balanced w w' ->
  mtr_starts w <= mtr_starts w' /\ mtr_commits w <= mtr_commits w' /\
  mtr_started w w' = mtr_committed w w'.
Proof.
  intros [k [HS HC]]. unfold mtr_started, mtr_committed. lia.
Qed.

Lemma mtr_delta_counts (w w' : world) (ds dc : nat) :
  mtr_delta w w' ds dc ->
  mtr_starts w <= mtr_starts w' /\ mtr_commits w <= mtr_commits w' /\
  mtr_started w w' = ds /\ mtr_committed w w' = dc.
Proof.
  intros [HS HC]. unfold mtr_started, mtr_committed. lia.
Qed.

(** C8 (as amended).  Every public operation returns, and on every return
    path the mini-transactions it started are as many as those it
    committed, with one exception: [select_for_update] returning DB_SUCCESS
    has started one mini-transaction and left it open for the caller. *)
Theorem mtr_hygiene (op : operation) (w : world) :
  exists r w',
    run op w = Some (r, w') /\
    mtr_starts w <= mtr_starts w' /\ mtr_commits w <= mtr_commits w' /\
    mtr_started w w'
    = mtr_committed w w' + (if leaves_mtr_open op r then 1 else 0).
Proof.
  destruct op as [tuple| |err table_lock|tuple| |search_tuple callback|update
                 |search_tuple update insert_tuple|tuple callback
                 |search_tuple callback]; cbn [run leaves_mtr_open].
  - do 2 eexists. split; [apply f_equal, surjective_pairing|].
    destruct (mtr_delta_counts _ _ _ _ (insert_record_frame tuple w))
      as (?&?&?&?).
    cbn [snd]. lia.
  - do 2 eexists. split; [apply f_equal, surjective_pairing|].
    destruct (mtr_delta_counts _ _ _ _ (lock_table_frame w)) as (?&?&?&?).
    cbn [snd]. lia.
  - do 2 eexists. split; [apply f_equal, surjective_pairing|].
    destruct (handle_wait_frame err table_lock w) as (_&_&_&HM).
    destruct (mtr_delta_counts _ _ _ _ HM) as (?&?&?&?). cbn [snd]. lia.
  - destruct (delete_record_full_frame tuple w) as [r [n [e [w' [Hr HB]]]]].
    exists r, w'. unfold delete_record. rewrite Hr. split; [reflexivity|].
    destruct (mtr_balanced_counts _ _ HB) as (?&?&?). lia.
  - destruct (delete_all_frame w) as [r [w' [Hr HB]]].
    exists r, w'. split; [exact Hr|].
    destruct (mtr_balanced_counts _ _ HB) as (?&?&?). lia.
  - do 2 eexists. split; [apply f_equal, surjective_pairing|].
    destruct (select_for_update_frame search_tuple callback w) as (_&_&HM).
    destruct (mtr_delta_counts _ _ _ _ HM) as (?&?&?&?).
    destruct (fst (select_for_update search_tuple callback w) =?e DB_SUCCESS);
      lia.
  - do 2 eexists. split; [apply f_equal, surjective_pairing|].
    destruct (mtr_delta_counts _ _ _ _ (update_record_frame update w))
      as (?&?&?&?).
    cbn [snd]. lia.
  - destruct (replace_record_frame search_tuple update insert_tuple w)
      as [r [w' [Hr HB]]].
    exists r, w'. split; [exact Hr|].
    destruct (mtr_balanced_counts _ _ HB) as (?&?&?). lia.
  - destruct (read_full_frame tuple callback w) as [r [n [e [w' [Hr HM]]]]].
    exists r, w'. unfold read. rewrite Hr. split; [reflexivity|].
    destruct (mtr_delta_counts _ _ _ _ HM) as (?&?&?&?). lia.
  - destruct (read_by_index_frame search_tuple callback w)
      as [r [w' [Hr HM]]].
    exists r, w'. split; [exact Hr|].
    destruct (mtr_delta_counts _ _ _ _ HM) as (?&?&?&?). lia.
Qed.

(** C8 as stated fails: a [select_for_update] that finds and locks its row
    returns DB_SUCCESS having started one mini-transaction and committed
    none. *)
Lemma mtr_hygiene_counterexample :
  ~ (forall op w r w',
        run op w = Some (r, w') -> mtr_started w w' = mtr_committed w w').
Proof.
  intros H.
  assert (E : exists w',
             run (OpSelectForUpdate (key 2) None)
               (table_world [row 2 false 0] quiet_engine)
             = Some (DB_SUCCESS, w') /\
             mtr_started (table_world [row 2 false 0] quiet_engine) w' = 1 /\
             mtr_committed (table_world [row 2 false 0] quiet_engine) w' = 0).
  { eexists. split; [vm_compute; reflexivity|].
    vm_compute. split; reflexivity. }
  destruct E as [w' [Hrun [Hs Hc]]].
  specialize (H _ _ _ _ Hrun). rewrite Hs, Hc in H. discriminate.
Qed.

(** ** select_for_update *)

Lemma select_for_update_builds_no_version (search_tuple : dtuple_t)
  (callback : option RecordCallback) (w : world) :
  count_events is_vers_build (snd (select_for_update search_tuple callback w))
  = count_events is_vers_build w.
Proof.
  unfold select_for_update, handle_wait, pending_wait, lock_wait.
  unfold_prims. unfold count_events. exec0; reflexivity.
Qed.

(** C3.  [select_for_update] never calls the version builder.  When the
    transaction is there (so that its read view is open by the time the
    record is looked at), the cursor opens on a record, and that record has
    a nonzero creator id that is not visible under the view, the call
    returns DB_RECORD_NOT_FOUND: its mini-transaction is started and
    committed, the commit follows the cursor open directly, and no lock is
    requested. *)
Theorem select_for_update_hidden_creator :
  (forall search_tuple callback w,
      count_events is_vers_build
        (snd (select_for_update search_tuple callback w))
      = count_events is_vers_build w) /\
  (forall search_tuple callback w rec,
      trx_present w = true ->
      next_answer DB_SUCCESS (o_open (engine w)) = DB_SUCCESS ->
      nth_error (clust_index w) (page_cur_ge search_tuple (clust_index w))
      = Some rec ->
      creator_visible w rec = false ->
      let r := fst (select_for_update search_tuple callback w) in
      let w' := snd (select_for_update search_tuple callback w) in
      r = DB_RECORD_NOT_FOUND /\
      view_is_open w' = true /\
      mtr_started w w' = 1 /\ mtr_committed w w' = 1 /\
      (exists earlier,
          trace w' = EvMtrCommit :: EvCursorOpen DB_SUCCESS :: earlier) /\
      count_events is_lock w' = count_events is_lock w).
Proof.
  split; [exact select_for_update_builds_no_version|].
  intros search_tuple callback w rec Htrx Hopen Hrec Hvis.
  unfold creator_visible in Hvis. apply orb_false_elim in Hvis.
  destruct Hvis as [Hid Hvis]. unfold row_get_rec_trx_id in *.
  unfold select_for_update, view_is_open, mtr_started, mtr_committed,
    mtr_starts, mtr_commits, count_events, row_get_rec_trx_id.
  unfold_prims. wsimpl. rewrite Htrx. wsimpl.
  destruct (read_view_open w) eqn:Hview; wsimpl;
    rewrite Hopen; wsimpl; rewrite Hrec; wsimpl;
    rewrite ?Htrx, ?Hview, Hid, Hvis; wsimpl;
    rewrite ?Htrx, ?Hview; wsimpl;
    (repeat split; first [lia | reflexivity | eexists; reflexivity]).
Qed.

(** A snapshot that hides transaction 9, the creator of the only row:
    [select_for_update] reports DB_RECORD_NOT_FOUND. *)
Lemma select_for_update_hidden_creator_witness :
  fst (select_for_update (key 2) None
         (snapshot_world [row 2 false 9] (DB_SUCCESS, None)))
  = DB_RECORD_NOT_FOUND.
Proof.
  exact (proj1
           ((proj2 select_for_update_hidden_creator) (key 2) None
              (snapshot_world [row 2 false 9] (DB_SUCCESS, None))
              (row 2 false 9) eq_refl eq_refl eq_refl eq_refl)).
Defined.

(** C10.  When [select_for_update] finds a record that matches the key, is
    not hidden by the read view and gets locked, the returned status
    depends on the comparator only through "SKIP or not": STOP returns
    DB_SUCCESS without a call of the processor and leaves the
    mini-transaction open, PROCESS returns DB_SUCCESS after one call of the
    processor and leaves the mini-transaction open, SKIP returns
    DB_RECORD_NOT_FOUND and commits. *)
Theorem select_for_update_verdict (search_tuple : dtuple_t)
  (callback : RecordCallback) (w : world) (rec : rec_t) :
  next_answer DB_SUCCESS (o_open (engine w)) = DB_SUCCESS ->
  nth_error (clust_index w) (page_cur_ge search_tuple (clust_index w))
  = Some rec ->
  trx_present w && negb (creator_visible w rec) = false ->
  cmp_dtuple_rec search_tuple rec = 0%Z ->
  (next_answer DB_SUCCESS (o_lock (engine w)) = DB_SUCCESS \/
   next_answer DB_SUCCESS (o_lock (engine w)) = DB_SUCCESS_LOCKED_REC) ->
  let r := fst (select_for_update search_tuple (Some callback) w) in
  let w' := snd (select_for_update search_tuple (Some callback) w) in
  match compare_record callback (Some search_tuple) rec (rec_get_offsets rec)
  with
  | STOP =>
      r = DB_SUCCESS /\
      count_events is_process w' = count_events is_process w /\
      mtr_started w w' = 1 /\ mtr_committed w w' = 0
  | PROCESS =>
      r = DB_SUCCESS /\
      count_events is_process w' = S (count_events is_process w) /\
      mtr_started w w' = 1 /\ mtr_committed w w' = 0
  | SKIP =>
      r = DB_RECORD_NOT_FOUND /\
      count_events is_process w' = count_events is_process w /\
      mtr_started w w' = 1 /\ mtr_committed w w' = 1
  end.
Proof.
  intros Hopen Hrec Hvis Hcmp Hlock.
  assert (Hhid : forall b,
             trx_present w && b
             && negb (row_get_rec_trx_id rec =? 0)%Z
             && negb (changes_visible w (row_get_rec_trx_id rec)) = false).
  { intros b. unfold creator_visible in Hvis.
    destruct (trx_present w); [|reflexivity].
    destruct (row_get_rec_trx_id rec =? 0)%Z;
      [destruct b; reflexivity|].
    destruct (changes_visible w (row_get_rec_trx_id rec));
      [destruct b; reflexivity|discriminate]. }
  unfold select_for_update, mtr_started, mtr_committed, mtr_starts,
    mtr_commits, count_events.
  unfold_prims. wsimpl.
  destruct (trx_present w && negb (read_view_open w)); wsimpl;
    rewrite Hopen; wsimpl; rewrite Hrec; wsimpl; rewrite Hhid; wsimpl;
    rewrite Hcmp; wsimpl;
    (destruct Hlock as [Hlock|Hlock]; rewrite Hlock; wsimpl;
     destruct (compare_record callback (Some search_tuple) rec
                 (rec_get_offsets rec)); wsimpl; repeat split; lia).
Qed.

(** A comparator that answers STOP on a found, visible, lockable row. *)
Lemma select_for_update_verdict_witness :
  fst (select_for_update (key 2)
         (Some (mk_callback (fun _ _ _ => STOP) (fun _ _ => true)))
         (table_world [row 2 false 0] quiet_engine))
  = DB_SUCCESS.
Proof.
  exact (proj1
           (select_for_update_verdict (key 2)
              (mk_callback (fun _ _ _ => STOP) (fun _ _ => true))
              (table_world [row 2 false 0] quiet_engine) (row 2 false 0)
              eq_refl eq_refl eq_refl eq_refl (or_introl eq_refl))).
Defined.

(** ** update_record *)

Lemma upd_size_scan_spec (update : upd_t) (offsets : rec_offs) (cmpl_info : Z)
  (err : dberr_t) :
  upd_size_scan update offsets cmpl_info err
  = if size_changes update offsets
    then (Z.land cmpl_info (Z.lnot UPD_NODE_NO_SIZE_CHANGE), DB_OVERFLOW)
    else (cmpl_info, err).
Proof.
  induction update as [|f update IH]; [reflexivity|].
  cbn [upd_size_scan size_changes existsb].
  destruct (field_no f <? rec_offs_n_fields offsets); cbn [andb orb].
  - destruct (negb (dfield_len (new_val f) =? UNIV_SQL_NULL)%Z
              && negb (dfield_len (new_val f)
                       =? rec_offs_nth_size offsets (field_no f))%Z);
      cbn [orb]; [reflexivity|exact IH].
  - exact IH.
Qed.

(** C9 (as amended).  [update_record] takes an exclusive index latch and
    then chooses by field length: when no updated field that lies within
    the record and has a non-NULL new value changes its length, the
    in-place update is attempted (and an OVERFLOW from it, like a length
    change, leads on to the optimistic update); when some such field
    changes its length, in-place is skipped and the optimistic update is
    performed; OVERFLOW or UNDERFLOW of the optimistic update escalates to
    the pessimistic update, a successful pessimistic update with a
    big-record remainder is followed by the external storage of the
    overflow fields, and the status of the last primitive is returned. *)
Theorem update_record_strategy (update : upd_t) (w : world) :
  update_record update w = update_strategy_spec update w.
Proof.
  unfold update_record, update_strategy_spec, escalate_update.
  rewrite upd_size_scan_spec.
  destruct (size_changes update (pcur_rec_offsets w)).
  - change (negb (Z.land (Z.land (Z.lor UPD_NODE_NO_ORD_CHANGE
                                    UPD_NODE_NO_SIZE_CHANGE)
                            (Z.lnot UPD_NODE_NO_SIZE_CHANGE))
                    UPD_NODE_NO_SIZE_CHANGE =? 0)%Z) with false.
    change (Z.land (Z.lor UPD_NODE_NO_ORD_CHANGE UPD_NODE_NO_SIZE_CHANGE)
              (Z.lnot UPD_NODE_NO_SIZE_CHANGE)) with UPD_NODE_NO_ORD_CHANGE.
    cbn [dberr_eqb]. rewrite dberr_eqb_refl. reflexivity.
  - change (negb (Z.land (Z.lor UPD_NODE_NO_ORD_CHANGE UPD_NODE_NO_SIZE_CHANGE)
                    UPD_NODE_NO_SIZE_CHANGE =? 0)%Z) with true.
    cbv iota.
    destruct (btr_cur_update_in_place (log EvIndexXLock w)) as [err w2].
    reflexivity.
Qed.

(** C9 as stated fails: an update that sets a stored 8-byte field to SQL
    NULL carries a new length (UNIV_SQL_NULL) different from the old one,
    and yet the in-place update is attempted and the optimistic update is
    not. *)
Lemma update_record_strategy_counterexample :
  some_length_differs null_update (pcur_rec_offsets selected_world) = true /\
  count_events is_update_in_place
    (snd (update_record null_update selected_world)) = 1 /\
  count_events is_optimistic_update
    (snd (update_record null_update selected_world)) = 0.
Proof. vm_compute. repeat split. Qed.

(** ** delete_record *)

(** What the scan of [delete_record] needs to know of the world it started
    from: the cursor is bound to the clustered index. *)
Lemma delete_attempt_unfold (tuple : dtuple_t) (n : nat) (w : world) :
  delete_attempt tuple n w
  = let w3 := snd (btr_pcur_open_on_user_rec tuple
                     (set_pcur_index CLUST (mtr_start w))) in
    if negb (next_answer DB_SUCCESS (o_open (engine w)) =?e DB_SUCCESS)
    then Some (DelFuncExit (next_answer DB_SUCCESS (o_open (engine w))), n, w3)
    else delete_scan (scan_fuel w3) tuple DB_SUCCESS n w3.
Proof.
  unfold delete_attempt, btr_pcur_open_on_user_rec. cbv zeta.
  change (engine (set_pcur_index CLUST (mtr_start w))) with (engine w).
  destruct (dberr_eq_dec (next_answer DB_SUCCESS (o_open (engine w)))
              DB_SUCCESS) as [E|E].
  - rewrite E. rewrite dberr_eqb_refl. cbn [snd negb].
    rewrite dberr_eqb_refl. reflexivity.
  - rewrite (proj2 (dberr_eqb_neq _ _) E). cbn [snd negb].
    rewrite (proj2 (dberr_eqb_neq _ _) E). reflexivity.
Qed.

Section AlreadyDeleted.

Variable tuple : dtuple_t.
Variable w0 : world.

(** Every row that matches the tuple is delete-marked already. *)
Hypothesis matches_deleted :
  forall rec, In rec (clust_index w0) ->
              cmp_dtuple_rec tuple rec = 0%Z -> rec_deleted rec = true.

Lemma delete_body_untouched (s : delete_state) :
  (fst (fst s) = DB_SUCCESS /\ snd (fst s) = 0 /\ untouched w0 (snd s)) ->
  match delete_body tuple s with
  | inl (ctl, n, w') => ctl = DelFuncExit DB_SUCCESS /\ n = 0 /\ untouched w0 w'
  | inr s' =>
      fst (fst s') = DB_SUCCESS /\ snd (fst s') = 0 /\ untouched w0 (snd s')
  end.
Proof.
  destruct s as [[err n] w]. cbn [fst snd]. unfold untouched, count_events.
  intros [-> [-> [Hidx [Hrecs [Hl Hd]]]]].
  unfold delete_body, delete_next_rec, btr_pcur_get_user_rec, cursor_recs,
    btr_pcur_move_to_next, rec_get_deleted_flag.
  rewrite Hidx.
  destruct (pcur_pos w) as [|pos]; [wsimpl; repeat split; auto|].
  destruct (nth_error (clust_index w) pos) as [rec|] eqn:Hnth;
    [|wsimpl; repeat split; auto].
  destruct (rec_deleted rec) eqn:Hdel.
  - destruct (btr_pcur_is_after_last w); wsimpl; repeat split; auto.
  - destruct (cmp_dtuple_rec tuple rec =? 0)%Z eqn:Hcmp;
      [|wsimpl; repeat split; auto].
    apply Z.eqb_eq in Hcmp. apply nth_error_In in Hnth.
    rewrite Hrecs in Hnth.
    rewrite (matches_deleted rec Hnth Hcmp) in Hdel. discriminate.
Qed.

Lemma delete_record_full_untouched :
  exists w',
    delete_record_full tuple w0
    = Some (if next_answer DB_SUCCESS (o_open (engine w0)) =?e DB_SUCCESS
            then (DB_RECORD_NOT_FOUND, 0, ScanTerminated, w')
            else (next_answer DB_SUCCESS (o_open (engine w0)), 0,
                  HardError (next_answer DB_SUCCESS (o_open (engine w0))),
                  w')) /\
    clust_index w' = clust_index w0 /\
    count_events is_lock w' = count_events is_lock w0 /\
    count_events is_del_mark w' = count_events is_del_mark w0.
Proof.
  unfold delete_record_full, delete_record_loop, retry_fuel.
  cbn [loop delete_record_body]. rewrite delete_attempt_unfold. cbv zeta.
  set (w3 := snd (btr_pcur_open_on_user_rec tuple
                    (set_pcur_index CLUST (mtr_start w0)))).
  assert (H3 : untouched w0 w3).
  { subst w3. unfold untouched, count_events. unfold_prims. exec0;
      repeat split. }
  destruct (next_answer DB_SUCCESS (o_open (engine w0)) =?e DB_SUCCESS)
    eqn:Hopen; cbn [negb].
  - destruct (delete_scan_frame _ tuple DB_SUCCESS 0 w3
                (scan_fuel_enough w3)) as [ctl [n [w' [Hscan _]]]].
    rewrite Hscan.
    pose proof (loop_post (fun s => Some (delete_body tuple s))
      (fun s => fst (fst s) = DB_SUCCESS /\ snd (fst s) = 0 /\
                untouched w0 (snd s))
      (fun r => let '(ctl, n, w') := r in
                ctl = DelFuncExit DB_SUCCESS /\ n = 0 /\ untouched w0 w')
      delete_body_untouched (scan_fuel w3) (DB_SUCCESS, 0, w3) _
      (conj eq_refl (conj eq_refl H3)) Hscan) as [-> [-> [_ [Hr [Hl Hd]]]]].
    exists (mtr_commit w'). cbn. repeat split; assumption.
  - destruct H3 as [_ [Hr [Hl Hd]]]. apply dberr_eqb_neq in Hopen.
    exists (mtr_commit w3).
    rewrite (proj2 (is_error_true _) Hopen). repeat split; assumption.
Qed.

End AlreadyDeleted.

(** C7.  Deleting a tuple all of whose matching rows are already
    delete-marked (in particular: whose only matching row is) locks
    nothing, calls the delete-mark primitive on nothing, leaves the index
    and with it every delete mark as it was, and returns
    DB_RECORD_NOT_FOUND (the error of the cursor open, should the engine
    fail to open the cursor). *)
Theorem delete_record_already_deleted (tuple : dtuple_t) (w : world) :
  (forall rec, In rec (clust_index w) ->
               cmp_dtuple_rec tuple rec = 0%Z -> rec_deleted rec = true) ->
  exists w',
    delete_record tuple w
    = Some (if next_answer DB_SUCCESS (o_open (engine w)) =?e DB_SUCCESS
            then DB_RECORD_NOT_FOUND
            else next_answer DB_SUCCESS (o_open (engine w)), w') /\
    clust_index w' = clust_index w /\
    count_events is_lock w' = count_events is_lock w /\
    count_events is_del_mark w' = count_events is_del_mark w.
Proof.
  intros H. destruct (delete_record_full_untouched tuple w H)
    as [w' [Hfull Hrest]].
  exists w'. split; [|exact Hrest].
  unfold delete_record. rewrite Hfull.
  destruct (next_answer DB_SUCCESS (o_open (engine w)) =?e DB_SUCCESS);
    reflexivity.
Qed.

(** The tombstone of key 2 is skipped: not found, nothing locked. *)
Lemma delete_record_already_deleted_witness :
  exists w',
    delete_record (key 2) tombstone_world
    = Some (if next_answer DB_SUCCESS (o_open (engine tombstone_world))
               =?e DB_SUCCESS
            then DB_RECORD_NOT_FOUND
            else next_answer DB_SUCCESS (o_open (engine tombstone_world)),
            w') /\
    clust_index w' = clust_index tombstone_world /\
    count_events is_lock w' = count_events is_lock tombstone_world /\
    count_events is_del_mark w' = count_events is_del_mark tombstone_world.
Proof.
  apply (delete_record_already_deleted (key 2) tombstone_world).
  intros rec [<-|[<-|[<-|[]]]]; vm_compute; congruence.
Defined.

Lemma del_mark_nth_other (i k : nat) (recs : list rec_t) :
  i <> k -> nth_error (del_mark_nth i recs) k = nth_error recs k.
Proof.
  revert i k. induction recs as [|r recs IH]; intros [|i] [|k] H; cbn; auto;
    try congruence.
Qed.

Lemma page_cur_ge_del_mark (tuple : dtuple_t) (i : nat) (recs : list rec_t) :
  page_cur_ge tuple (del_mark_nth i recs) = page_cur_ge tuple recs.
Proof.
  revert i. induction recs as [|r recs IH]; intros [|i]; cbn; auto.
  change (cmp_dtuple_rec tuple (rec_set_deleted r))
    with (cmp_dtuple_rec tuple r).
  destruct (0 <? cmp_dtuple_rec tuple r)%Z; [rewrite IH|]; reflexivity.
Qed.

Lemma handle_wait_touches (j : nat) (err : dberr_t) (table_lock : bool)
  (w : world) :
  forallb (touches_below j) (trace (snd (handle_wait err table_lock w)))
  = forallb (touches_below j) (trace w).
Proof.
  unfold handle_wait, pending_wait, lock_wait. exec0; reflexivity.
Qed.

Section StopsAtMismatch.

Variable tuple : dtuple_t.
Variable w0 : world.
Variable j : nat.
Variable rec_j : rec_t.

(** The record at [j] is a live record that does not match the tuple. *)
Hypothesis at_j : nth_error (clust_index w0) j = Some rec_j.
Hypothesis live_j : rec_deleted rec_j = false.
Hypothesis mismatch_j : cmp_dtuple_rec tuple rec_j <> 0%Z.

Lemma delete_body_below_j (s : delete_state) :
  scanning_below_j tuple w0 j (snd s) ->
  match delete_body tuple s with
  | inl (_, _, w') => below_j tuple w0 j w'
  | inr s' => scanning_below_j tuple w0 j (snd s')
  end.
Proof.
  destruct s as [[err n] w]. cbn [snd].
  intros [[Htr [Hge Hrecs]] [Hidx Hpos]].
  unfold delete_body, delete_next_rec, btr_pcur_get_user_rec, cursor_recs,
    btr_pcur_move_to_next, rec_get_deleted_flag.
  rewrite Hidx. destruct (pcur_pos w) as [|pos] eqn:Hp.
  { repeat split; assumption. }
  destruct (nth_error (clust_index w) pos) as [rec|] eqn:Hnth.
  2:{ repeat split; assumption. }
  assert (Hcases : pos = j \/ pos < j) by lia.
  destruct Hcases as [->|Hlt].
  - (* the cursor stands on the record at [j] *)
    rewrite (Hrecs j (le_n j)), at_j in Hnth. inversion Hnth; subst rec.
    rewrite live_j.
    destruct (cmp_dtuple_rec tuple rec_j =? 0)%Z eqn:Hc.
    + apply Z.eqb_eq in Hc. contradiction.
    + cbn [negb]. unfold below_j. wsimpl. rewrite Nat.leb_refl.
      repeat split; assumption.
  - assert (Hpos_le : (pos <=? j) = true) by (apply Nat.leb_le; lia).
    assert (Hpos_lt : (pos <? j) = true) by (apply Nat.ltb_lt; lia).
    assert (Hk : forall k, j <= k ->
              nth_error (del_mark_nth pos (clust_index w)) k
              = nth_error (clust_index w0) k).
    { intros k Hk. rewrite del_mark_nth_other by lia.
      apply Hrecs. exact Hk. }
    unfold lock_clust_rec_read_check_and_lock,
      btr_cur_del_mark_set_clust_rec, btr_pcur_is_after_last, cursor_recs.
    repeat (first
      [ match goal with
        | |- context [handle_wait ?e ?t ?x] =>
            let Ht := fresh "Ht" in
            pose proof (handle_wait_touches j e t x) as Ht;
            pose proof (handle_wait_frame e t x) as [[?F [_ [?F ?F]]] _];
            destruct (handle_wait e t x) as [? ?]; cbn [snd] in *
        end
      | break_inner ]; wsimpl; rewrite ?Hidx in *);
      unfold scanning_below_j, below_j; wsimpl;
      repeat match goal with
        | H : forallb _ _ = _ |- _ =>
            rewrite ?Hpos_lt, ?Hpos_le, ?Htr in H; cbn [andb] in H
        end;
      rewrite ?Hpos_lt, ?Hpos_le, ?page_cur_ge_del_mark; cbn [andb];
      repeat match goal with
        | H : clust_index ?x = _ |- _ => is_var x; rewrite H
        | H : pcur_index ?x = _ |- _ => is_var x; rewrite H
        | H : pcur_pos ?x = _ |- _ => is_var x; rewrite H
        end;
      repeat split; try assumption; try lia.
Qed.

Lemma delete_scan_below_j (fuel : nat) (err : dberr_t) (n : nat)
  (w : world) (r : delete_ctl * nat * world) :
  scanning_below_j tuple w0 j w ->
  delete_scan fuel tuple err n w = Some r -> below_j tuple w0 j (snd r).
Proof.
  intros Hw Hr.
  apply (loop_post (fun s => Some (delete_body tuple s))
           (fun s => scanning_below_j tuple w0 j (snd s))
           (fun r => below_j tuple w0 j (snd r))) with (fuel := fuel)
           (s := (err, n, w)); [|exact Hw|exact Hr].
  intros s Hs. pose proof (delete_body_below_j s Hs) as H.
  destruct (delete_body tuple s) as [[[ctl n'] w']|s']; exact H.
Qed.

(** The search starts at or before [j]. *)
Hypothesis start_le_j : page_cur_ge tuple (clust_index w0) <= j.

Lemma delete_attempt_below_j (n : nat) (w : world)
  (r : delete_ctl * nat * world) :
  below_j tuple w0 j w ->
  delete_attempt tuple n w = Some r -> below_j tuple w0 j (snd r).
Proof.
  intros [Htr [Hge Hrecs]]. rewrite delete_attempt_unfold. cbv zeta.
  unfold btr_pcur_open_on_user_rec. cbv zeta.
  change (engine (set_pcur_index CLUST (mtr_start w))) with (engine w).
  destruct (next_answer DB_SUCCESS (o_open (engine w)) =?e DB_SUCCESS);
    cbn [negb snd].
  - apply delete_scan_below_j. unfold scanning_below_j, below_j. wsimpl.
    repeat split; try assumption. unfold cursor_recs. wsimpl. lia.
  - intros H. inversion H; subst r. unfold below_j. wsimpl.
    repeat split; assumption.
Qed.

Lemma delete_record_full_below_j (w : world)
  (r : dberr_t * nat * delete_end * world) :
  below_j tuple w0 j w ->
  delete_record_full tuple w = Some r -> below_j tuple w0 j (snd r).
Proof.
  intros Hw Hr. unfold delete_record_full, delete_record_loop in Hr.
  apply (loop_post (delete_record_body tuple)
           (fun s => below_j tuple w0 j (snd s))
           (fun r => below_j tuple w0 j (snd r))) with (fuel := retry_fuel w)
           (s := (0, w)); [|exact Hw|exact Hr].
  intros [n ws] Hs. cbn [snd] in Hs. unfold delete_record_body.
  destruct (delete_attempt tuple n ws) as [[[ctl n'] w']|] eqn:Ha;
    [|exact I].
  pose proof (delete_attempt_below_j n ws _ Hs Ha) as Hw'. cbn [snd] in Hw'.
  assert (Hc : below_j tuple w0 j (mtr_commit w')).
  { destruct Hw' as [H1 [H2 H3]]. unfold below_j. wsimpl.
    repeat split; assumption. }
  destruct ctl as [err|err|]; cbn [snd]; try assumption.
  destruct (is_error err); cbn [snd]; assumption.
Qed.

End StopsAtMismatch.

(** C6.  The scan of [delete_record] stops at the first live record that
    does not match: seen from an empty history, for a live mismatching
    record at position [j] at or after the point where the search starts,
    the call returns having examined no record beyond [j] and having locked
    or delete-marked nothing at or beyond [j], and the index is unchanged
    from [j] on.  On the index with keys 1, 2, 2, 3 and the key 2 the call
    returns DB_SUCCESS, its history is: start, open, then examine, lock and
    mark for each of the two records with key 2, then the examination of
    the record with key 3, then the commit; exactly the two records with
    key 2 are delete-marked. *)
Theorem delete_record_stops_at_mismatch :
  (forall tuple w j rec,
      trace w = [] ->
      page_cur_ge tuple (clust_index w) <= j ->
      nth_error (clust_index w) j = Some rec ->
      rec_deleted rec = false ->
      cmp_dtuple_rec tuple rec <> 0%Z ->
      exists r w',
        delete_record tuple w = Some (r, w') /\
        forallb (touches_below j) (trace w') = true /\
        (forall k, j <= k ->
                   nth_error (clust_index w') k = nth_error (clust_index w) k))
  /\
  (exists w',
      delete_record (key 2) p4_world = Some (DB_SUCCESS, w') /\
      history w'
      = [EvMtrStart; EvCursorOpen DB_SUCCESS;
         EvExamine 1; EvLock 1 DB_SUCCESS; EvDelMark 1 DB_SUCCESS;
         EvExamine 2; EvLock 2 DB_SUCCESS; EvDelMark 2 DB_SUCCESS;
         EvExamine 3; EvMtrCommit] /\
      map rec_deleted (clust_index w') = [false; true; true; false]).
Proof.
  split.
  - intros tuple w j rec Htrace Hstart Hat Hlive Hmis.
    destruct (delete_record_full_frame tuple w) as [r [n [e [w' [Hr _]]]]].
    assert (H0 : below_j tuple w j w).
    { unfold below_j. rewrite Htrace. repeat split. }
    pose proof (delete_record_full_below_j tuple w j rec Hat Hlive Hmis Hstart
                  w _ H0 Hr)
      as [H1 [_ H3]].
    exists r, w'. unfold delete_record. rewrite Hr.
    repeat split; assumption.
  - eexists. split; [vm_compute; reflexivity|]. vm_compute. split; reflexivity.
Qed.

(** Property P4 seen through the general statement: with the record of
    key 3 at position 3 as the mismatch, nothing beyond it is examined and
    it is not locked. *)
Lemma delete_record_stops_at_mismatch_witness :
  exists r w',
    delete_record (key 2) p4_world = Some (r, w') /\
    forallb (touches_below 3) (trace w') = true /\
    (forall k, 3 <= k ->
               nth_error (clust_index w') k
               = nth_error (clust_index p4_world) k).
Proof.
  apply (proj1 delete_record_stops_at_mismatch (key 2) p4_world 3
           (row 3 false 0)).
  - reflexivity.
  - vm_compute. lia.
  - reflexivity.
  - reflexivity.
  - vm_compute. discriminate.
Defined.


(** A wait that ends in a deadlock makes [delete_record] return the pending
    DB_LOCK_WAIT; a wait that times out makes it return
    DB_LOCK_WAIT_TIMEOUT. *)
Example delete_record_refused_wait :
  (exists w', delete_record (key 2) (refused_wait_world DB_DEADLOCK)
              = Some (DB_LOCK_WAIT, w')) /\
  (exists w', delete_record (key 2) (refused_wait_world DB_LOCK_WAIT_TIMEOUT)
              = Some (DB_LOCK_WAIT_TIMEOUT, w')).
Proof.
  split; eexists; vm_compute; reflexivity.
Qed.


Section DeleteAccounting.

Variable tuple : dtuple_t.
Variable marked0 failures0 : nat.





End DeleteAccounting.


(** ** read *)



Section ReadAccounting.

Variable tuple : option dtuple_t.
Variable callback : RecordCallback.
Variable matched0 processed0 : nat.



End ReadAccounting.



(** * More properties of the executor *)

(** ** Helpers *)

Lemma some_snd {A B : Type} (p : A * B) (a : A) (b : B) :
  Some p = Some (a, b) -> b = snd p.
Proof. intros H. inversion H. reflexivity. Qed.

Lemma run_returns (op : operation) (w : world) :
  exists r w', run op w = Some (r, w').
Proof.
  destruct op as [tuple| |err table_lock|tuple| |search_tuple callback|update
                 |search_tuple update insert_tuple|tuple callback
                 |search_tuple callback]; cbn [run];
    try (do 2 eexists; apply f_equal, surjective_pairing).
  - destruct (delete_record_full_frame tuple w) as [r [n [e [w' [Hr _]]]]].
    exists r, w'. unfold delete_record. rewrite Hr. reflexivity.
  - destruct (delete_all_frame w) as [r [w' [Hr _]]]. eauto.
  - destruct (replace_record_frame search_tuple update insert_tuple w)
      as [r [w' [Hr _]]]. eauto.
  - destruct (read_full_frame tuple callback w) as [r [n [e [w' [Hr _]]]]].
    exists r, w'. unfold read. rewrite Hr. reflexivity.
  - destruct (read_by_index_frame search_tuple callback w) as [r [w' [Hr _]]].
    eauto.
Qed.

Lemma lock_granted_of (e : dberr_t) :
  (e =?e DB_LOCK_WAIT) = false ->
  negb (e =?e DB_SUCCESS) && negb (e =?e DB_SUCCESS_LOCKED_REC) = false ->
  lock_granted e = true.
Proof. destruct e; cbn; congruence. Qed.

Lemma lock_granted_tests (e : dberr_t) :
  lock_granted e = true ->
  (e =?e DB_LOCK_WAIT) = false /\
  negb (e =?e DB_SUCCESS) && negb (e =?e DB_SUCCESS_LOCKED_REC) = false.
Proof. destruct e; cbn; intros H; try discriminate; auto. Qed.

Lemma next_answer_forallb {A : Type} (P : A -> bool) (dflt : A) (l : list A) :
  P dflt = true -> forallb P l = true ->
  P (next_answer dflt l) = true /\ forallb P (tl l) = true.
Proof.
  intros Hd Hl. destruct l as [|a l]; cbn in *; [auto|].
  apply andb_true_iff in Hl. exact Hl.
Qed.

Lemma del_mark_nth_app (pre suf : list rec_t) (a : rec_t) :
  del_mark_nth (length pre) (pre ++ a :: suf)
  = pre ++ rec_set_deleted a :: suf.
Proof.
  induction pre as [|r pre IH]; cbn; [reflexivity|]. rewrite IH. reflexivity.
Qed.

Lemma nth_error_middle {A : Type} (pre suf : list A) (a : A) :
  nth_error (pre ++ a :: suf) (length pre) = Some a.
Proof. induction pre; cbn; auto. Qed.

Lemma nth_error_end {A : Type} (pre : list A) :
  nth_error (pre ++ []) (length pre) = None.
Proof. induction pre; cbn; auto. Qed.

Lemma in_skipn {A : Type} (n : nat) (l : list A) (x : A) :
  In x (skipn n l) -> In x l.
Proof.
  intros H. rewrite <- (firstn_skipn n l). apply in_or_app. right. exact H.
Qed.

Lemma page_cur_ge_le (tuple : dtuple_t) (recs : list rec_t) :
  page_cur_ge tuple recs <= length recs.
Proof.
  induction recs as [|r recs IH]; cbn; [lia|].
  destruct (0 <? cmp_dtuple_rec tuple r)%Z; lia.
Qed.

Lemma rec_set_deleted_id (r : rec_t) :
  rec_deleted r = true -> rec_set_deleted r = r.
Proof. destruct r; cbn; intros ->; reflexivity. Qed.

Lemma move_from_infimum (w : world) :
  pcur_pos w = 0 -> btr_pcur_move_to_next w = (true, set_pcur_pos 1 w).
Proof.
  intros H. unfold btr_pcur_move_to_next, btr_pcur_is_after_last.
  rewrite H. reflexivity.
Qed.


(** The cursor on a record of its index. *)
Lemma at_rec_get (i : index_id) (pre suf : list rec_t) (w : world) :
  at_rec i pre suf w ->
  btr_pcur_get_user_rec w
  = match suf with [] => None | a :: _ => Some (length pre, a) end.
Proof.
  intros (H1 & H2 & H3). unfold btr_pcur_get_user_rec.
  rewrite H2, H3. destruct suf as [|a suf].
  - rewrite nth_error_end. reflexivity.
  - rewrite nth_error_middle. reflexivity.
Qed.

Lemma at_rec_next (i : index_id) (pre suf : list rec_t) (a : rec_t)
  (w : world) :
  at_rec i pre (a :: suf) w ->
  btr_pcur_move_to_next w = (true, set_pcur_pos (S (S (length pre))) w) /\
  at_rec i (pre ++ [a]) suf (set_pcur_pos (S (S (length pre))) w).
Proof.
  intros (H1 & H2 & H3). split.
  - unfold btr_pcur_move_to_next, btr_pcur_is_after_last.
    rewrite H2, H3, length_app. cbn [length].
    replace (length pre + S (length suf) <? S (length pre)) with false
      by (symmetry; apply Nat.ltb_ge; lia).
    reflexivity.
  - unfold at_rec.
    change (cursor_recs (set_pcur_pos (S (S (length pre))) w))
      with (cursor_recs w).
    cbn [pcur_index pcur_pos set_pcur_pos].
    rewrite H2, <- app_assoc, length_app. cbn [length app].
    rewrite Nat.add_1_r. auto.
Qed.

Lemma at_rec_after_last (i : index_id) (pre suf : list rec_t) (w : world) :
  at_rec i pre suf w ->
  btr_pcur_is_after_last w = match suf with [] => true | _ => false end.
Proof.
  intros (H1 & H2 & H3). unfold btr_pcur_is_after_last.
  rewrite H2, H3, length_app. destruct suf; cbn [length].
  - apply Nat.ltb_lt. lia.
  - apply Nat.ltb_ge. lia.
Qed.

Lemma at_rec_log (i : index_id) (pre suf : list rec_t) (ev : event)
  (w : world) :
  at_rec i pre suf w -> at_rec i pre suf (log ev w).
Proof. intros H. exact H. Qed.

Lemma at_rec_same_place (i : index_id) (pre suf : list rec_t)
  (w w' : world) :
  same_place w w' -> at_rec i pre suf w -> at_rec i pre suf w'.
Proof.
  unfold same_place, at_rec, cursor_recs.
  intros (S1 & S2 & S3 & S4) (H1 & H2 & H3). rewrite S1, S2, S3, S4. auto.
Qed.

Lemma at_rec_clust (pre suf : list rec_t) (w : world) :
  at_rec CLUST pre suf w -> clust_index w = pre ++ suf.
Proof.
  intros (H1 & H2 & _). unfold cursor_recs in H2. rewrite H1 in H2. exact H2.
Qed.

Lemma at_rec_fuel (i : index_id) (pre suf : list rec_t) (w : world) :
  at_rec i pre suf w -> length suf < scan_fuel w.
Proof.
  intros (_ & H2 & _). unfold scan_fuel. rewrite H2, length_app. lia.
Qed.

Lemma cooperative_parts (w : world) :
  cooperative w = true ->
  next_answer DB_SUCCESS (o_open (engine w)) = DB_SUCCESS /\ grants w.
Proof.
  unfold cooperative, grants. intros H.
  apply andb_true_iff in H. destruct H as [H H3].
  apply andb_true_iff in H. destruct H as [H1 H2].
  apply dberr_eqb_eq in H1. auto.
Qed.

(** ** No delete mark without a lock *)

Lemma handle_wait_locks_first err tl w :
  locks_first w -> locks_first (snd (handle_wait err tl w)).
Proof.
  unfold locks_first, handle_wait, pending_wait, lock_wait. intros H.
  exec0; assumption.
Qed.

Lemma mvcc_locks_first rec offsets cb c w :
  locks_first w -> locks_first (snd (process_record_with_mvcc rec offsets cb c w)).
Proof.
  unfold locks_first. intros H. unfold_mvcc. exec0; assumption.
Qed.

Lemma lookup_locks_first sec_rec cb n c w :
  locks_first w -> locks_first (snd (lookup_clustered_record sec_rec cb n c w)).
Proof.
  unfold locks_first. intros H. unfold_mvcc. exec0; assumption.
Qed.

Lemma delete_body_locks_first tuple s :
  locks_first (snd s) ->
  match delete_body tuple s with
  | inl (_, _, w') => locks_first w'
  | inr (_, _, w') => locks_first w'
  end.
Proof.
  destruct s as [[err n] w]. cbn [snd]. intros H.
  unfold delete_body, delete_next_rec.
  destruct (btr_pcur_get_user_rec w) as [[pos rec]|]; [|exact H].
  destruct (rec_get_deleted_flag rec).
  { unfold_prims. exec0; exact H. }
  destruct (negb (cmp_dtuple_rec tuple rec =? 0)%Z); [exact H|].
  unfold lock_clust_rec_read_check_and_lock.
  remember (next_answer DB_SUCCESS (o_lock (engine (log (EvExamine pos) w))))
    as e eqn:He. clear He.
  cbv zeta beta iota.
  destruct (e =?e DB_LOCK_WAIT) eqn:E1.
  { pose proof (handle_wait_locks_first e false
      (mtr_commit (log (EvLock pos e)
         (set_engine (set_o_lock (tl (o_lock (engine (log (EvExamine pos) w))))
            (engine (log (EvExamine pos) w))) (log (EvExamine pos) w))))) as F.
    destruct (handle_wait _ _ _) as [e2 w4]. cbn [snd] in F.
    destruct (negb (e2 =?e DB_SUCCESS)); apply F; exact H. }
  destruct (negb (e =?e DB_SUCCESS) && negb (e =?e DB_SUCCESS_LOCKED_REC)) eqn:E2.
  { exact H. }
  pose proof (lock_granted_of e E1 E2) as G.
  unfold btr_cur_del_mark_set_clust_rec. cbv zeta.
  match goal with |- context [next_answer DB_SUCCESS ?l =?e DB_SUCCESS] =>
    destruct (next_answer DB_SUCCESS l =?e DB_SUCCESS) end;
  cbn [negb]; unfold_prims; exec0; unfold locks_first in *; wsimpl;
  rewrite Nat.eqb_refl, G, H; reflexivity.
Qed.

Lemma delete_all_body_locks_first s :
  locks_first (snd s) ->
  match delete_all_body s with
  | inl (_, w') => locks_first w'
  | inr (_, w') => locks_first w'
  end.
Proof.
  destruct s as [err w]. cbn [snd]. intros H.
  unfold delete_all_body, delete_all_next_rec.
  destruct (btr_pcur_is_after_last w); [exact H|].
  destruct (btr_pcur_get_user_rec w) as [[pos rec]|];
    [|unfold_prims; exec0; exact H].
  destruct (rec_get_deleted_flag rec); [unfold_prims; exec0; exact H|].
  destruct (rec_min_rec rec); [unfold_prims; exec0; exact H|].
  unfold lock_clust_rec_read_check_and_lock.
  remember (next_answer DB_SUCCESS (o_lock (engine w))) as e eqn:He. clear He.
  cbv zeta beta iota.
  destruct (e =?e DB_LOCK_WAIT) eqn:E1.
  { pose proof (handle_wait_locks_first e false
      (mtr_commit (log (EvLock pos e)
         (set_engine (set_o_lock (tl (o_lock (engine w))) (engine w)) w)))) as F.
    destruct (handle_wait _ _ _) as [e2 w4]. cbn [snd] in F.
    destruct (negb (e2 =?e DB_SUCCESS)); apply F; exact H. }
  destruct (negb (e =?e DB_SUCCESS) && negb (e =?e DB_SUCCESS_LOCKED_REC)) eqn:E2.
  { exact H. }
  pose proof (lock_granted_of e E1 E2) as G.
  unfold btr_cur_del_mark_set_clust_rec. cbv zeta.
  match goal with |- context [next_answer DB_SUCCESS ?l =?e DB_SUCCESS] =>
    destruct (next_answer DB_SUCCESS l =?e DB_SUCCESS) eqn:E3 end;
  cbv beta iota; try rewrite E3; unfold is_error; try rewrite E3; cbn [negb];
  unfold_prims; exec0; unfold locks_first in *; wsimpl;
  rewrite ?Nat.eqb_refl, ?G, ?H; try reflexivity.
Qed.

Lemma read_body_locks_first tuple cb s :
  locks_first (snd s) ->
  match read_body tuple cb s with
  | inl (_, _, w') => locks_first w'
  | inr (_, w') => locks_first w'
  end.
Proof.
  destruct s as [n w]. cbn [snd]. intros H.
  unfold read_body, read_next_rec.
  destruct (btr_pcur_get_user_rec w) as [[pos rec]|]; [|exact H].
  destruct (compare_record cb tuple rec (rec_get_offsets rec)).
  - pose proof (mvcc_locks_first rec (rec_get_offsets rec) cb true
                  (log (EvCompare rec PROCESS) w) H) as F.
    destruct (process_record_with_mvcc _ _ _ _ _) as [[e c] w2]. cbn [snd] in F.
    destruct (is_error e || negb c); [exact F|].
    unfold_prims. exec0; exact F.
  - unfold_prims. exec0; exact H.
  - exact H.
Qed.

Lemma read_by_index_body_locks_first tuple cb s :
  locks_first (snd s) ->
  match read_by_index_body tuple cb s with
  | inl (_, _, w') => locks_first w'
  | inr (_, w') => locks_first w'
  end.
Proof.
  destruct s as [n w]. cbn [snd]. intros H.
  unfold read_by_index_body, read_next_rec.
  destruct (btr_pcur_get_user_rec w) as [[pos rec]|]; [|exact H].
  destruct (compare_record cb (Some tuple) rec (rec_get_offsets rec)).
  - pose proof (lookup_locks_first rec cb n true
                  (log (EvCompare rec PROCESS) w) H) as F.
    destruct (lookup_clustered_record _ _ _ _ _) as [[[e n'] c] w2].
    cbn [snd] in F.
    destruct (is_error e || negb c); [exact F|].
    unfold_prims. exec0; exact F.
  - unfold_prims. exec0; exact H.
  - exact H.
Qed.

Lemma open_on_user_rec_locks_first tuple w :
  locks_first w -> locks_first (snd (btr_pcur_open_on_user_rec tuple w)).
Proof. unfold locks_first. intros H. unfold_prims. exec0; exact H. Qed.

Lemma open_leaf_locks_first i w :
  locks_first w -> locks_first (snd (open_leaf i w)).
Proof. unfold locks_first. intros H. unfold_prims. exec0; exact H. Qed.

Lemma ensure_read_view_locks_first w :
  locks_first w -> locks_first (ensure_read_view w).
Proof. unfold locks_first. intros H. unfold_prims. exec0; exact H. Qed.

Lemma move_to_next_locks_first w :
  locks_first w -> locks_first (snd (btr_pcur_move_to_next w)).
Proof. unfold locks_first. intros H. unfold_prims. exec0; exact H. Qed.

Lemma delete_record_locks_first tuple w r w' :
  locks_first w -> delete_record tuple w = Some (r, w') -> locks_first w'.
Proof.
  intros H Hr. unfold delete_record in Hr.
  destruct (delete_record_full tuple w) as [[[[r0 n] e] w0]|] eqn:Hf;
    [|discriminate].
  inversion Hr; subst. clear Hr.
  unfold delete_record_full, delete_record_loop in Hf.
  refine (loop_post (delete_record_body tuple)
            (fun s => locks_first (snd s))
            (fun res => locks_first (snd res)) _ _ (0, w) _ H Hf).
  intros [n0 ws] Hs. cbn [snd] in Hs. unfold delete_record_body, delete_attempt.
  pose proof (open_on_user_rec_locks_first tuple
                (set_pcur_index CLUST (mtr_start ws)) Hs) as Ho.
  destruct (btr_pcur_open_on_user_rec tuple _) as [err w3]. cbn [snd] in Ho.
  destruct (negb (err =?e DB_SUCCESS)).
  - destruct (is_error err); exact Ho.
  - destruct (delete_scan (scan_fuel w3) tuple err n0 w3)
      as [[[ctl n1] w1]|] eqn:Hscan; [|exact I].
    assert (Hw1 : locks_first w1).
    { unfold delete_scan in Hscan.
      refine (loop_post (fun s => Some (delete_body tuple s))
                (fun s => locks_first (snd s))
                (fun res => locks_first (snd res)) _ _ (err, n0, w3) _ Ho Hscan).
      intros s Hs'. pose proof (delete_body_locks_first tuple s Hs') as F.
      destruct (delete_body tuple s) as [[[? ?] ?]|[[? ?] ?]]; exact F. }
    destruct ctl as [e1|e1|]; [destruct (is_error e1)| |]; exact Hw1.
Qed.

Lemma delete_all_locks_first w r w' :
  locks_first w -> delete_all w = Some (r, w') -> locks_first w'.
Proof.
  intros H Hr. unfold delete_all, delete_all_loop in Hr.
  refine (loop_post delete_all_retry_body
            (fun s => locks_first s)
            (fun res => locks_first (snd res)) _ _ w _ H Hr).
  intros ws Hs. unfold delete_all_retry_body, delete_all_attempt.
  pose proof (open_leaf_locks_first CLUST (mtr_start ws) Hs) as Ho.
  destruct (open_leaf CLUST (mtr_start ws)) as [err w3]. cbn [snd] in Ho.
  destruct (negb (err =?e DB_SUCCESS)); [exact Ho|].
  pose proof (move_to_next_locks_first w3 Ho) as Hm.
  destruct (btr_pcur_move_to_next w3) as [moved w4]. cbn [snd] in Hm.
  destruct moved; cbn [negb]; [|exact Hm].
  destruct (delete_all_scan (scan_fuel w4) err w4) as [[ctl w1]|] eqn:Hscan;
    [|exact I].
  assert (Hw1 : locks_first w1).
  { unfold delete_all_scan in Hscan.
    refine (loop_post (fun s => Some (delete_all_body s))
              (fun s => locks_first (snd s))
              (fun res => locks_first (snd res)) _ _ (err, w4) _ Hm Hscan).
    intros s Hs'. pose proof (delete_all_body_locks_first s Hs') as F.
    destruct (delete_all_body s) as [[? ?]|[? ?]]; exact F. }
  destruct ctl; exact Hw1.
Qed.

Lemma select_for_update_locks_first tuple cb w :
  locks_first w -> locks_first (snd (select_for_update tuple cb w)).
Proof.
  intros H. unfold select_for_update.
  pose proof (open_on_user_rec_locks_first tuple
    (set_pcur_index CLUST (ensure_read_view (mtr_start w)))
    (ensure_read_view_locks_first (mtr_start w) H)) as Ho.
  destruct (btr_pcur_open_on_user_rec tuple _) as [err w4]. cbn [snd] in Ho.
  destruct (negb (err =?e DB_SUCCESS)); [exact Ho|].
  destruct (btr_pcur_get_user_rec w4) as [[pos rec]|]; [|exact Ho].
  match goal with |- context [if ?b then err_exit DB_RECORD_NOT_FOUND w4 else _] =>
    destruct b end; [exact Ho|].
  destruct (negb (cmp_dtuple_rec tuple rec =? 0)%Z); [exact Ho|].
  unfold lock_clust_rec_read_check_and_lock.
  remember (next_answer DB_SUCCESS (o_lock (engine (log (EvExamine pos) w4))))
    as e eqn:He. clear He.
  cbv zeta beta iota.
  destruct (e =?e DB_LOCK_WAIT).
  { match goal with |- context [handle_wait ?a ?b ?c] =>
      pose proof (handle_wait_locks_first a b c) as F;
      destruct (handle_wait a b c) as [e2 w8] end.
    cbn [snd] in F. destruct (negb (e2 =?e DB_SUCCESS)); apply F; exact Ho. }
  destruct (negb (e =?e DB_SUCCESS) && negb (e =?e DB_SUCCESS_LOCKED_REC));
    [exact Ho|].
  destruct cb as [cb|]; [|exact Ho].
  destruct (compare_record cb (Some tuple) rec (rec_get_offsets rec));
    exact Ho.
Qed.

Lemma update_record_locks_first update w :
  locks_first w -> locks_first (snd (update_record update w)).
Proof.
  unfold locks_first. intros H.
  unfold update_record, btr_cur_update_in_place, btr_cur_optimistic_update,
    btr_cur_pessimistic_update, btr_store_big_rec_extern_fields.
  destruct (upd_size_scan update (pcur_rec_offsets w) _ _) as [cmpl_info err].
  exec0; exact H.
Qed.

Lemma replace_record_locks_first st upd it w r w' :
  locks_first w -> replace_record st upd it w = Some (r, w') -> locks_first w'.
Proof.
  intros H Hr. unfold replace_record, replace_record_loop in Hr.
  refine (loop_post (replace_record_body st upd it)
            (fun s => locks_first s)
            (fun res => locks_first (snd res)) _ _ w _ H Hr).
  intros ws Hs. unfold replace_record_body.
  pose proof (select_for_update_locks_first st None ws Hs) as F.
  destruct (select_for_update st None ws) as [err w1]. cbn [snd] in F.
  destruct (err =?e DB_SUCCESS).
  - pose proof (update_record_locks_first upd w1 F) as U.
    destruct (update_record upd w1) as [err1 w2]. exact U.
  - destruct (err =?e DB_RECORD_NOT_FOUND); [exact F|].
    destruct (err =?e DB_LOCK_WAIT); exact F.
Qed.

Lemma read_locks_first tuple cb w r w' :
  locks_first w -> read tuple cb w = Some (r, w') -> locks_first w'.
Proof.
  intros H Hr. unfold read in Hr.
  destruct (read_full tuple cb w) as [[[[r0 n] e] w0]|] eqn:Hf; [|discriminate].
  inversion Hr; subst. clear Hr. unfold read_full in Hf.
  assert (Hscan : forall w0, locks_first w0 ->
            read_finish tuple (read_scan (scan_fuel w0) tuple cb 0 w0)
            = Some (r, n, e, w') -> locks_first w').
  { intros w0 H0 Hfin.
    destruct (read_scan (scan_fuel w0) tuple cb 0 w0) as [[[ctl n1] w1]|]
      eqn:Hs; [|discriminate].
    assert (Hw1 : locks_first w1).
    { unfold read_scan in Hs.
      refine (loop_post (fun s => Some (read_body tuple cb s))
                (fun s => locks_first (snd s))
                (fun res => locks_first (snd res)) _ _ (0, w0) _ H0 Hs).
      intros s Hs'. pose proof (read_body_locks_first tuple cb s Hs') as F.
      destruct (read_body tuple cb s) as [[[? ?] ?]|[? ?]]; exact F. }
    destruct ctl; cbn [read_finish] in Hfin; inversion Hfin; subst; exact Hw1. }
  pose proof (ensure_read_view_locks_first (mtr_start w) H) as Hv.
  cbv zeta in Hf. destruct tuple as [t|].
  - pose proof (open_on_user_rec_locks_first t
                  (set_pcur_index CLUST (ensure_read_view (mtr_start w))) Hv)
      as Ho.
    destruct (btr_pcur_open_on_user_rec t _) as [err w4]. cbn [snd] in Ho.
    destruct (negb (err =?e DB_SUCCESS)).
    + inversion Hf; subst. exact Ho.
    + exact (Hscan w4 Ho Hf).
  - pose proof (open_leaf_locks_first CLUST
                  (set_pcur_index CLUST (ensure_read_view (mtr_start w))) Hv)
      as Ho.
    destruct (open_leaf CLUST _) as [err w4]. cbn [snd] in Ho.
    destruct (negb (err =?e DB_SUCCESS)).
    + inversion Hf; subst. exact Ho.
    + pose proof (move_to_next_locks_first w4 Ho) as Hm.
      destruct (btr_pcur_move_to_next w4) as [moved w5]. cbn [snd] in Hm.
      destruct moved; cbn [negb] in Hf.
      * exact (Hscan w5 Hm Hf).
      * inversion Hf; subst. exact Hm.
Qed.

Lemma read_by_index_locks_first tuple cb w r w' :
  locks_first w -> read_by_index tuple cb w = Some (r, w') -> locks_first w'.
Proof.
  intros H Hr. unfold read_by_index in Hr.
  pose proof (open_on_user_rec_locks_first tuple
                (set_pcur_index SEC (ensure_read_view (mtr_start w)))
                (ensure_read_view_locks_first (mtr_start w) H)) as Ho.
  destruct (btr_pcur_open_on_user_rec tuple _) as [err w4]. cbn [snd] in Ho.
  destruct (negb (err =?e DB_SUCCESS)).
  - inversion Hr; subst. exact Ho.
  - destruct (read_by_index_scan (scan_fuel w4) tuple cb 0 w4)
      as [[[ctl n1] w1]|] eqn:Hs; [|discriminate].
    assert (Hw1 : locks_first w1).
    { unfold read_by_index_scan in Hs.
      refine (loop_post (fun s => Some (read_by_index_body tuple cb s))
                (fun s => locks_first (snd s))
                (fun res => locks_first (snd res)) _ _ (0, w4) _ Ho Hs).
      intros s Hs'.
      pose proof (read_by_index_body_locks_first tuple cb s Hs') as F.
      destruct (read_by_index_body tuple cb s) as [[[? ?] ?]|[? ?]]; exact F. }
    destruct ctl; cbn [read_by_index_finish] in Hr; inversion Hr; subst;
      exact Hw1.
Qed.

(** X1.  No operation of the executor sets a delete mark on a record it has
    not just locked: if every call of the delete-mark primitive in the
    trace so far follows directly on a granted lock request for the same
    record, the operation returns and the same holds of the trace it
    leaves. *)
Theorem lock_before_delete_mark (op : operation) (w : world) :
  marks_under_lock (trace w) = true ->
  exists r w',
    run op w = Some (r, w') /\ marks_under_lock (trace w') = true.
Proof.
  intros H. destruct (run_returns op w) as [r [w' Hr]].
  exists r, w'. split; [exact Hr|]. revert Hr.
  destruct op; cbn [run]; intros Hr;
    try (apply some_snd in Hr; subst w').
  - exact H.
  - exact H.
  - apply (handle_wait_locks_first err table_lock w H).
  - exact (delete_record_locks_first _ _ _ _ H Hr).
  - exact (delete_all_locks_first _ _ _ H Hr).
  - apply (select_for_update_locks_first search_tuple callback w H).
  - apply (update_record_locks_first update w H).
  - exact (replace_record_locks_first _ _ _ _ _ _ H Hr).
  - exact (read_locks_first _ _ _ _ _ H Hr).
  - exact (read_by_index_locks_first _ _ _ _ _ H Hr).
Qed.

(** ** The delete operations only set delete marks *)

Lemma marked_from_refl sel l : marked_from sel l l.
Proof. induction l; constructor; auto. Qed.

Lemma marked_from_del_mark sel l0 l pos rec :
  marked_from sel l0 l -> nth_error l pos = Some rec ->
  rec_deleted rec = false -> sel rec = true ->
  marked_from sel l0 (del_mark_nth pos l) /\
  count_deleted (del_mark_nth pos l) = S (count_deleted l).
Proof.
  intros HF. revert pos. unfold count_deleted.
  induction HF as [|r r' l0 l Hr HF IH]; intros pos Hn Hlive Hsel.
  - destruct pos; discriminate.
  - destruct pos as [|pos]; cbn in Hn |- *.
    + inversion Hn; subst r'. rewrite Hlive. split; [|reflexivity].
      constructor; [|exact HF].
      destruct Hr as [->|[-> _]]; [right; auto|discriminate].
    + destruct (IH pos Hn Hlive Hsel) as [IH1 IH2]. split.
      * constructor; assumption.
      * destruct (rec_deleted r'); cbn; rewrite IH2; reflexivity.
Qed.

Lemma handle_wait_marked err tl w :
  count_events is_marked (snd (handle_wait err tl w)) = count_events is_marked w.
Proof.
  unfold handle_wait, pending_wait, lock_wait, count_events. exec0.
Qed.

Lemma only_marked_same sel w0 w w' :
  only_marked sel w0 w -> clust_index w' = clust_index w ->
  sec_index w' = sec_index w ->
  count_events is_marked w' = count_events is_marked w ->
  only_marked sel w0 w'.
Proof.
  unfold only_marked. intros (H1 & H2 & H3 & H4) E1 E2 E3.
  rewrite E1, E2, E3. auto.
Qed.

Lemma only_marked_handle_wait sel w0 err tl w :
  only_marked sel w0 w -> only_marked sel w0 (snd (handle_wait err tl w)).
Proof.
  intros H. destruct (handle_wait_frame err tl w) as [(F1 & F2 & _) _].
  apply (only_marked_same sel w0 w); auto. apply handle_wait_marked.
Qed.

Lemma handle_wait_pcur_index err tl w :
  pcur_index (snd (handle_wait err tl w)) = pcur_index w.
Proof. destruct (handle_wait_frame err tl w) as [(_ & _ & F & _) _]. exact F. Qed.

Lemma get_user_rec_clust w pos rec :
  pcur_index w = CLUST -> btr_pcur_get_user_rec w = Some (pos, rec) ->
  nth_error (clust_index w) pos = Some rec.
Proof.
  unfold btr_pcur_get_user_rec, cursor_recs. intros ->.
  destruct (pcur_pos w) as [|i]; [discriminate|].
  destruct (nth_error (clust_index w) i) eqn:E; [|discriminate].
  intros H. inversion H; subst. exact E.
Qed.

Lemma only_marked_del_mark sel w0 w pos rec :
  only_marked sel w0 w -> nth_error (clust_index w) pos = Some rec ->
  rec_deleted rec = false -> sel rec = true ->
  forall w1, clust_index w1 = clust_index w -> sec_index w1 = sec_index w ->
  count_events is_marked w1 = S (count_events is_marked w) ->
  only_marked sel w0 (set_clust_index (del_mark_nth pos (clust_index w1)) w1).
Proof.
  unfold only_marked. intros (H1 & H2 & H3 & H4) Hn Hl Hs w1 E1 E2 E3.
  destruct (marked_from_del_mark sel _ _ pos rec H1 Hn Hl Hs) as [M1 M2].
  cbn [clust_index sec_index set_clust_index].
  change (count_events is_marked (set_clust_index _ w1))
    with (count_events is_marked w1).
  rewrite E1, E2, E3, M2. repeat split; auto; lia.
Qed.

Lemma move_next_only_marked sel w0 w :
  only_marked sel w0 w -> pcur_index w = CLUST ->
  only_marked sel w0 (snd (btr_pcur_move_to_next w)) /\
  pcur_index (snd (btr_pcur_move_to_next w)) = CLUST.
Proof.
  intros H Hc. unfold btr_pcur_move_to_next.
  destruct (btr_pcur_is_after_last w); cbn [snd]; split; auto.
Qed.

Section DeleteMarksOnly.

Variable tuple : dtuple_t.
Variable w0 : world.

Lemma delete_body_only_marked (s : delete_state) :
  marking_scan (tuple_matches tuple) w0 (snd s) ->
  match delete_body tuple s with
  | inl (_, _, w') => marking_scan (tuple_matches tuple) w0 w'
  | inr (_, _, w') => marking_scan (tuple_matches tuple) w0 w'
  end.
Proof.
  destruct s as [[err n] w]. cbn [snd]. unfold marking_scan. intros [H Hc].
  unfold delete_body, delete_next_rec.
  destruct (btr_pcur_get_user_rec w) as [[pos rec]|] eqn:Hrec; [|split; auto].
  pose proof (get_user_rec_clust w pos rec Hc Hrec) as Hn.
  unfold rec_get_deleted_flag. destruct (rec_deleted rec) eqn:Hlive.
  { pose proof (move_next_only_marked _ w0 w H Hc) as M.
    destruct (btr_pcur_move_to_next w) as [moved w1]. cbn [snd] in M.
    destruct moved; exact M. }
  destruct (cmp_dtuple_rec tuple rec =? 0)%Z eqn:Hcmp; cbn [negb];
    [|split; auto].
  unfold lock_clust_rec_read_check_and_lock.
  remember (next_answer DB_SUCCESS (o_lock (engine (log (EvExamine pos) w))))
    as e eqn:He. clear He.
  cbv zeta beta iota.
  destruct (e =?e DB_LOCK_WAIT).
  { match goal with |- context [handle_wait ?a ?b ?c] =>
      pose proof (only_marked_handle_wait (tuple_matches tuple) w0 a b c) as F;
      pose proof (handle_wait_pcur_index a b c) as G;
      destruct (handle_wait a b c) as [e2 w4] end.
    cbn [snd] in F, G.
    destruct (negb (e2 =?e DB_SUCCESS)); (split; [apply F; exact H|]);
      rewrite G; exact Hc. }
  destruct (negb (e =?e DB_SUCCESS) && negb (e =?e DB_SUCCESS_LOCKED_REC));
    [split; auto|].
  unfold btr_cur_del_mark_set_clust_rec. cbv zeta.
  match goal with |- context [next_answer DB_SUCCESS ?l =?e DB_SUCCESS] =>
    remember (next_answer DB_SUCCESS l) as e3 eqn:He3; clear He3 end.
  destruct (e3 =?e DB_SUCCESS) eqn:E3; cbv beta iota; rewrite E3; cbn [negb].
  - apply dberr_eqb_eq in E3. subst e3.
    match goal with |- context [set_clust_index (del_mark_nth pos ?l) ?w1] =>
      pose proof (only_marked_del_mark (tuple_matches tuple) w0 w pos rec H Hn
                    Hlive Hcmp w1 eq_refl eq_refl eq_refl) as M;
      set (w3 := set_clust_index (del_mark_nth pos l) w1) in *
    end.
    assert (Hc3 : pcur_index w3 = CLUST) by exact Hc.
    clearbody w3.
    pose proof (move_next_only_marked _ w0 w3 M Hc3) as M'.
    destruct (btr_pcur_move_to_next w3) as [moved w5]. cbn [snd] in M'.
    destruct moved; exact M'.
  - split; [|exact Hc].
    apply (only_marked_same _ w0 w); auto.
    unfold count_events. cbn. destruct e3; try reflexivity; discriminate.
Qed.

Lemma delete_attempt_only_marked (n : nat) (w : world)
  (r : delete_ctl * nat * world) :
  only_marked (tuple_matches tuple) w0 w ->
  delete_attempt tuple n w = Some r ->
  only_marked (tuple_matches tuple) w0 (snd r).
Proof.
  intros H Hr. unfold delete_attempt in Hr.
  assert (Ho : marking_scan (tuple_matches tuple) w0
                 (snd (btr_pcur_open_on_user_rec tuple
                         (set_pcur_index CLUST (mtr_start w))))).
  { unfold btr_pcur_open_on_user_rec. cbv zeta.
    destruct (_ =?e DB_SUCCESS); cbn [snd]; split; try reflexivity;
      apply (only_marked_same _ w0 w); auto. }
  destruct (btr_pcur_open_on_user_rec tuple _) as [err w3]. cbn [snd] in Ho.
  destruct (negb (err =?e DB_SUCCESS)).
  - inversion Hr; subst. apply Ho.
  - unfold delete_scan in Hr.
    refine (proj1 (loop_post (fun s => Some (delete_body tuple s))
              (fun s => marking_scan (tuple_matches tuple) w0 (snd s))
              (fun res => marking_scan (tuple_matches tuple) w0 (snd res))
              _ _ (err, n, w3) _ Ho Hr)).
    intros s Hs. pose proof (delete_body_only_marked s Hs) as F.
    destruct (delete_body tuple s) as [[[? ?] ?]|[[? ?] ?]]; exact F.
Qed.

Lemma delete_record_full_only_marked (w : world)
  (r : dberr_t * nat * delete_end * world) :
  only_marked (tuple_matches tuple) w0 w ->
  delete_record_full tuple w = Some r ->
  only_marked (tuple_matches tuple) w0 (snd r).
Proof.
  intros H Hr. unfold delete_record_full, delete_record_loop in Hr.
  refine (loop_post (delete_record_body tuple)
            (fun s => only_marked (tuple_matches tuple) w0 (snd s))
            (fun res => only_marked (tuple_matches tuple) w0 (snd res))
            _ _ (0, w) _ H Hr).
  intros [n ws] Hs. cbn [snd] in Hs. unfold delete_record_body.
  pose proof (delete_attempt_only_marked n ws) as A.
  destruct (delete_attempt tuple n ws) as [[[ctl n1] w1]|]; [|exact I].
  specialize (A _ Hs eq_refl). cbn [snd] in A.
  destruct ctl as [e|e|]; [destruct (is_error e)| |]; cbn [snd];
    try exact A; apply (only_marked_same _ w0 w1); auto.
Qed.

End DeleteMarksOnly.

Lemma only_marked_init sel w : only_marked sel w w.
Proof.
  unfold only_marked. repeat split; auto. apply marked_from_refl.
Qed.

Lemma only_marked_rows sel w w' :
  only_marked sel w w' ->
  marked_from sel (clust_index w) (clust_index w') /\
  sec_index w' = sec_index w /\
  count_deleted (clust_index w')
  = count_deleted (clust_index w) + rows_marked w w'.
Proof.
  unfold only_marked, rows_marked. intros (H1 & H2 & H3 & H4).
  repeat split; auto. lia.
Qed.

(** X2.  Whatever the engine answers, [delete_record] returns, and all it
    changes in the table are delete marks set on records that were live
    and compare equal to the tuple: the secondary index is untouched, and
    the number of delete-marked records grows by exactly the number of
    successful calls of the delete-mark primitive. *)
Theorem delete_record_marks_only_matches (tuple : dtuple_t) (w : world) :
  exists r w',
    delete_record tuple w = Some (r, w') /\
    marked_from (tuple_matches tuple) (clust_index w) (clust_index w') /\
    sec_index w' = sec_index w /\
    count_deleted (clust_index w')
    = count_deleted (clust_index w) + rows_marked w w'.
Proof.
  destruct (delete_record_full_frame tuple w) as [r [n [e [w' [Hr _]]]]].
  exists r, w'. split; [unfold delete_record; rewrite Hr; reflexivity|].
  apply only_marked_rows.
  exact (delete_record_full_only_marked tuple w w _ (only_marked_init _ w) Hr).
Qed.

Lemma delete_all_body_only_marked (w0 : world) (s : dberr_t * world) :
  marking_scan not_min_rec w0 (snd s) ->
  match delete_all_body s with
  | inl (_, w') => marking_scan not_min_rec w0 w'
  | inr (_, w') => marking_scan not_min_rec w0 w'
  end.
Proof.
  destruct s as [err w]. cbn [snd]. unfold marking_scan. intros [H Hc].
  unfold delete_all_body, delete_all_next_rec.
  pose proof (move_next_only_marked _ w0 w H Hc) as M.
  destruct (btr_pcur_is_after_last w); [split; auto|].
  destruct (btr_pcur_get_user_rec w) as [[pos rec]|] eqn:Hrec.
  2:{ destruct (btr_pcur_move_to_next w) as [moved w1]. cbn [snd] in M.
      destruct moved; exact M. }
  pose proof (get_user_rec_clust w pos rec Hc Hrec) as Hn.
  unfold rec_get_deleted_flag. destruct (rec_deleted rec) eqn:Hlive.
  { destruct (btr_pcur_move_to_next w) as [moved w1]. cbn [snd] in M.
    destruct moved; exact M. }
  destruct (rec_min_rec rec) eqn:Hmin.
  { destruct (btr_pcur_move_to_next w) as [moved w1]. cbn [snd] in M.
    destruct moved; exact M. }
  clear M.
  unfold lock_clust_rec_read_check_and_lock.
  remember (next_answer DB_SUCCESS (o_lock (engine w))) as e eqn:He. clear He.
  cbv zeta beta iota.
  destruct (e =?e DB_LOCK_WAIT).
  { match goal with |- context [handle_wait ?a ?b ?c] =>
      pose proof (only_marked_handle_wait not_min_rec w0 a b c) as F;
      pose proof (handle_wait_pcur_index a b c) as G;
      destruct (handle_wait a b c) as [e2 w4] end.
    cbn [snd] in F, G.
    destruct (negb (e2 =?e DB_SUCCESS)); (split; [apply F; exact H|]);
      rewrite G; exact Hc. }
  destruct (negb (e =?e DB_SUCCESS) && negb (e =?e DB_SUCCESS_LOCKED_REC));
    [split; auto|].
  unfold btr_cur_del_mark_set_clust_rec. cbv zeta.
  match goal with |- context [next_answer DB_SUCCESS ?l =?e DB_SUCCESS] =>
    remember (next_answer DB_SUCCESS l) as e3 eqn:He3; clear He3 end.
  unfold is_error.
  destruct (e3 =?e DB_SUCCESS) eqn:E3; cbv beta iota; rewrite E3; cbn [negb].
  - apply dberr_eqb_eq in E3. subst e3.
    assert (Hsel : not_min_rec rec = true) by (unfold not_min_rec; rewrite Hmin; reflexivity).
    match goal with |- context [set_clust_index (del_mark_nth pos ?l) ?w1] =>
      pose proof (only_marked_del_mark not_min_rec w0 w pos rec H Hn
                    Hlive Hsel w1 eq_refl eq_refl eq_refl) as M;
      set (w3 := set_clust_index (del_mark_nth pos l) w1) in *
    end.
    assert (Hc3 : pcur_index w3 = CLUST) by exact Hc.
    clearbody w3.
    pose proof (move_next_only_marked _ w0 w3 M Hc3) as M'.
    destruct (btr_pcur_move_to_next w3) as [moved w5]. cbn [snd] in M'.
    destruct moved; exact M'.
  - split; [|exact Hc].
    apply (only_marked_same _ w0 w); auto.
    unfold count_events. cbn. destruct e3; try reflexivity; discriminate.
Qed.

Lemma delete_all_only_marked (w0 w : world) (r : dberr_t * world) :
  only_marked not_min_rec w0 w -> delete_all w = Some r ->
  only_marked not_min_rec w0 (snd r).
Proof.
  intros H Hr. unfold delete_all, delete_all_loop in Hr.
  refine (loop_post delete_all_retry_body
            (fun s => only_marked not_min_rec w0 s)
            (fun res => only_marked not_min_rec w0 (snd res))
            _ _ w _ H Hr).
  intros ws Hs. unfold delete_all_retry_body, delete_all_attempt.
  assert (Ho : marking_scan not_min_rec w0
                 (snd (open_leaf CLUST (mtr_start ws)))).
  { unfold open_leaf. cbv zeta.
    destruct (_ =?e DB_SUCCESS); cbn [snd]; split; try reflexivity;
      apply (only_marked_same _ w0 ws); auto. }
  destruct (open_leaf CLUST (mtr_start ws)) as [err w3]. cbn [snd] in Ho.
  destruct (negb (err =?e DB_SUCCESS)).
  { cbn [snd]. apply (only_marked_same _ w0 w3); auto. apply Ho. }
  pose proof (move_next_only_marked _ w0 w3 (proj1 Ho) (proj2 Ho)) as Hm.
  destruct (btr_pcur_move_to_next w3) as [moved w4]. cbn [snd] in Hm.
  destruct moved; cbn [negb].
  2:{ cbn [snd]. apply (only_marked_same _ w0 w4); auto. apply Hm. }
  destruct (delete_all_scan (scan_fuel w4) err w4) as [[ctl w1]|] eqn:Hscan;
    [|exact I].
  assert (Hw1 : marking_scan not_min_rec w0 w1).
  { unfold delete_all_scan in Hscan.
    refine (loop_post (fun s => Some (delete_all_body s))
              (fun s => marking_scan not_min_rec w0 (snd s))
              (fun res => marking_scan not_min_rec w0 (snd res))
              _ _ (err, w4) _ Hm Hscan).
    intros s Hs'. pose proof (delete_all_body_only_marked w0 s Hs') as F.
    destruct (delete_all_body s) as [[? ?]|[? ?]]; exact F. }
  destruct ctl; cbn [snd]; apply Hw1.
Qed.

(** X3.  Whatever the engine answers, [delete_all] returns, and all it changes
    in the table are delete marks set on records that were live and do not
    carry the min-rec flag, one per successful call of the delete-mark
    primitive. *)
Theorem delete_all_marks_only_user_records (w : world) :
  exists r w',
    delete_all w = Some (r, w') /\
    marked_from not_min_rec (clust_index w) (clust_index w') /\
    sec_index w' = sec_index w /\
    count_deleted (clust_index w')
    = count_deleted (clust_index w) + rows_marked w w'.
Proof.
  destruct (delete_all_frame w) as [r [w' [Hr _]]].
  exists r, w'. split; [exact Hr|].
  apply only_marked_rows.
  exact (delete_all_only_marked w w _ (only_marked_init _ w) Hr).
Qed.

(** ** The delete operations on a cooperative engine *)

Lemma lock_step (i : index_id) (pre suf : list rec_t) (pos : nat)
  (w : world) :
  at_rec i pre suf w -> grants w ->
  exists e w2,
    lock_clust_rec_read_check_and_lock pos w = (e, w2) /\
    (e =?e DB_LOCK_WAIT) = false /\
    negb (e =?e DB_SUCCESS) && negb (e =?e DB_SUCCESS_LOCKED_REC) = false /\
    at_rec i pre suf w2 /\ grants w2.
Proof.
  intros Hat [G1 G2]. unfold lock_clust_rec_read_check_and_lock.
  destruct (next_answer_forallb lock_granted DB_SUCCESS _ eq_refl G1)
    as [G4 T4].
  destruct (lock_granted_tests _ G4) as [L1 L2].
  do 2 eexists. split; [reflexivity|]. split; [exact L1|]. split; [exact L2|].
  split; [exact Hat|]. split; [exact T4|exact G2].
Qed.

Lemma del_mark_step (pre suf : list rec_t) (a : rec_t) (w : world) :
  at_rec CLUST pre (a :: suf) w -> grants w ->
  exists w3,
    btr_cur_del_mark_set_clust_rec (length pre) w = (DB_SUCCESS, w3) /\
    at_rec CLUST pre (rec_set_deleted a :: suf) w3 /\ grants w3.
Proof.
  intros Hat [G1 G2]. pose proof (at_rec_clust _ _ _ Hat) as Hc.
  destruct Hat as (H1 & H2 & H3). unfold btr_cur_del_mark_set_clust_rec.
  destruct (next_answer_forallb (fun e => e =?e DB_SUCCESS) DB_SUCCESS _
              (dberr_eqb_refl _) G2) as [G5 T5].
  cbv zeta. rewrite G5. apply dberr_eqb_eq in G5. rewrite G5.
  eexists. split; [reflexivity|]. split.
  - unfold at_rec, cursor_recs.
    cbn [pcur_index clust_index pcur_pos set_clust_index log set_engine].
    rewrite H1, Hc, del_mark_nth_app. auto.
  - split; [exact G1|exact T5].
Qed.

Lemma delete_body_at (tuple : dtuple_t) (pre suf : list rec_t) (a : rec_t)
  (n : nat) (w : world) :
  at_rec CLUST pre (a :: suf) w -> grants w ->
  if rec_deleted a then
    exists w1,
      delete_body tuple (DB_SUCCESS, n, w) = inr (DB_SUCCESS, n, w1) /\
      at_rec CLUST (pre ++ [a]) suf w1 /\ grants w1
  else if tuple_matches tuple a then
    exists w1,
      delete_body tuple (DB_SUCCESS, n, w) = inr (DB_SUCCESS, S n, w1) /\
      at_rec CLUST (pre ++ [rec_set_deleted a]) suf w1 /\ grants w1
  else
    exists w1,
      delete_body tuple (DB_SUCCESS, n, w)
      = inl (DelFuncExit DB_SUCCESS, n, w1) /\
      clust_index w1 = pre ++ a :: suf.
Proof.
  intros Hat Hg. unfold delete_body. rewrite (at_rec_get _ _ _ _ Hat).
  unfold rec_get_deleted_flag, delete_next_rec.
  destruct (rec_deleted a) eqn:Hdel.
  { destruct (at_rec_next _ pre suf a w Hat) as [-> Hat1].
    eexists. split; [reflexivity|]. split; [exact Hat1|exact Hg]. }
  unfold tuple_matches.
  destruct (cmp_dtuple_rec tuple a =? 0)%Z eqn:Hcmp; cbn [negb].
  2:{ eexists. split; [reflexivity|]. exact (at_rec_clust _ _ _ Hat). }
  destruct (lock_step CLUST pre (a :: suf) (length pre)
              (log (EvExamine (length pre)) w)
              (at_rec_log _ _ _ _ _ Hat) Hg)
    as [e [w2 [-> [L1 [L2 [Hat2 Hg2]]]]]].
  rewrite L1, L2.
  destruct (del_mark_step pre suf a w2 Hat2 Hg2) as [w3 [-> [Hat3 Hg3]]].
  cbn [dberr_eqb negb]. rewrite dberr_eqb_refl. cbn [negb].
  destruct (at_rec_next _ pre suf (rec_set_deleted a) w3 Hat3) as [-> Hat4].
  eexists. split; [reflexivity|]. split; [exact Hat4|exact Hg3].
Qed.

Lemma delete_scan_run (tuple : dtuple_t) (suf : list rec_t) :
  forall (pre : list rec_t) (w : world) (n fuel : nat),
    at_rec CLUST pre suf w -> grants w -> length suf < fuel ->
    exists w',
      delete_scan fuel tuple DB_SUCCESS n w
      = Some (DelFuncExit DB_SUCCESS, n + delete_run_count tuple suf, w') /\
      clust_index w' = pre ++ delete_run tuple suf.
Proof.
  induction suf as [|a suf IH]; intros pre w n fuel Hat Hg Hfuel;
    (destruct fuel as [|fuel]; [lia|]); unfold delete_scan; cbn [loop].
  - unfold delete_body. rewrite (at_rec_get _ _ _ _ Hat).
    exists w. rewrite Nat.add_0_r. split; [reflexivity|].
    exact (at_rec_clust _ _ _ Hat).
  - pose proof (delete_body_at tuple pre suf a n w Hat Hg) as B.
    assert (Hfuel' : length suf < fuel) by (cbn [length] in Hfuel; lia).
    cbn [delete_run delete_run_count].
    destruct (rec_deleted a).
    + destruct B as [w1 [-> [Hat1 Hg1]]].
      destruct (IH (pre ++ [a]) w1 n fuel Hat1 Hg1 Hfuel') as [w' [Hs Hi]].
      exists w'. split; [exact Hs|]. rewrite Hi, <- app_assoc. reflexivity.
    + destruct (tuple_matches tuple a).
      * destruct B as [w1 [-> [Hat1 Hg1]]].
        destruct (IH (pre ++ [rec_set_deleted a]) w1 (S n) fuel Hat1 Hg1
                    Hfuel') as [w' [Hs Hi]].
        exists w'. split.
        -- unfold delete_scan in Hs. rewrite Hs.
           replace (n + S (delete_run_count tuple suf))
             with (S n + delete_run_count tuple suf) by lia.
           reflexivity.
        -- rewrite Hi, <- app_assoc. reflexivity.
      * destruct B as [w1 [-> Hi]]. exists w1.
        rewrite Nat.add_0_r. auto.
Qed.

(** On a cooperative engine [delete_record] needs one attempt: it marks
    the live matching records it meets from the first record >= tuple up
    to the first live record that does not match. *)
Lemma delete_record_full_run (tuple : dtuple_t) (w : world) :
  cooperative w = true ->
  exists w',
    delete_record_full tuple w
    = Some (if 0 <? delete_run_count tuple
                      (skipn (page_cur_ge tuple (clust_index w))
                         (clust_index w))
            then DB_SUCCESS else DB_RECORD_NOT_FOUND,
            delete_run_count tuple
              (skipn (page_cur_ge tuple (clust_index w)) (clust_index w)),
            ScanTerminated, w') /\
    clust_index w'
    = firstn (page_cur_ge tuple (clust_index w)) (clust_index w)
      ++ delete_run tuple
           (skipn (page_cur_ge tuple (clust_index w)) (clust_index w)).
Proof.
  intros Hc. destruct (cooperative_parts w Hc) as (Ho & Hl & Hd).
  set (p := page_cur_ge tuple (clust_index w)).
  unfold delete_record_full, delete_record_loop, retry_fuel. cbn [loop].
  unfold delete_record_body, delete_attempt, btr_pcur_open_on_user_rec.
  cbv zeta.
  change (engine (set_pcur_index CLUST (mtr_start w))) with (engine w).
  rewrite Ho. rewrite dberr_eqb_refl. cbn [negb]. cbv beta iota.
  match goal with |- context [delete_scan _ tuple DB_SUCCESS 0 ?x] =>
    set (w3 := x)
  end.
  assert (Hat : at_rec CLUST (firstn p (clust_index w))
                  (skipn p (clust_index w)) w3).
  { unfold at_rec, cursor_recs. subst w3.
    cbn [pcur_index clust_index pcur_pos engine set_pcur_pos log set_engine
         set_pcur_index mtr_start].
    rewrite firstn_skipn. repeat split; auto.
    rewrite firstn_length_le; [reflexivity|]. apply page_cur_ge_le. }
  assert (Hg : grants w3) by (split; [exact Hl|exact Hd]).
  clearbody w3.
  destruct (delete_scan_run tuple _ _ w3 0 _ Hat Hg (at_rec_fuel _ _ _ _ Hat))
    as [w' [Hs Hi]].
  rewrite Hs. cbn [Nat.add]. change (is_error DB_SUCCESS) with false. cbv iota.
  eexists. split; [reflexivity|]. exact Hi.
Qed.

Lemma no_match_below (tuple : dtuple_t) (r : rec_t) (recs : list rec_t) :
  (cmp_dtuple_rec tuple r < 0)%Z ->
  forallb (fun r' => (cmp_dtuple_rec tuple r' <=? cmp_dtuple_rec tuple r)%Z)
    recs = true ->
  map (mark_if (tuple_matches tuple)) recs = recs /\
  existsb (live_match tuple) recs = false.
Proof.
  intros Hneg. induction recs as [|a recs IH]; cbn [forallb map existsb];
    [auto|].
  intros H. apply andb_true_iff in H. destruct H as [Ha H].
  apply Z.leb_le in Ha. destruct (IH H) as [IH1 IH2].
  rewrite IH1, IH2.
  unfold mark_if, live_match, tuple_matches.
  replace (cmp_dtuple_rec tuple a =? 0)%Z with false
    by (symmetry; apply Z.eqb_neq; lia).
  rewrite andb_false_r. auto.
Qed.

Lemma delete_run_ordered (tuple : dtuple_t) (recs : list rec_t) :
  ordered_for tuple recs = true ->
  Forall (fun r => (cmp_dtuple_rec tuple r <= 0)%Z) recs ->
  delete_run tuple recs = map (mark_if (tuple_matches tuple)) recs /\
  (0 <? delete_run_count tuple recs) = existsb (live_match tuple) recs.
Proof.
  induction recs as [|r recs IH]; intros Ho Hle; [auto|].
  cbn [ordered_for] in Ho. apply andb_true_iff in Ho. destruct Ho as [Hr Ho].
  inversion Hle as [|? ? Hr0 Hle']; subst.
  destruct (IH Ho Hle') as [IH1 IH2].
  cbn [delete_run delete_run_count map existsb].
  destruct (rec_deleted r) eqn:Hdel.
  - assert (M1 : mark_if (tuple_matches tuple) r = r).
    { unfold mark_if. destruct (tuple_matches tuple r); [|reflexivity].
      apply rec_set_deleted_id. exact Hdel. }
    assert (M2 : live_match tuple r = false)
      by (unfold live_match; rewrite Hdel; reflexivity).
    rewrite IH1, IH2, M1, M2. auto.
  - destruct (tuple_matches tuple r) eqn:Hm.
    + assert (M1 : mark_if (tuple_matches tuple) r = rec_set_deleted r)
        by (unfold mark_if; rewrite Hm; reflexivity).
      assert (M2 : live_match tuple r = true)
        by (unfold live_match; rewrite Hdel, Hm; reflexivity).
      rewrite IH1, M1, M2. auto.
    + assert (M1 : mark_if (tuple_matches tuple) r = r)
        by (unfold mark_if; rewrite Hm; reflexivity).
      assert (M2 : live_match tuple r = false)
        by (unfold live_match; rewrite Hm; apply andb_false_r).
      unfold tuple_matches in Hm. apply Z.eqb_neq in Hm.
      assert (Hneg : (cmp_dtuple_rec tuple r < 0)%Z) by lia.
      destruct (no_match_below tuple r recs Hneg Hr) as [N1 N2].
      rewrite M1, M2, N1, N2. auto.
Qed.

Lemma delete_from_ge_ordered (tuple : dtuple_t) (recs : list rec_t) :
  ordered_for tuple recs = true ->
  firstn (page_cur_ge tuple recs) recs
  ++ delete_run tuple (skipn (page_cur_ge tuple recs) recs)
  = map (mark_if (tuple_matches tuple)) recs /\
  (0 <? delete_run_count tuple (skipn (page_cur_ge tuple recs) recs))
  = existsb (live_match tuple) recs.
Proof.
  induction recs as [|r recs IH]; intros Ho; [auto|].
  pose proof Ho as Ho'.
  cbn [ordered_for] in Ho. apply andb_true_iff in Ho. destruct Ho as [Hr Ho].
  cbn [page_cur_ge].
  destruct (0 <? cmp_dtuple_rec tuple r)%Z eqn:Hpos.
  - apply Z.ltb_lt in Hpos. destruct (IH Ho) as [IH1 IH2].
    assert (Hm : tuple_matches tuple r = false)
      by (apply Z.eqb_neq; lia).
    assert (M1 : mark_if (tuple_matches tuple) r = r)
      by (unfold mark_if; rewrite Hm; reflexivity).
    assert (M2 : live_match tuple r = false)
      by (unfold live_match; rewrite Hm; apply andb_false_r).
    cbn [firstn skipn app map existsb]. rewrite IH1, IH2, M1, M2. auto.
  - apply Z.ltb_ge in Hpos. cbn [firstn skipn app].
    apply delete_run_ordered; [exact Ho'|].
    constructor; [exact Hpos|].
    apply Forall_forall. intros r' Hin.
    rewrite forallb_forall in Hr. specialize (Hr r' Hin).
    apply Z.leb_le in Hr. lia.
Qed.

(** X4.  On an engine that opens the cursor, grants every row lock at once
    and sets every delete mark, and on an index in key order,
    [delete_record] delete-marks every record that compares equal to the
    tuple and no other; it returns DB_SUCCESS when one of them was live
    and DB_RECORD_NOT_FOUND otherwise. *)
Theorem delete_record_deletes_matches (tuple : dtuple_t) (w : world) :
  cooperative w = true ->
  ordered_for tuple (clust_index w) = true ->
  exists w',
    delete_record tuple w
    = Some (if existsb (live_match tuple) (clust_index w)
            then DB_SUCCESS else DB_RECORD_NOT_FOUND, w') /\
    clust_index w' = map (mark_if (tuple_matches tuple)) (clust_index w).
Proof.
  intros Hc Ho. destruct (delete_record_full_run tuple w Hc) as [w' [Hr Hi]].
  destruct (delete_from_ge_ordered tuple (clust_index w) Ho) as [O1 O2].
  exists w'. unfold delete_record. rewrite Hr, O2. split; [reflexivity|].
  rewrite Hi. exact O1.
Qed.

Lemma delete_all_body_at (pre suf : list rec_t) (a : rec_t) (w : world) :
  at_rec CLUST pre (a :: suf) w -> grants w ->
  exists w1,
    delete_all_body (DB_SUCCESS, w) = inr (DB_SUCCESS, w1) /\
    at_rec CLUST (pre ++ [mark_if not_min_rec a]) suf w1 /\ grants w1.
Proof.
  intros Hat Hg. unfold delete_all_body.
  rewrite (at_rec_after_last _ _ _ _ Hat), (at_rec_get _ _ _ _ Hat).
  unfold rec_get_deleted_flag, delete_all_next_rec, mark_if, not_min_rec.
  destruct (rec_deleted a) eqn:Hdel.
  { destruct (at_rec_next _ pre suf a w Hat) as [-> Hat1].
    eexists. split; [reflexivity|]. split; [|exact Hg].
    destruct (negb (rec_min_rec a)); [|exact Hat1].
    rewrite (rec_set_deleted_id a Hdel). exact Hat1. }
  destruct (rec_min_rec a) eqn:Hmin; cbn [negb].
  { destruct (at_rec_next _ pre suf a w Hat) as [-> Hat1].
    eexists. split; [reflexivity|]. split; [exact Hat1|exact Hg]. }
  destruct (lock_step CLUST pre (a :: suf) (length pre) w Hat Hg)
    as [e [w2 [-> [L1 [L2 [Hat2 Hg2]]]]]].
  rewrite L1, L2.
  destruct (del_mark_step pre suf a w2 Hat2 Hg2) as [w3 [-> [Hat3 Hg3]]].
  change (is_error DB_SUCCESS) with false. cbv iota.
  destruct (at_rec_next _ pre suf (rec_set_deleted a) w3 Hat3) as [-> Hat4].
  eexists. split; [reflexivity|]. split; [exact Hat4|exact Hg3].
Qed.

Lemma delete_all_scan_run (suf : list rec_t) :
  forall (pre : list rec_t) (w : world) (fuel : nat),
    at_rec CLUST pre suf w -> grants w -> length suf < fuel ->
    exists w',
      delete_all_scan fuel DB_SUCCESS w = Some (DelAllExit DB_SUCCESS, w') /\
      clust_index w' = pre ++ map (mark_if not_min_rec) suf.
Proof.
  induction suf as [|a suf IH]; intros pre w fuel Hat Hg Hfuel;
    (destruct fuel as [|fuel]; [lia|]); unfold delete_all_scan; cbn [loop].
  - unfold delete_all_body. rewrite (at_rec_after_last _ _ _ _ Hat).
    exists w. split; [reflexivity|]. exact (at_rec_clust _ _ _ Hat).
  - destruct (delete_all_body_at pre suf a w Hat Hg) as [w1 [-> [Hat1 Hg1]]].
    assert (Hfuel' : length suf < fuel) by (cbn [length] in Hfuel; lia).
    destruct (IH _ w1 fuel Hat1 Hg1 Hfuel') as [w' [Hs Hi]].
    exists w'. split; [exact Hs|]. rewrite Hi, <- app_assoc. reflexivity.
Qed.

(** X5.  On an engine that opens the cursor, grants every row lock at once
    and sets every delete mark, [delete_all] returns DB_SUCCESS and leaves
    every record delete-marked but those that carry the min-rec flag,
    which it leaves as they are. *)
Theorem delete_all_deletes_every_row (w : world) :
  cooperative w = true ->
  exists w',
    delete_all w = Some (DB_SUCCESS, w') /\
    clust_index w' = map (mark_if not_min_rec) (clust_index w).
Proof.
  intros Hc. destruct (cooperative_parts w Hc) as (Ho & Hl & Hd).
  unfold delete_all, delete_all_loop, retry_fuel. cbn [loop].
  unfold delete_all_retry_body, delete_all_attempt, open_leaf. cbv zeta.
  change (engine (mtr_start w)) with (engine w).
  rewrite Ho, dberr_eqb_refl. cbn [negb]. cbv beta iota.
  match goal with |- context [btr_pcur_move_to_next ?x] =>
    set (w3 := x);
    assert (H3 : pcur_pos w3 = 0) by reflexivity;
    assert (Hat : at_rec CLUST [] (clust_index w) (set_pcur_pos 1 w3))
      by (unfold at_rec; auto);
    assert (Hg : grants (set_pcur_pos 1 w3)) by (split; [exact Hl|exact Hd]);
    clearbody w3
  end.
  rewrite (move_from_infimum w3 H3). cbn [negb].
  set (w4 := set_pcur_pos 1 w3) in *. clearbody w4.
  destruct (delete_all_scan_run _ [] w4 _ Hat Hg (at_rec_fuel _ _ _ _ Hat))
    as [w' [Hs Hi]].
  rewrite Hs. eexists. split; [reflexivity|]. exact Hi.
Qed.

(** ** What the reading scans process *)

Lemma processed_records_log (ev : event) (w : world) :
  processed_records (log ev w)
  = processed_records w ++ match ev with EvProcess r _ => [r] | _ => [] end.
Proof.
  unfold processed_records, history. cbn [trace log rev].
  rewrite flat_map_app. cbn [flat_map]. rewrite app_nil_r. reflexivity.
Qed.

Lemma page_cur_le_In (tuple : dtuple_t) (recs : list rec_t) (r : rec_t) :
  page_cur_le tuple recs = Some r -> In r recs.
Proof.
  revert r. induction recs as [|a recs IH]; cbn [page_cur_le]; intros r H;
    [discriminate|].
  destruct (0 <=? cmp_dtuple_rec tuple a)%Z; [|discriminate].
  destruct (page_cur_le tuple recs) as [r'|].
  - right. apply IH. exact H.
  - left. congruence.
Qed.

Ltac view_facts :=
  unfold same_view, same_place, view_is_open in *;
  cbn [trx_present read_view_open changes_visible vers_build log pcur_index
       clust_index sec_index pcur_pos set_pcur_pos row_build_row_ref engine
       set_engine] in *;
  intuition congruence.

Lemma mvcc_seen (rec : rec_t) (cb : RecordCallback) (w0 w : world) :
  (forall r offs, process_record cb r offs = true) ->
  fst (vers_build w0 rec) = DB_SUCCESS ->
  same_view w0 w ->
  exists w',
    process_record_with_mvcc rec (rec_get_offsets rec) cb true w
    = (DB_SUCCESS, true, w') /\
    same_view w0 w' /\ same_place w w' /\ engine w' = engine w /\
    processed_records w' = processed_records w ++ version_seen w0 rec.
Proof.
  intros Hp Hv (V1 & V2 & V3 & V4 & V5 & V6).
  unfold process_record_with_mvcc, version_seen, creator_visible,
    row_vers_build_for_consistent_read, call_process_record,
    rec_get_deleted_flag, row_get_rec_trx_id.
  unfold view_is_open in V2. rewrite V2, V3, V4.
  destruct (trx_present w0) eqn:T0; cbn [andb].
  - rewrite negb_orb.
    destruct (negb (rec_trx_id rec =? 0)%Z
              && negb (changes_visible w0 (rec_trx_id rec))).
    + destruct (vers_build w0 rec) as [error version]. cbn [fst snd] in *.
      subst error. cbn [dberr_eqb]. rewrite dberr_eqb_refl.
      destruct version as [v|]; cbn [negb].
      * destruct (rec_deleted v); cbn [negb].
        -- eexists. split; [reflexivity|].
           rewrite processed_records_log, app_nil_r.
           view_facts.
        -- rewrite Hp. eexists. split; [reflexivity|].
           rewrite !processed_records_log, app_nil_r.
           view_facts.
      * eexists. split; [reflexivity|].
        rewrite processed_records_log, app_nil_r.
        view_facts.
    + destruct (rec_deleted rec); cbn [negb].
      * eexists. split; [reflexivity|]. rewrite app_nil_r.
        view_facts.
      * rewrite Hp. eexists. split; [reflexivity|].
        rewrite processed_records_log.
        view_facts.
  - destruct (rec_deleted rec); cbn [negb].
    + eexists. split; [reflexivity|]. rewrite app_nil_r.
      view_facts.
    + rewrite Hp. eexists. split; [reflexivity|].
      rewrite processed_records_log.
      view_facts.
Qed.

Lemma ensure_read_view_same (w : world) :
  same_view w (ensure_read_view (mtr_start w)) /\
  processed_records (ensure_read_view (mtr_start w)) = processed_records w /\
  sec_index (ensure_read_view (mtr_start w)) = sec_index w /\
  engine (ensure_read_view (mtr_start w)) = engine w.
Proof.
  unfold ensure_read_view.
  change (trx_present (mtr_start w)) with (trx_present w).
  change (read_view_open (mtr_start w)) with (read_view_open w).
  unfold same_view, view_is_open, read_view_do_open,
    trx_start_if_not_started, mtr_start.
  destruct (trx_present w) eqn:T, (read_view_open w) eqn:V; cbn [andb negb];
    rewrite ?processed_records_log;
    repeat match goal with
      | |- context [processed_records (set_read_view_open ?b ?x)] =>
          change (processed_records (set_read_view_open b x))
            with (processed_records x)
      end;
    rewrite ?processed_records_log, ?app_nil_r;
    cbn [trx_present read_view_open changes_visible vers_build clust_index
         sec_index row_build_row_ref engine log set_read_view_open];
    rewrite ?T, ?V; repeat split; reflexivity.
Qed.

Section ReadRun.

Variable tuple : option dtuple_t.
Variable cb : RecordCallback.
Variable w0 : world.

Hypothesis keeps_going : forall r offs, process_record cb r offs = true.

Lemma read_body_at (i : index_id) (pre suf : list rec_t) (a : rec_t)
  (n : nat) (w : world) :
  fst (vers_build w0 a) = DB_SUCCESS ->
  same_view w0 w -> at_rec i pre (a :: suf) w ->
  match compare_record cb tuple a (rec_get_offsets a) with
  | PROCESS =>
      exists w1,
        read_body tuple cb (n, w) = inr (S n, w1) /\
        same_view w0 w1 /\ at_rec i (pre ++ [a]) suf w1 /\
        processed_records w1 = processed_records w ++ version_seen w0 a
  | SKIP =>
      exists w1,
        read_body tuple cb (n, w) = inr (n, w1) /\
        same_view w0 w1 /\ at_rec i (pre ++ [a]) suf w1 /\
        processed_records w1 = processed_records w
  | STOP =>
      exists w1,
        read_body tuple cb (n, w) = inl (ReadLoopEnd, n, w1) /\
        processed_records w1 = processed_records w
  end.
Proof.
  intros Hvb Hview Hat. unfold read_body. rewrite (at_rec_get _ _ _ _ Hat).
  cbv zeta.
  destruct (compare_record cb tuple a (rec_get_offsets a)) eqn:Hverdict.
  - destruct (mvcc_seen a cb w0 (log (EvCompare a PROCESS) w)
                keeps_going Hvb Hview)
      as [w2 [Hm [Hview2 [Hplace2 [_ Hp2]]]]].
    pose proof (at_rec_same_place _ _ _ _ _ Hplace2
                  (at_rec_log _ _ _ (EvCompare a PROCESS) _ Hat)) as Hat2.
    rewrite Hm. change (is_error DB_SUCCESS) with false. cbn [orb negb].
    unfold read_next_rec.
    destruct (at_rec_next _ pre suf a w2 Hat2) as [Hmove Hat3].
    rewrite Hmove. eexists. split; [reflexivity|].
    split; [exact Hview2|]. split; [exact Hat3|].
    change (processed_records (set_pcur_pos (S (S (length pre))) w2))
      with (processed_records w2).
    rewrite Hp2, processed_records_log, app_nil_r. reflexivity.
  - unfold read_next_rec.
    destruct (at_rec_next _ pre suf a _
                (at_rec_log _ _ _ (EvCompare a SKIP) _ Hat)) as [Hmove Hat3].
    rewrite Hmove. eexists. split; [reflexivity|].
    split; [exact Hview|]. split; [exact Hat3|].
    change (processed_records (set_pcur_pos _ (log (EvCompare a SKIP) w)))
      with (processed_records (log (EvCompare a SKIP) w)).
    rewrite processed_records_log, app_nil_r. reflexivity.
  - eexists. split; [reflexivity|].
    rewrite processed_records_log, app_nil_r. reflexivity.
Qed.

Lemma read_scan_run (suf : list rec_t) :
  forall (pre : list rec_t) (w : world) (n fuel : nat),
    (forall rec, In rec suf -> fst (vers_build w0 rec) = DB_SUCCESS) ->
    same_view w0 w -> at_rec CLUST pre suf w -> length suf < fuel ->
    exists w',
      read_scan fuel tuple cb n w
      = Some (ReadLoopEnd,
              n + length (wanted (fun r => compare_record cb tuple r
                                             (rec_get_offsets r)) suf), w') /\
      processed_records w'
      = processed_records w
        ++ flat_map (version_seen w0)
             (wanted (fun r => compare_record cb tuple r (rec_get_offsets r))
                suf).
Proof.
  induction suf as [|a suf IH]; intros pre w n fuel Hvb Hview Hat Hfuel;
    (destruct fuel as [|fuel]; [cbn [length] in Hfuel; lia|]);
    unfold read_scan; cbn [loop].
  - unfold read_body. rewrite (at_rec_get _ _ _ _ Hat).
    exists w. unfold wanted. cbn. rewrite Nat.add_0_r, app_nil_r. auto.
  - assert (Hfuel' : length suf < fuel) by (cbn [length] in Hfuel; lia).
    assert (Hvb' : forall rec, In rec suf ->
                               fst (vers_build w0 rec) = DB_SUCCESS)
      by (intros rec Hin; apply Hvb; right; exact Hin).
    pose proof (read_body_at CLUST pre suf a n w (Hvb a (or_introl eq_refl))
                  Hview Hat) as B.
    unfold wanted. cbn [until_stop].
    destruct (compare_record cb tuple a (rec_get_offsets a)) eqn:Hverdict;
      cbn [filter]; rewrite ?Hverdict; cbn [action_eqb].
    + destruct B as [w1 [-> [Hview1 [Hat1 Hp1]]]].
      destruct (IH (pre ++ [a]) w1 (S n) fuel Hvb' Hview1 Hat1 Hfuel')
        as [w' [Hs Hp]].
      exists w'. split.
      * unfold read_scan in Hs. rewrite Hs. cbn [length].
        fold (wanted (fun r => compare_record cb tuple r (rec_get_offsets r))
                suf).
        replace (n + S (length (wanted (fun r => compare_record cb tuple r
                                                   (rec_get_offsets r)) suf)))
          with (S n + length (wanted (fun r => compare_record cb tuple r
                                                 (rec_get_offsets r)) suf))
          by lia.
        reflexivity.
      * rewrite Hp, Hp1. cbn [flat_map]. rewrite <- app_assoc. reflexivity.
    + destruct B as [w1 [-> [Hview1 [Hat1 Hp1]]]].
      destruct (IH (pre ++ [a]) w1 n fuel Hvb' Hview1 Hat1 Hfuel')
        as [w' [Hs Hp]].
      exists w'. split; [exact Hs|]. rewrite Hp, Hp1. reflexivity.
    + destruct B as [w1 [-> Hp1]]. exists w1.
      split; [cbn; rewrite Nat.add_0_r; reflexivity|].
      rewrite Hp1. cbn. rewrite app_nil_r. reflexivity.
Qed.

End ReadRun.

(** X6.  When the cursor can be positioned, the processor never ends the
    scan and the version builder never fails, [read] hands to the
    processor, in index order, what the read view shows of every record
    the comparator answers PROCESS to, from the first record >= tuple (the
    first record of the index without a tuple) up to the first STOP.  It
    returns DB_SUCCESS when the comparator answered PROCESS at least once
    or no tuple was given, DB_RECORD_NOT_FOUND otherwise, whether or not
    anything was visible. *)
Theorem read_processes_wanted (tuple : option dtuple_t) (cb : RecordCallback)
  (w : world) :
  next_answer DB_SUCCESS (o_open (engine w)) = DB_SUCCESS ->
  (forall rec offs, process_record cb rec offs = true) ->
  (forall rec, In rec (clust_index w) -> fst (vers_build w rec) = DB_SUCCESS) ->
  exists w',
    read tuple cb w
    = Some (if (0 <? length (read_hits tuple cb (clust_index w)))
               || match tuple with None => true | Some _ => false end
            then DB_SUCCESS else DB_RECORD_NOT_FOUND, w') /\
    processed_records w'
    = processed_records w
      ++ flat_map (version_seen w) (read_hits tuple cb (clust_index w)).
Proof.
  intros Hopen Hgo Hvb.
  destruct (ensure_read_view_same w) as (Hview & Hproc & _ & Heng).
  assert (Hidx : clust_index (ensure_read_view (mtr_start w)) = clust_index w)
    by (destruct Hview as (_ & _ & _ & _ & H & _); exact H).
  unfold read, read_full. cbv zeta.
  set (w2 := ensure_read_view (mtr_start w)) in *. clearbody w2.
  assert (Hscan : forall w4,
    same_view w w4 ->
    at_rec CLUST (firstn (read_start tuple (clust_index w)) (clust_index w))
      (skipn (read_start tuple (clust_index w)) (clust_index w)) w4 ->
    processed_records w4 = processed_records w ->
    exists w',
      match read_finish tuple (read_scan (scan_fuel w4) tuple cb 0 w4) with
      | Some (err, _, _, w'0) => Some (err, w'0)
      | None => None
      end
      = Some (if (0 <? length (read_hits tuple cb (clust_index w)))
                 || match tuple with None => true | Some _ => false end
              then DB_SUCCESS else DB_RECORD_NOT_FOUND, w') /\
      processed_records w'
      = processed_records w
        ++ flat_map (version_seen w) (read_hits tuple cb (clust_index w))).
  { intros w4 Hv4 Hat4 Hp4.
    destruct (read_scan_run tuple cb w Hgo
                (skipn (read_start tuple (clust_index w)) (clust_index w))
                _ w4 0 (scan_fuel w4)
                (fun rec Hin => Hvb rec (in_skipn _ _ _ Hin)) Hv4 Hat4
                (at_rec_fuel _ _ _ _ Hat4))
      as [w' [Hs Hp]].
    rewrite Hs. cbn [read_finish Nat.add]. eexists. split; [reflexivity|].
    change (processed_records (mtr_commit w'))
      with (processed_records (log EvMtrCommit w')).
    rewrite processed_records_log, app_nil_r, Hp, Hp4. reflexivity. }
  destruct tuple as [t|].
  - unfold btr_pcur_open_on_user_rec. cbv zeta.
    change (engine (set_pcur_index CLUST w2)) with (engine w2).
    rewrite Heng, Hopen, dberr_eqb_refl. cbn [negb]. cbv beta iota.
    apply Hscan.
    + revert Hview. unfold same_view, view_is_open. intros Hview. exact Hview.
    + unfold at_rec, cursor_recs.
      cbn [pcur_index clust_index pcur_pos set_pcur_pos log set_engine
           set_pcur_index read_start].
      rewrite Hidx, firstn_skipn, firstn_length_le by apply page_cur_ge_le.
      auto.
    + change (processed_records (set_pcur_pos _ (log ?ev ?x)))
        with (processed_records (log ev x)).
      rewrite processed_records_log, app_nil_r. exact Hproc.
  - unfold open_leaf. cbv zeta.
    change (engine (set_pcur_index CLUST w2)) with (engine w2).
    rewrite Heng, Hopen, dberr_eqb_refl. cbn [negb]. cbv beta iota.
    unfold btr_pcur_move_to_next, btr_pcur_is_after_last.
    cbn [pcur_pos set_pcur_pos log Nat.ltb Nat.leb negb]. cbv beta iota.
    apply Hscan.
    + revert Hview. unfold same_view, view_is_open. intros Hview. exact Hview.
    + unfold at_rec, cursor_recs.
      cbn [pcur_index clust_index pcur_pos set_pcur_pos log set_engine
           set_pcur_index read_start firstn skipn length app].
      rewrite Hidx. auto.
    + match goal with |- processed_records ?x = _ =>
        change (processed_records x)
          with (processed_records
                  (log (EvCursorOpen DB_SUCCESS) w2)) end.
      rewrite processed_records_log, app_nil_r. exact Hproc.
Qed.

(** ** read_by_index as a join of the two indexes *)

Lemma opens_next (w : world) :
  opens w ->
  next_answer DB_SUCCESS (o_open (engine w)) = DB_SUCCESS /\
  forallb (fun e => e =?e DB_SUCCESS) (tl (o_open (engine w))) = true.
Proof.
  intros H.
  destruct (next_answer_forallb (fun e => e =?e DB_SUCCESS) DB_SUCCESS _
              (dberr_eqb_refl _) H) as [H1 H2].
  apply dberr_eqb_eq in H1. auto.
Qed.

Section ReadByIndexRun.

Variable search_tuple : dtuple_t.
Variable cb : RecordCallback.
Variable w0 : world.

Hypothesis keeps_going : forall r offs, process_record cb r offs = true.
Hypothesis versions_built :
  forall rec, In rec (clust_index w0) -> fst (vers_build w0 rec) = DB_SUCCESS.

Lemma lookup_seen (sec_rec : rec_t) (n : nat) (w : world) :
  same_view w0 w -> opens w ->
  exists w',
    lookup_clustered_record sec_rec cb n true w
    = (DB_SUCCESS, n + length (clustered_of w0 sec_rec), true, w') /\
    same_view w0 w' /\ same_place w w' /\ opens w' /\
    processed_records w'
    = processed_records w
      ++ flat_map (version_seen w0) (clustered_of w0 sec_rec).
Proof.
  intros Hview Hopens. destruct (opens_next w Hopens) as [Ho Ht].
  pose proof Hview as (V1 & V2 & V3 & V4 & V5 & V6).
  unfold lookup_clustered_record, btr_pcur_open_le, clustered_of. cbv zeta.
  change (engine (log EvSavepoint w)) with (engine w).
  rewrite Ho, dberr_eqb_refl.
  match goal with |- context [page_cur_le ?t (clust_index ?x)] =>
    change (clust_index x) with (clust_index w)
  end.
  rewrite V5, V6.
  set (w2 := log (EvCursorOpen DB_SUCCESS) _).
  assert (Hview2 : same_view w0 w2) by (subst w2; view_facts).
  assert (Hplace2 : same_place w w2) by (subst w2; view_facts).
  assert (Hopens2 : opens w2) by (subst w2; exact Ht).
  assert (Hp2 : processed_records w2 = processed_records w).
  { subst w2. rewrite processed_records_log, app_nil_r.
    change (processed_records (set_engine ?e (log EvSavepoint w)))
      with (processed_records (log EvSavepoint w)).
    rewrite processed_records_log, app_nil_r. reflexivity. }
  clearbody w2.
  destruct (page_cur_le (row_build_row_ref w0 sec_rec) (clust_index w0))
    as [clust_rec|] eqn:Hle.
  - destruct (cmp_dtuple_rec (row_build_row_ref w0 sec_rec) clust_rec =? 0)%Z.
    + destruct (mvcc_seen clust_rec cb w0 w2 keeps_going
                  (versions_built _ (page_cur_le_In _ _ _ Hle)) Hview2)
        as [w3 [-> [Hview3 [Hplace3 [Heng3 Hp3]]]]].
      cbn [dberr_eqb negb]. cbv iota. eexists. split.
      * cbn [length flat_map]. rewrite Nat.add_1_r. reflexivity.
      * rewrite processed_records_log, Hp3, Hp2. cbn [flat_map].
        rewrite !app_nil_r. unfold opens in *.
        change (engine (log EvRollbackToSavepoint w3)) with (engine w3).
        rewrite Heng3. view_facts.
    + eexists. split.
      * cbn [length flat_map]. rewrite Nat.add_0_r. reflexivity.
      * rewrite processed_records_log, Hp2. cbn [flat_map].
        rewrite !app_nil_r. unfold opens in *. view_facts.
  - eexists. split.
    + cbn [length flat_map]. rewrite Nat.add_0_r. reflexivity.
    + rewrite processed_records_log, Hp2. cbn [flat_map].
      rewrite !app_nil_r. unfold opens in *. view_facts.
Qed.

Lemma read_by_index_body_at (pre suf : list rec_t) (a : rec_t) (n : nat)
  (w : world) :
  same_view w0 w -> opens w -> at_rec SEC pre (a :: suf) w ->
  match compare_record cb (Some search_tuple) a (rec_get_offsets a) with
  | PROCESS =>
      exists w1,
        read_by_index_body search_tuple cb (n, w)
        = inr (n + length (clustered_of w0 a), w1) /\
        same_view w0 w1 /\ opens w1 /\ at_rec SEC (pre ++ [a]) suf w1 /\
        processed_records w1
        = processed_records w ++ flat_map (version_seen w0) (clustered_of w0 a)
  | SKIP =>
      exists w1,
        read_by_index_body search_tuple cb (n, w) = inr (n, w1) /\
        same_view w0 w1 /\ opens w1 /\ at_rec SEC (pre ++ [a]) suf w1 /\
        processed_records w1 = processed_records w
  | STOP =>
      exists w1,
        read_by_index_body search_tuple cb (n, w)
        = inl (ReadLoopEnd, n, w1) /\
        processed_records w1 = processed_records w
  end.
Proof.
  intros Hview Hopens Hat. unfold read_by_index_body.
  rewrite (at_rec_get _ _ _ _ Hat). cbv zeta.
  destruct (compare_record cb (Some search_tuple) a (rec_get_offsets a))
    eqn:Hverdict.
  - destruct (lookup_seen a n (log (EvCompare a PROCESS) w) Hview Hopens)
      as [w2 [-> [Hview2 [Hplace2 [Hopens2 Hp2]]]]].
    pose proof (at_rec_same_place _ _ _ _ _ Hplace2
                  (at_rec_log _ _ _ (EvCompare a PROCESS) _ Hat)) as Hat2.
    change (is_error DB_SUCCESS) with false. cbn [orb negb].
    unfold read_next_rec.
    destruct (at_rec_next _ pre suf a w2 Hat2) as [Hmove Hat3].
    rewrite Hmove. eexists. split; [reflexivity|].
    split; [exact Hview2|]. split; [exact Hopens2|]. split; [exact Hat3|].
    change (processed_records (set_pcur_pos (S (S (length pre))) w2))
      with (processed_records w2).
    rewrite Hp2, processed_records_log, app_nil_r. reflexivity.
  - unfold read_next_rec.
    destruct (at_rec_next _ pre suf a _
                (at_rec_log _ _ _ (EvCompare a SKIP) _ Hat)) as [Hmove Hat3].
    rewrite Hmove. eexists. split; [reflexivity|].
    split; [exact Hview|]. split; [exact Hopens|]. split; [exact Hat3|].
    change (processed_records (set_pcur_pos _ (log (EvCompare a SKIP) w)))
      with (processed_records (log (EvCompare a SKIP) w)).
    rewrite processed_records_log, app_nil_r. reflexivity.
  - eexists. split; [reflexivity|].
    rewrite processed_records_log, app_nil_r. reflexivity.
Qed.

Lemma read_by_index_scan_run (suf : list rec_t) :
  forall (pre : list rec_t) (w : world) (n fuel : nat),
    same_view w0 w -> opens w -> at_rec SEC pre suf w -> length suf < fuel ->
    exists w',
      read_by_index_scan fuel search_tuple cb n w
      = Some (ReadLoopEnd,
              n + length
                    (flat_map (clustered_of w0)
                       (wanted (fun r => compare_record cb (Some search_tuple)
                                           r (rec_get_offsets r)) suf)),
              w') /\
      processed_records w'
      = processed_records w
        ++ flat_map (version_seen w0)
             (flat_map (clustered_of w0)
                (wanted (fun r => compare_record cb (Some search_tuple) r
                                    (rec_get_offsets r)) suf)).
Proof.
  induction suf as [|a suf IH]; intros pre w n fuel Hview Hopens Hat Hfuel;
    (destruct fuel as [|fuel]; [cbn [length] in Hfuel; lia|]);
    unfold read_by_index_scan; cbn [loop].
  - unfold read_by_index_body. rewrite (at_rec_get _ _ _ _ Hat).
    exists w. unfold wanted. cbn. rewrite Nat.add_0_r, app_nil_r. auto.
  - assert (Hfuel' : length suf < fuel) by (cbn [length] in Hfuel; lia).
    pose proof (read_by_index_body_at pre suf a n w Hview Hopens Hat) as B.
    unfold wanted. cbn [until_stop].
    destruct (compare_record cb (Some search_tuple) a (rec_get_offsets a))
      eqn:Hverdict; cbn [filter]; rewrite ?Hverdict; cbn [action_eqb].
    + destruct B as [w1 [-> [Hview1 [Hopens1 [Hat1 Hp1]]]]].
      destruct (IH (pre ++ [a]) w1 (n + length (clustered_of w0 a)) fuel
                  Hview1 Hopens1 Hat1 Hfuel') as [w' [Hs Hp]].
      exists w'. unfold read_by_index_scan in Hs. rewrite Hs.
      cbn [flat_map]. rewrite flat_map_app, !length_app, Hp, Hp1.
      unfold wanted. rewrite <- app_assoc, Nat.add_assoc. auto.
    + destruct B as [w1 [-> [Hview1 [Hopens1 [Hat1 Hp1]]]]].
      destruct (IH (pre ++ [a]) w1 n fuel Hview1 Hopens1 Hat1 Hfuel')
        as [w' [Hs Hp]].
      exists w'. split; [exact Hs|]. rewrite Hp, Hp1. reflexivity.
    + destruct B as [w1 [-> Hp1]]. exists w1.
      split; [cbn; rewrite Nat.add_0_r; reflexivity|].
      rewrite Hp1. cbn. rewrite app_nil_r. reflexivity.
Qed.

End ReadByIndexRun.

(** X7.  When every cursor can be positioned, the processor never ends the
    scan and the version builder never fails, [read_by_index] joins the
    two indexes: for every secondary record the comparator answers PROCESS
    to, from the first one >= tuple up to the first STOP, it looks up the
    clustered record with the key of the row reference and hands to the
    processor what the read view shows of it.  It returns DB_SUCCESS when
    at least one clustered record was found, visible or not, and
    DB_RECORD_NOT_FOUND otherwise. *)
Theorem read_by_index_joins (search_tuple : dtuple_t) (cb : RecordCallback)
  (w : world) :
  opens w ->
  (forall rec offs, process_record cb rec offs = true) ->
  (forall rec, In rec (clust_index w) -> fst (vers_build w rec) = DB_SUCCESS) ->
  exists w',
    read_by_index search_tuple cb w
    = Some (if 0 <? length (read_by_index_rows search_tuple cb w)
            then DB_SUCCESS else DB_RECORD_NOT_FOUND, w') /\
    processed_records w'
    = processed_records w
      ++ flat_map (version_seen w) (read_by_index_rows search_tuple cb w).
Proof.
  intros Hopens Hgo Hvb. destruct (opens_next w Hopens) as [Ho Ht].
  destruct (ensure_read_view_same w) as (Hview & Hproc & Hsec & Heng).
  unfold read_by_index, btr_pcur_open_on_user_rec. cbv zeta.
  set (w2 := ensure_read_view (mtr_start w)) in *. clearbody w2.
  change (engine (set_pcur_index SEC w2)) with (engine w2).
  rewrite Heng, Ho, dberr_eqb_refl. cbn [negb]. cbv beta iota.
  match goal with |- context [read_by_index_scan (scan_fuel ?x) _ _ _ _] =>
    set (w4 := x)
  end.
  assert (Hview4 : same_view w w4) by (subst w4; view_facts).
  assert (Hopens4 : opens w4) by (subst w4; exact Ht).
  assert (Hat4 : at_rec SEC
                   (firstn (page_cur_ge search_tuple (sec_index w))
                      (sec_index w))
                   (skipn (page_cur_ge search_tuple (sec_index w))
                      (sec_index w)) w4).
  { subst w4. unfold at_rec, cursor_recs.
    cbn [pcur_index sec_index pcur_pos set_pcur_pos log set_engine
         set_pcur_index].
    rewrite Hsec, firstn_skipn, firstn_length_le by apply page_cur_ge_le.
    auto. }
  assert (Hp4 : processed_records w4 = processed_records w).
  { subst w4.
    change (processed_records (set_pcur_pos _ (log ?ev ?x)))
      with (processed_records (log ev x)).
    rewrite processed_records_log, app_nil_r. exact Hproc. }
  clearbody w4.
  destruct (read_by_index_scan_run search_tuple cb w Hgo Hvb _ _ w4 0
              (scan_fuel w4) Hview4 Hopens4 Hat4 (at_rec_fuel _ _ _ _ Hat4))
    as [w' [Hs Hp]].
  rewrite Hs. cbn [read_by_index_finish Nat.add].
  eexists. split; [reflexivity|].
  change (processed_records (mtr_commit w'))
    with (processed_records (log EvMtrCommit w')).
  rewrite processed_records_log, app_nil_r, Hp, Hp4. reflexivity.
Qed.

(** ** select_for_update and replace_record *)

Lemma ensure_read_view_fields (w : world) :
  let w2 := set_pcur_index CLUST (ensure_read_view (mtr_start w)) in
  engine w2 = engine w /\ clust_index w2 = clust_index w /\
  pcur_index w2 = CLUST /\ trx_present w2 = trx_present w /\
  changes_visible w2 = changes_visible w /\
  trx_present w2 && read_view_open w2 = trx_present w /\
  count_events is_lock w2 = count_events is_lock w /\
  count_events is_lock_wait w2 = count_events is_lock_wait w.
Proof.
  unfold ensure_read_view, read_view_do_open, trx_start_if_not_started,
    mtr_start, count_events.
  cbn [trx_present read_view_open log].
  destruct (trx_present w) eqn:T, (read_view_open w) eqn:V; cbn;
    rewrite ?T, ?V; repeat split; reflexivity.
Qed.

(** X8.  When [select_for_update] returns DB_SUCCESS, the cursor is bound to
    the clustered index and stands on the first record >= tuple; that
    record compares equal to the tuple, is not hidden by the read view and
    was locked by the one row-lock request of the call, which was granted
    without a wait; the table is unchanged, and the comparator, if there
    is one, did not answer SKIP. *)
Theorem select_for_update_success (search_tuple : dtuple_t)
  (callback : option RecordCallback) (w : world) :
  fst (select_for_update search_tuple callback w) = DB_SUCCESS ->
  let w' := snd (select_for_update search_tuple callback w) in
  exists rec e,
    nth_error (clust_index w) (page_cur_ge search_tuple (clust_index w))
    = Some rec /\
    pcur_index w' = CLUST /\
    btr_pcur_get_user_rec w'
    = Some (page_cur_ge search_tuple (clust_index w), rec) /\
    cmp_dtuple_rec search_tuple rec = 0%Z /\
    (trx_present w = true -> creator_visible w rec = true) /\
    lock_granted e = true /\
    In (EvLock (page_cur_ge search_tuple (clust_index w)) e) (trace w') /\
    count_events is_lock w' = S (count_events is_lock w) /\
    count_events is_lock_wait w' = count_events is_lock_wait w /\
    clust_index w' = clust_index w /\
    match callback with
    | Some cb =>
        compare_record cb (Some search_tuple) rec (rec_get_offsets rec) <> SKIP
    | None => True
    end.
Proof.
  unfold select_for_update. cbv zeta.
  destruct (ensure_read_view_fields w)
    as (Heng & Hidx & Hpi & Htrx & Hcv & Hview & Hlk & Hlw).
  set (w3 := set_pcur_index CLUST (ensure_read_view (mtr_start w))) in *.
  clearbody w3.
  unfold btr_pcur_open_on_user_rec. cbv zeta. rewrite Heng.
  remember (next_answer DB_SUCCESS (o_open (engine w))) as oe eqn:Hoe.
  clear Hoe.
  destruct (oe =?e DB_SUCCESS) eqn:Eo; cbv beta iota; rewrite Eo; cbn [negb].
  2:{ cbn [fst err_exit]. intros ->. discriminate. }
  set (p := page_cur_ge search_tuple (clust_index w)).
  match goal with |- context [btr_pcur_get_user_rec ?x] => set (w4 := x) end.
  assert (H4 : pcur_index w4 = CLUST /\ clust_index w4 = clust_index w /\
               pcur_pos w4 = S p /\ trx_present w4 = trx_present w /\
               changes_visible w4 = changes_visible w /\
               trx_present w4 && read_view_open w4 = trx_present w /\
               count_events is_lock w4 = count_events is_lock w /\
               count_events is_lock_wait w4 = count_events is_lock_wait w).
  { subst w4 p. unfold cursor_recs, count_events in *.
    cbn [pcur_pos pcur_index clust_index set_pcur_pos log set_engine
         trx_present read_view_open changes_visible trace filter is_lock
         is_lock_wait].
    rewrite Hpi, Hidx. repeat split; assumption. }
  clearbody w4. clear Heng Hidx Hpi Htrx Hcv Hview Hlk Hlw w3.
  destruct H4 as (Hpi & Hidx & Hpos & Htrx & Hcv & Hview & Hlk & Hlw).
  unfold btr_pcur_get_user_rec, cursor_recs. rewrite Hpi, Hidx, Hpos.
  destruct (nth_error (clust_index w) p) as [rec|] eqn:Hrec.
  2:{ cbn [fst err_exit]. discriminate. }
  rewrite Hview, Hcv. unfold row_get_rec_trx_id.
  destruct (trx_present w && negb (rec_trx_id rec =? 0)%Z
            && negb (changes_visible w (rec_trx_id rec))) eqn:Hhid.
  { cbn [fst err_exit]. discriminate. }
  destruct (cmp_dtuple_rec search_tuple rec =? 0)%Z eqn:Hcmp; cbn [negb].
  2:{ cbn [fst err_exit]. discriminate. }
  unfold lock_clust_rec_read_check_and_lock. cbv zeta.
  match goal with |- context [next_answer DB_SUCCESS ?l =?e DB_LOCK_WAIT] =>
    remember (next_answer DB_SUCCESS l) as le eqn:Hle; clear Hle end.
  destruct (le =?e DB_LOCK_WAIT) eqn:E1.
  { match goal with |- context [handle_wait ?a ?b ?c] =>
      destruct (handle_wait a b c) as [e2 w8] end.
    destruct (negb (e2 =?e DB_SUCCESS)) eqn:E2; cbn [fst].
    - intros ->. discriminate.
    - discriminate. }
  destruct (negb (le =?e DB_SUCCESS) && negb (le =?e DB_SUCCESS_LOCKED_REC))
    eqn:E2.
  { cbn [fst err_exit]. intros ->. discriminate. }
  pose proof (lock_granted_of le E1 E2) as G.
  assert (Hvis : trx_present w = true -> creator_visible w rec = true).
  { intros T. rewrite T in Hhid. unfold creator_visible, row_get_rec_trx_id.
    cbn [andb] in Hhid.
    destruct (rec_trx_id rec =? 0)%Z; [reflexivity|].
    destruct (changes_visible w (rec_trx_id rec)); [reflexivity|discriminate]. }
  apply Z.eqb_eq in Hcmp.
  destruct callback as [cb|].
  - destruct (compare_record cb (Some search_tuple) rec (rec_get_offsets rec))
      eqn:Hverdict; cbn [action_eqb fst snd err_exit]; try discriminate;
      intros _; exists rec, le;
      unfold btr_pcur_get_user_rec, cursor_recs, count_events in *;
      cbn [pcur_pos pcur_index clust_index set_pcur_pos log set_engine trace
           filter is_lock is_lock_wait length];
      rewrite Hpi, Hidx, Hpos, Hrec, Hlk, Hlw; fold p;
      repeat split; auto; try discriminate; cbn; auto;
      rewrite Hverdict; discriminate.
  - cbn [fst snd]. intros _. exists rec, le.
    unfold btr_pcur_get_user_rec, cursor_recs, count_events in *.
    cbn [pcur_pos pcur_index clust_index set_pcur_pos log set_engine trace
         filter is_lock is_lock_wait length].
    rewrite Hpi, Hidx, Hpos, Hrec, Hlk, Hlw. fold p.
    repeat split; auto; cbn; auto.
Qed.

(** X9.  When the lock on the record found by [select_for_update] is answered
    with DB_LOCK_WAIT, the call never returns DB_SUCCESS, not even when the
    wait ends with the lock granted: it returns DB_LOCK_WAIT_TIMEOUT when
    the wait timed out and DB_LOCK_WAIT in every other case, with the
    mini-transaction committed, no second lock request and no callback
    called. *)
Theorem select_for_update_lock_wait (search_tuple : dtuple_t)
  (callback : option RecordCallback) (w : world) (rec : rec_t) :
  next_answer DB_SUCCESS (o_open (engine w)) = DB_SUCCESS ->
  nth_error (clust_index w) (page_cur_ge search_tuple (clust_index w))
  = Some rec ->
  trx_present w && negb (creator_visible w rec) = false ->
  cmp_dtuple_rec search_tuple rec = 0%Z ->
  next_answer DB_SUCCESS (o_lock (engine w)) = DB_LOCK_WAIT ->
  let r := fst (select_for_update search_tuple callback w) in
  let w' := snd (select_for_update search_tuple callback w) in
  r = after_lock_wait (pending_wait w) /\
  count_events is_lock w' = S (count_events is_lock w) /\
  count_events is_compare w' = count_events is_compare w /\
  count_events is_process w' = count_events is_process w /\
  mtr_started w w' = 1 /\ mtr_committed w w' = 1.
Proof.
  intros Hopen Hrec Hvis Hcmp Hlock.
  assert (Hhid : forall b,
             trx_present w && b
             && negb (row_get_rec_trx_id rec =? 0)%Z
             && negb (changes_visible w (row_get_rec_trx_id rec)) = false).
  { intros b. unfold creator_visible in Hvis.
    destruct (trx_present w); [|reflexivity].
    destruct (row_get_rec_trx_id rec =? 0)%Z;
      [destruct b; reflexivity|].
    destruct (changes_visible w (row_get_rec_trx_id rec));
      [destruct b; reflexivity|discriminate]. }
  unfold select_for_update, mtr_started, mtr_committed, mtr_starts,
    mtr_commits, count_events, after_lock_wait, handle_wait, pending_wait,
    lock_wait.
  unfold_prims. wsimpl.
  destruct (trx_present w && negb (read_view_open w)); wsimpl;
    rewrite Hopen; wsimpl; rewrite Hrec; wsimpl; rewrite Hhid; wsimpl;
    rewrite Hcmp; wsimpl; rewrite Hlock; wsimpl;
    (destruct (next_answer None (o_wait (engine w))) as [wait_err|]; wsimpl;
     [destruct wait_err; wsimpl; repeat split; lia
     |repeat split; lia]).
Qed.

Lemma select_for_update_writes_nothing (search_tuple : dtuple_t)
  (callback : option RecordCallback) (w : world) :
  let w' := snd (select_for_update search_tuple callback w) in
  count_events is_update_call w' = count_events is_update_call w /\
  count_events is_insert w' = count_events is_insert w.
Proof.
  unfold select_for_update, handle_wait, pending_wait, lock_wait.
  unfold_prims. unfold count_events. exec0; split; reflexivity.
Qed.

Lemma update_record_writes_once (update : upd_t) (w : world) :
  let w' := snd (update_record update w) in
  count_events is_update_call w' = S (count_events is_update_call w) /\
  count_events is_insert w' = count_events is_insert w.
Proof.
  unfold update_record, btr_cur_update_in_place, btr_cur_optimistic_update,
    btr_cur_pessimistic_update, btr_store_big_rec_extern_fields, count_events.
  destruct (upd_size_scan update (pcur_rec_offsets w) _ _) as [cmpl_info err].
  exec0; split; reflexivity.
Qed.

(** X10.  Whatever the engine answers, [replace_record] returns and has done
    one of three things: updated once and inserted nothing, ending with
    the commit of [update_record]; inserted once and updated nothing,
    ending with the insertion; or neither, and then it returns an error
    other than DB_RECORD_NOT_FOUND and DB_LOCK_WAIT. *)
Theorem replace_record_updates_or_inserts (search_tuple : dtuple_t)
  (update : upd_t) (insert_tuple : dtuple_t) (w : world) :
  exists r w' e,
    replace_record search_tuple update insert_tuple w = Some (r, w') /\
    replace_outcome insert_tuple w w' r e.
Proof.
  destruct (replace_record_frame search_tuple update insert_tuple w)
    as [r [w' [Hr _]]].
  exists r, w'.
  cut (exists e, replace_outcome insert_tuple w w' r e).
  { intros [e He]. exists e. split; assumption. }
  unfold replace_record, replace_record_loop in Hr.
  refine (loop_post (replace_record_body search_tuple update insert_tuple)
            (fun s => count_events is_update_call s
                      = count_events is_update_call w /\
                      count_events is_insert s = count_events is_insert w)
            (fun res => exists e,
                 replace_outcome insert_tuple w (snd res) (fst res) e)
            _ _ w (r, w') (conj eq_refl eq_refl) Hr).
  intros ws [Hu Hi]. unfold replace_record_body.
  pose proof (select_for_update_writes_nothing search_tuple None ws) as F.
  destruct (select_for_update search_tuple None ws) as [err w1].
  cbn [snd] in F. destruct F as [F1 F2].
  destruct (err =?e DB_SUCCESS) eqn:E1.
  - pose proof (update_record_writes_once update w1) as U.
    destruct (update_record update w1) as [err1 w2]. cbn [snd] in U.
    destruct U as [U1 U2]. exists Updated. cbn [fst snd replace_outcome].
    unfold count_events, mtr_commit in *.
    cbn [trace log filter is_update_call is_insert hd_error].
    repeat split; congruence.
  - destruct (err =?e DB_RECORD_NOT_FOUND) eqn:E2.
    + exists Inserted. unfold insert_record.
      cbn [fst snd replace_outcome]. unfold count_events in *.
      cbn [trace log set_engine filter is_update_call is_insert hd_error
           length].
      repeat split; congruence.
    + destruct (err =?e DB_LOCK_WAIT) eqn:E3.
      * split; congruence.
      * exists GaveUp. cbn [fst snd replace_outcome].
        apply dberr_eqb_neq in E1, E2, E3. repeat split; congruence.
Qed.

Lemma hidden_test (w : world) (rec : rec_t) (b : bool) :
  trx_present w && (if trx_present w then true else b)
  && negb (row_get_rec_trx_id rec =? 0)%Z
  && negb (changes_visible w (row_get_rec_trx_id rec))
  = trx_present w && negb (creator_visible w rec).
Proof.
  unfold creator_visible. destruct (trx_present w); [|reflexivity].
  cbn [andb]. rewrite negb_orb. reflexivity.
Qed.

Lemma select_for_update_found (search_tuple : dtuple_t) (w : world) :
  next_answer DB_SUCCESS (o_open (engine w)) = DB_SUCCESS ->
  lock_granted (next_answer DB_SUCCESS (o_lock (engine w))) = true ->
  key_found search_tuple w = true ->
  fst (select_for_update search_tuple None w) = DB_SUCCESS /\
  count_events is_lock (snd (select_for_update search_tuple None w))
  = S (count_events is_lock w).
Proof.
  intros Hopen Hlock Hfound. unfold key_found in Hfound.
  destruct (nth_error (clust_index w) _) as [rec|] eqn:Hrec; [|discriminate].
  apply andb_true_iff in Hfound. destruct Hfound as [Hm Hv].
  apply negb_true_iff in Hv. unfold tuple_matches in Hm.
  assert (Hhid : forall b,
             trx_present w && b
             && negb (row_get_rec_trx_id rec =? 0)%Z
             && negb (changes_visible w (row_get_rec_trx_id rec)) = false).
  { intros b. unfold creator_visible in Hv.
    destruct (trx_present w); [|reflexivity].
    destruct (row_get_rec_trx_id rec =? 0)%Z;
      [destruct b; reflexivity|].
    destruct (changes_visible w (row_get_rec_trx_id rec));
      [destruct b; reflexivity|discriminate]. }
  unfold select_for_update, count_events. unfold_prims. wsimpl.
  destruct (trx_present w && negb (read_view_open w)); wsimpl;
    rewrite Hopen; wsimpl; rewrite Hrec; wsimpl; rewrite Hhid; wsimpl;
    rewrite Hm; wsimpl;
    destruct (lock_granted_tests _ Hlock) as [L1 L2]; rewrite L1, L2; wsimpl;
    split; reflexivity.
Qed.

Lemma select_for_update_not_found (search_tuple : dtuple_t) (w : world) :
  next_answer DB_SUCCESS (o_open (engine w)) = DB_SUCCESS ->
  key_found search_tuple w = false ->
  fst (select_for_update search_tuple None w) = DB_RECORD_NOT_FOUND /\
  count_events is_lock (snd (select_for_update search_tuple None w))
  = count_events is_lock w /\
  o_insert (engine (snd (select_for_update search_tuple None w)))
  = o_insert (engine w).
Proof.
  intros Hopen Hfound. unfold key_found in Hfound.
  unfold select_for_update, count_events. unfold_prims.
  unfold creator_visible, tuple_matches, row_get_rec_trx_id in *. wsimpl.
  destruct (trx_present w) eqn:T, (read_view_open w) eqn:V; wsimpl;
    rewrite Hopen; wsimpl;
    (destruct (nth_error (clust_index w) _) as [rec|] eqn:Hrec; wsimpl;
     [|repeat split; reflexivity]);
    rewrite ?T, ?V; wsimpl;
    rewrite ?negb_orb in Hfound;
    try (destruct (negb (rec_trx_id rec =? 0)%Z
                   && negb (changes_visible w (rec_trx_id rec))) eqn:Hh;
         wsimpl; [repeat split; reflexivity|]);
    cbn [negb andb] in Hfound; rewrite ?andb_true_r in Hfound;
    rewrite Hfound; wsimpl; repeat split; reflexivity.
Qed.

(** X11.  When the cursor can be positioned and the row lock is granted at
    once, [replace_record] is an upsert: if the first record >= search
    tuple compares equal to it and is not hidden by the read view, the
    record is locked and updated and nothing is inserted; otherwise
    nothing is locked, the insert tuple is inserted and the answer of the
    insertion is returned. *)
Theorem replace_record_upsert (search_tuple : dtuple_t) (update : upd_t)
  (insert_tuple : dtuple_t) (w : world) :
  next_answer DB_SUCCESS (o_open (engine w)) = DB_SUCCESS ->
  lock_granted (next_answer DB_SUCCESS (o_lock (engine w))) = true ->
  exists r w',
    replace_record search_tuple update insert_tuple w = Some (r, w') /\
    if key_found search_tuple w then
      replace_outcome insert_tuple w w' r Updated /\
      count_events is_lock w' = S (count_events is_lock w)
    else
      replace_outcome insert_tuple w w' r Inserted /\
      r = next_answer DB_SUCCESS (o_insert (engine w)) /\
      count_events is_lock w' = count_events is_lock w.
Proof.
  intros Hopen Hlock.
  unfold replace_record, replace_record_loop, replace_fuel. cbn [loop].
  unfold replace_record_body.
  pose proof (select_for_update_writes_nothing search_tuple None w) as F.
  destruct (key_found search_tuple w) eqn:Hfound.
  - destruct (select_for_update_found search_tuple w Hopen Hlock Hfound)
      as [S1 S2].
    destruct (select_for_update search_tuple None w) as [err w1].
    cbn [fst snd] in *. destruct F as [F1 F2]. subst err.
    rewrite dberr_eqb_refl.
    pose proof (update_record_writes_once update w1) as U.
    assert (UL : count_events is_lock (snd (update_record update w1))
                 = count_events is_lock w1).
    { unfold update_record, btr_cur_update_in_place,
        btr_cur_optimistic_update, btr_cur_pessimistic_update,
        btr_store_big_rec_extern_fields, count_events.
      destruct (upd_size_scan update (pcur_rec_offsets w1) _ _)
        as [cmpl_info err].
      exec0; reflexivity. }
    destruct (update_record update w1) as [err1 w2]. cbn [snd] in *.
    destruct U as [U1 U2]. do 2 eexists. split; [reflexivity|].
    cbn [replace_outcome]. unfold count_events, mtr_commit in *.
    cbn [trace log filter is_update_call is_insert is_lock hd_error].
    repeat split; congruence.
  - destruct (select_for_update_not_found search_tuple w Hopen Hfound)
      as [S1 [S2 S3]].
    destruct (select_for_update search_tuple None w) as [err w1].
    cbn [fst snd] in *. destruct F as [F1 F2]. subst err.
    cbn [dberr_eqb]. rewrite dberr_eqb_refl.
    change (DB_RECORD_NOT_FOUND =?e DB_SUCCESS) with false. cbv iota.
    unfold insert_record. do 2 eexists. split; [reflexivity|].
    cbn [replace_outcome]. unfold count_events in *.
    cbn [trace log set_engine filter is_update_call is_insert is_lock hd_error
         length].
    repeat split; congruence.
Qed.

(** ** The reading operations write nothing *)

Lemma read_only_refl (w : world) : read_only w w.
Proof. unfold read_only. auto. Qed.

Lemma read_only_trans (w w1 w2 : world) :
  read_only w w1 -> read_only w1 w2 -> read_only w w2.
Proof. unfold read_only. intros (A & B & C) (D & E & F). repeat split; congruence. Qed.

Lemma mvcc_read_only rec offsets cb c w :
  read_only w (snd (process_record_with_mvcc rec offsets cb c w)).
Proof. unfold read_only, count_events. unfold_mvcc. exec0; auto. Qed.

Lemma lookup_read_only sec_rec cb n c w :
  read_only w (snd (lookup_clustered_record sec_rec cb n c w)).
Proof. unfold read_only, count_events. unfold_mvcc. exec0; auto. Qed.

Lemma read_body_read_only tuple cb s :
  match read_body tuple cb s with
  | inl (_, _, w') => read_only (snd s) w'
  | inr (_, w') => read_only (snd s) w'
  end.
Proof.
  destruct s as [n w]. cbn [snd]. unfold read_body, read_next_rec.
  destruct (btr_pcur_get_user_rec w) as [[pos rec]|]; [|apply read_only_refl].
  destruct (compare_record cb tuple rec (rec_get_offsets rec)).
  - pose proof (mvcc_read_only rec (rec_get_offsets rec) cb true
                  (log (EvCompare rec PROCESS) w)) as F.
    destruct (process_record_with_mvcc _ _ _ _ _) as [[e c] w2]. cbn [snd] in F.
    destruct (is_error e || negb c); [exact F|].
    unfold read_only, count_events in *. unfold_prims. exec0; exact F.
  - unfold read_only, count_events. unfold_prims. exec0; auto.
  - unfold read_only, count_events. cbn. auto.
Qed.

Lemma read_by_index_body_read_only tuple cb s :
  match read_by_index_body tuple cb s with
  | inl (_, _, w') => read_only (snd s) w'
  | inr (_, w') => read_only (snd s) w'
  end.
Proof.
  destruct s as [n w]. cbn [snd]. unfold read_by_index_body, read_next_rec.
  destruct (btr_pcur_get_user_rec w) as [[pos rec]|]; [|apply read_only_refl].
  destruct (compare_record cb (Some tuple) rec (rec_get_offsets rec)).
  - pose proof (lookup_read_only rec cb n true
                  (log (EvCompare rec PROCESS) w)) as F.
    destruct (lookup_clustered_record _ _ _ _ _) as [[[e n'] c] w2].
    cbn [snd] in F.
    destruct (is_error e || negb c); [exact F|].
    unfold read_only, count_events in *. unfold_prims. exec0; exact F.
  - unfold read_only, count_events. unfold_prims. exec0; auto.
  - unfold read_only, count_events. cbn. auto.
Qed.

Lemma read_prologue_read_only (i : index_id) (w : world) :
  read_only w (set_pcur_index i (ensure_read_view (mtr_start w))).
Proof. unfold read_only, count_events. unfold_prims. exec0; auto. Qed.

Lemma open_on_user_rec_read_only tuple w :
  read_only w (snd (btr_pcur_open_on_user_rec tuple w)).
Proof. unfold read_only, count_events. unfold_prims. exec0; auto. Qed.

Lemma open_leaf_read_only i w : read_only w (snd (open_leaf i w)).
Proof. unfold read_only, count_events. unfold_prims. exec0; auto. Qed.

Lemma move_to_next_read_only w : read_only w (snd (btr_pcur_move_to_next w)).
Proof. unfold read_only, count_events. unfold_prims. exec0; auto. Qed.

Lemma read_scan_read_only fuel tuple cb n w r :
  read_scan fuel tuple cb n w = Some r -> read_only w (snd r).
Proof.
  intros Hs. unfold read_scan in Hs.
  refine (loop_post (fun s => Some (read_body tuple cb s))
            (fun s => read_only w (snd s))
            (fun res => read_only w (snd res)) _ _ (n, w) _
            (read_only_refl w) Hs).
  intros s Hs'. pose proof (read_body_read_only tuple cb s) as F.
  destruct (read_body tuple cb s) as [[[? ?] ?]|[? ?]];
    exact (read_only_trans _ _ _ Hs' F).
Qed.

Lemma read_by_index_scan_read_only fuel tuple cb n w r :
  read_by_index_scan fuel tuple cb n w = Some r -> read_only w (snd r).
Proof.
  intros Hs. unfold read_by_index_scan in Hs.
  refine (loop_post (fun s => Some (read_by_index_body tuple cb s))
            (fun s => read_only w (snd s))
            (fun res => read_only w (snd res)) _ _ (n, w) _
            (read_only_refl w) Hs).
  intros s Hs'. pose proof (read_by_index_body_read_only tuple cb s) as F.
  destruct (read_by_index_body tuple cb s) as [[[? ?] ?]|[? ?]];
    exact (read_only_trans _ _ _ Hs' F).
Qed.

Lemma read_only_commit w w' : read_only w w' -> read_only w (mtr_commit w').
Proof. intros H. exact H. Qed.

(** X12.  [read] and [read_by_index] return whatever the engine and the
    callback answer, and they only read: both indexes are as they were, and
    no lock was requested or waited for, no delete mark set, nothing
    inserted or updated. *)
Theorem reads_write_nothing (tuple : option dtuple_t)
  (search_tuple : dtuple_t) (callback : RecordCallback) (w : world) :
  (exists r w', read tuple callback w = Some (r, w') /\ read_only w w') /\
  (exists r w',
      read_by_index search_tuple callback w = Some (r, w') /\ read_only w w').
Proof.
  split.
  - destruct (read_full_frame tuple callback w) as [r [n [e [w' [Hr _]]]]].
    exists r, w'. unfold read. rewrite Hr. split; [reflexivity|].
    unfold read_full in Hr. cbv zeta in Hr.
    pose proof (read_prologue_read_only CLUST w) as P.
    set (w3 := set_pcur_index CLUST (ensure_read_view (mtr_start w))) in *.
    clearbody w3.
    assert (Hscan : forall w0, read_only w w0 ->
              read_finish tuple (read_scan (scan_fuel w0) tuple callback 0 w0)
              = Some (r, n, e, w') -> read_only w w').
    { intros w0 H0 Hfin.
      destruct (read_scan (scan_fuel w0) tuple callback 0 w0)
        as [[[ctl n1] w1]|] eqn:Hs; [|discriminate].
      pose proof (read_scan_read_only _ _ _ _ _ _ Hs) as S1. cbn [snd] in S1.
      destruct ctl; cbn [read_finish] in Hfin; inversion Hfin; subst;
        exact (read_only_trans _ _ _ H0 S1). }
    destruct tuple as [t|].
    + pose proof (open_on_user_rec_read_only t w3) as O.
      destruct (btr_pcur_open_on_user_rec t w3) as [err w4]. cbn [snd] in O.
      pose proof (read_only_trans _ _ _ P O) as P4.
      destruct (negb (err =?e DB_SUCCESS)).
      * inversion Hr; subst. exact P4.
      * exact (Hscan w4 P4 Hr).
    + pose proof (open_leaf_read_only CLUST w3) as O.
      destruct (open_leaf CLUST w3) as [err w4]. cbn [snd] in O.
      pose proof (read_only_trans _ _ _ P O) as P4.
      destruct (negb (err =?e DB_SUCCESS)).
      * inversion Hr; subst. exact P4.
      * pose proof (move_to_next_read_only w4) as M.
        destruct (btr_pcur_move_to_next w4) as [moved w5]. cbn [snd] in M.
        pose proof (read_only_trans _ _ _ P4 M) as P5.
        destruct moved; cbn [negb] in Hr.
        -- exact (Hscan w5 P5 Hr).
        -- inversion Hr; subst. exact P5.
  - destruct (read_by_index_frame search_tuple callback w) as [r [w' [Hr _]]].
    exists r, w'. split; [exact Hr|].
    unfold read_by_index in Hr.
    pose proof (read_prologue_read_only SEC w) as P.
    set (w3 := set_pcur_index SEC (ensure_read_view (mtr_start w))) in *.
    clearbody w3.
    pose proof (open_on_user_rec_read_only search_tuple w3) as O.
    destruct (btr_pcur_open_on_user_rec search_tuple w3) as [err w4].
    cbn [snd] in O. pose proof (read_only_trans _ _ _ P O) as P4.
    destruct (negb (err =?e DB_SUCCESS)).
    + inversion Hr; subst. exact P4.
    + destruct (read_by_index_scan (scan_fuel w4) search_tuple callback 0 w4)
        as [[[ctl n1] w1]|] eqn:Hs; [|discriminate].
      pose proof (read_by_index_scan_read_only _ _ _ _ _ _ Hs) as S1.
      cbn [snd] in S1.
      destruct ctl; cbn [read_by_index_finish] in Hr; inversion Hr; subst;
        exact (read_only_trans _ _ _ P4 S1).
Qed.

(** ** Retries and granted lock waits *)

Lemma handle_wait_granted (err : dberr_t) (table_lock : bool) (w : world) :
  err <> DB_SUCCESS ->
  let r := fst (handle_wait err table_lock w) in
  let w' := snd (handle_wait err table_lock w) in
  mtr_starts w' = mtr_starts w /\
  count_events is_granted_wait w'
  = (if r =?e DB_SUCCESS then 1 else 0) + count_events is_granted_wait w.
Proof.
  intros Hne. unfold handle_wait, pending_wait, lock_wait, mtr_starts,
    count_events.
  destruct (next_answer None (o_wait (engine _))) as [wait_err|]; wsimpl.
  - destruct wait_err; wsimpl; split; try reflexivity;
      destruct err; try reflexivity; contradiction.
  - split; [reflexivity|]. destruct err; try reflexivity; contradiction.
Qed.

Lemma waits_more_refl (w : world) : waits_more w w 0.
Proof. unfold waits_more. auto. Qed.

Lemma waits_more_trans (w w1 w2 : world) (j k : nat) :
  waits_more w w1 j -> waits_more w1 w2 k -> waits_more w w2 (k + j).
Proof. unfold waits_more. intros [A B] [C D]. split; [congruence|lia]. Qed.

Lemma waits_more_handle_wait (err : dberr_t) (table_lock : bool) (w : world) :
  err <> DB_SUCCESS ->
  waits_more w (snd (handle_wait err table_lock w))
    (if fst (handle_wait err table_lock w) =?e DB_SUCCESS then 1 else 0).
Proof. intros H. apply handle_wait_granted. exact H. Qed.

Lemma delete_body_waits (tuple : dtuple_t) (s : delete_state) :
  match delete_body tuple s with
  | inl (ctl, _, w') =>
      waits_more (snd s) w' (match ctl with DelRetry => 1 | _ => 0 end)
  | inr (_, _, w') => waits_more (snd s) w' 0
  end.
Proof.
  destruct s as [[err n] w]. cbn [snd].
  unfold delete_body, delete_next_rec.
  destruct (btr_pcur_get_user_rec w) as [[pos rec]|];
    [|apply waits_more_refl].
  destruct (rec_get_deleted_flag rec).
  { unfold waits_more, mtr_starts, count_events. unfold_prims.
    exec0; split; reflexivity. }
  destruct (negb (cmp_dtuple_rec tuple rec =? 0)%Z);
    [split; reflexivity|].
  unfold lock_clust_rec_read_check_and_lock.
  remember (next_answer DB_SUCCESS (o_lock (engine (log (EvExamine pos) w))))
    as e eqn:He. clear He.
  cbv zeta beta iota.
  destruct (e =?e DB_LOCK_WAIT) eqn:E1.
  { apply dberr_eqb_eq in E1. subst e.
    match goal with |- context [handle_wait ?a ?b ?c] =>
      pose proof (waits_more_handle_wait a b c ltac:(discriminate)) as F;
      destruct (handle_wait a b c) as [e2 w4] end.
    cbn [fst snd] in F. destruct (e2 =?e DB_SUCCESS); cbn [negb];
      destruct F as [F1 F2]; split; try exact F2; exact F1. }
  destruct (negb (e =?e DB_SUCCESS) && negb (e =?e DB_SUCCESS_LOCKED_REC));
    [split; reflexivity|].
  unfold waits_more, mtr_starts, count_events. unfold_prims.
  exec0; split; reflexivity.
Qed.

Lemma delete_all_body_waits (s : dberr_t * world) :
  match delete_all_body s with
  | inl (ctl, w') =>
      waits_more (snd s) w' (match ctl with DelAllRetry => 1 | _ => 0 end)
  | inr (_, w') => waits_more (snd s) w' 0
  end.
Proof.
  destruct s as [err w]. cbn [snd].
  unfold delete_all_body, delete_all_next_rec.
  destruct (btr_pcur_is_after_last w); [apply waits_more_refl|].
  destruct (btr_pcur_get_user_rec w) as [[pos rec]|].
  2:{ unfold waits_more, mtr_starts, count_events. unfold_prims.
      exec0; split; reflexivity. }
  destruct (rec_get_deleted_flag rec).
  { unfold waits_more, mtr_starts, count_events. unfold_prims.
    exec0; split; reflexivity. }
  destruct (rec_min_rec rec).
  { unfold waits_more, mtr_starts, count_events. unfold_prims.
    exec0; split; reflexivity. }
  unfold lock_clust_rec_read_check_and_lock.
  remember (next_answer DB_SUCCESS (o_lock (engine w))) as e eqn:He. clear He.
  cbv zeta beta iota.
  destruct (e =?e DB_LOCK_WAIT) eqn:E1.
  { apply dberr_eqb_eq in E1. subst e.
    match goal with |- context [handle_wait ?a ?b ?c] =>
      pose proof (waits_more_handle_wait a b c ltac:(discriminate)) as F;
      destruct (handle_wait a b c) as [e2 w4] end.
    cbn [fst snd] in F. destruct (e2 =?e DB_SUCCESS); cbn [negb];
      destruct F as [F1 F2]; split; try exact F2; exact F1. }
  destruct (negb (e =?e DB_SUCCESS) && negb (e =?e DB_SUCCESS_LOCKED_REC));
    [split; reflexivity|].
  unfold waits_more, mtr_starts, count_events. unfold_prims.
  exec0; split; reflexivity.
Qed.

Lemma delete_attempt_waits (tuple : dtuple_t) (n : nat) (w : world)
  (ctl : delete_ctl) (n' : nat) (w' : world) :
  delete_attempt tuple n w = Some (ctl, n', w') ->
  mtr_starts w' = S (mtr_starts w) /\
  count_events is_granted_wait w'
  = (match ctl with DelRetry => 1 | _ => 0 end)
    + count_events is_granted_wait w.
Proof.
  unfold delete_attempt.
  assert (Ho : waits_more (mtr_start w)
                 (snd (btr_pcur_open_on_user_rec tuple
                         (set_pcur_index CLUST (mtr_start w)))) 0).
  { unfold waits_more, mtr_starts, count_events. unfold_prims.
    exec0; split; reflexivity. }
  destruct (btr_pcur_open_on_user_rec tuple _) as [err w3]. cbn [snd] in Ho.
  assert (Hstart : mtr_starts (mtr_start w) = S (mtr_starts w)
                   /\ count_events is_granted_wait (mtr_start w)
                      = count_events is_granted_wait w)
    by (split; reflexivity).
  destruct (negb (err =?e DB_SUCCESS)).
  - intros H. inversion H; subst. unfold waits_more in Ho. lia.
  - intros Hs. unfold delete_scan in Hs.
    assert (L : waits_more w3 w'
                  (match ctl with DelRetry => 1 | _ => 0 end)).
    { refine (loop_post (fun s => Some (delete_body tuple s))
                (fun s => waits_more w3 (snd s) 0)
                (fun res => waits_more w3 (snd res)
                              (match fst (fst res) with
                               | DelRetry => 1 | _ => 0 end))
                _ _ (err, n, w3) (ctl, n', w') (waits_more_refl w3) Hs).
      intros s Hs'. pose proof (delete_body_waits tuple s) as F.
      destruct (delete_body tuple s) as [[[c ?] ?]|[[? ?] ?]]; cbn [fst snd].
      - pose proof (waits_more_trans _ _ _ _ _ Hs' F) as T.
        rewrite Nat.add_0_r in T. exact T.
      - exact (waits_more_trans _ _ _ _ _ Hs' F). }
    unfold waits_more in *. destruct ctl; lia.
Qed.

Lemma delete_record_full_waits (tuple : dtuple_t) (w : world)
  (r : dberr_t * nat * delete_end * world) :
  delete_record_full tuple w = Some r ->
  count_events is_granted_wait w <= count_events is_granted_wait (snd r) /\
  mtr_starts (snd r) + count_events is_granted_wait w
  = S (mtr_starts w + count_events is_granted_wait (snd r)).
Proof.
  intros Hr. unfold delete_record_full, delete_record_loop in Hr.
  refine (loop_post (delete_record_body tuple)
            (fun s => count_events is_granted_wait w
                      <= count_events is_granted_wait (snd s) /\
                      mtr_starts (snd s) + count_events is_granted_wait w
                      = mtr_starts w + count_events is_granted_wait (snd s))
            (fun res => count_events is_granted_wait w
                        <= count_events is_granted_wait (snd res) /\
                        mtr_starts (snd res) + count_events is_granted_wait w
                        = S (mtr_starts w
                             + count_events is_granted_wait (snd res)))
            _ _ (0, w) r (conj (le_n _) eq_refl) Hr).
  intros [n ws] Hs. cbn [snd] in Hs. unfold delete_record_body.
  destruct (delete_attempt tuple n ws) as [[[ctl n1] w1]|] eqn:Ha; [|exact I].
  destruct (delete_attempt_waits _ _ _ _ _ _ Ha) as [A1 A2].
  destruct Hs as [Hs0 Hs].
  destruct ctl as [e|e|]; [destruct (is_error e)| |]; cbn [snd];
    unfold mtr_commit, mtr_starts, count_events in *;
    cbn [trace log filter is_mtr_start is_granted_wait] in *; lia.
Qed.

Lemma delete_all_attempt_waits (w : world) (ctl : delete_all_ctl)
  (w' : world) :
  delete_all_attempt w = Some (ctl, w') ->
  mtr_starts w' = S (mtr_starts w) /\
  count_events is_granted_wait w'
  = (match ctl with DelAllRetry => 1 | _ => 0 end)
    + count_events is_granted_wait w.
Proof.
  unfold delete_all_attempt.
  assert (Ho : waits_more (mtr_start w) (snd (open_leaf CLUST (mtr_start w)))
                 0).
  { unfold waits_more, mtr_starts, count_events. unfold_prims.
    exec0; split; reflexivity. }
  destruct (open_leaf CLUST (mtr_start w)) as [err w3]. cbn [snd] in Ho.
  assert (Hstart : mtr_starts (mtr_start w) = S (mtr_starts w)
                   /\ count_events is_granted_wait (mtr_start w)
                      = count_events is_granted_wait w)
    by (split; reflexivity).
  destruct (negb (err =?e DB_SUCCESS)).
  { intros H. inversion H; subst. unfold waits_more in Ho.
    unfold mtr_commit, mtr_starts, count_events in *.
    cbn [trace log filter is_mtr_start is_granted_wait] in *. lia. }
  assert (Hm : waits_more w3 (snd (btr_pcur_move_to_next w3)) 0).
  { unfold waits_more, mtr_starts, count_events. unfold_prims.
    exec0; split; reflexivity. }
  destruct (btr_pcur_move_to_next w3) as [moved w4]. cbn [snd] in Hm.
  destruct moved; cbn [negb].
  2:{ intros H. inversion H; subst. unfold waits_more in *.
      unfold mtr_commit, mtr_starts, count_events in *.
      cbn [trace log filter is_mtr_start is_granted_wait] in *. lia. }
  intros Hs. unfold delete_all_scan in Hs.
  assert (L : waits_more w4 w'
                (match ctl with DelAllRetry => 1 | _ => 0 end)).
  { refine (loop_post (fun s => Some (delete_all_body s))
              (fun s => waits_more w4 (snd s) 0)
              (fun res => waits_more w4 (snd res)
                            (match fst res with
                             | DelAllRetry => 1 | _ => 0 end))
              _ _ (err, w4) (ctl, w') (waits_more_refl w4) Hs).
    intros s Hs'. pose proof (delete_all_body_waits s) as F.
    destruct (delete_all_body s) as [[c ?]|[? ?]]; cbn [fst snd].
    - pose proof (waits_more_trans _ _ _ _ _ Hs' F) as T.
      rewrite Nat.add_0_r in T. exact T.
    - exact (waits_more_trans _ _ _ _ _ Hs' F). }
  unfold waits_more in *. destruct ctl; lia.
Qed.

Lemma delete_all_waits (w : world) (r : dberr_t * world) :
  delete_all w = Some r ->
  count_events is_granted_wait w <= count_events is_granted_wait (snd r) /\
  mtr_starts (snd r) + count_events is_granted_wait w
  = S (mtr_starts w + count_events is_granted_wait (snd r)).
Proof.
  intros Hr. unfold delete_all, delete_all_loop in Hr.
  refine (loop_post delete_all_retry_body
            (fun s => count_events is_granted_wait w
                      <= count_events is_granted_wait s /\
                      mtr_starts s + count_events is_granted_wait w
                      = mtr_starts w + count_events is_granted_wait s)
            (fun res => count_events is_granted_wait w
                        <= count_events is_granted_wait (snd res) /\
                        mtr_starts (snd res) + count_events is_granted_wait w
                        = S (mtr_starts w
                             + count_events is_granted_wait (snd res)))
            _ _ w r (conj (le_n _) eq_refl) Hr).
  intros ws Hs. unfold delete_all_retry_body.
  destruct (delete_all_attempt ws) as [[ctl w1]|] eqn:Ha; [|exact I].
  destruct (delete_all_attempt_waits _ _ _ Ha) as [A1 A2].
  destruct Hs as [Hs0 Hs].
  destruct ctl as [e|e|]; cbn [snd];
    unfold mtr_commit, mtr_starts, count_events in *;
    cbn [trace log filter is_mtr_start is_granted_wait] in *; lia.
Qed.

(** X13.  [delete_record] and [delete_all] start over only after a lock wait
    that ended with the lock granted: the number of mini-transactions a
    call starts is one more than the number of granted lock waits in
    it. *)
Theorem retries_follow_granted_waits (w : world) :
  (forall tuple, exists r w',
      delete_record tuple w = Some (r, w') /\
      mtr_started w w' = S (granted_waits w w')) /\
  (exists r w',
      delete_all w = Some (r, w') /\
      mtr_started w w' = S (granted_waits w w')).
Proof.
  split.
  - intros tuple.
    destruct (delete_record_full_frame tuple w) as [r [n [e [w' [Hr HB]]]]].
    exists r, w'. split; [unfold delete_record; rewrite Hr; reflexivity|].
    pose proof (delete_record_full_waits tuple w _ Hr) as [H0 H].
    cbn [snd] in H0, H.
    destruct (mtr_balanced_counts _ _ HB) as (H1 & _).
    unfold mtr_started, granted_waits. lia.
  - destruct (delete_all_frame w) as [r [w' [Hr HB]]].
    exists r, w'. split; [exact Hr|].
    pose proof (delete_all_waits w _ Hr) as [H0 H]. cbn [snd] in H0, H.
    destruct (mtr_balanced_counts _ _ HB) as (H1 & _).
    unfold mtr_started, granted_waits. lia.
Qed.

(** ** The result of delete_all *)





(** ** The general statements at concrete tables *)

Lemma lock_before_delete_mark_witness :
  exists r w',
    run (OpDeleteRecord (key 2)) p4_world = Some (r, w') /\
    marks_under_lock (trace w') = true.
Proof.
  apply (lock_before_delete_mark (OpDeleteRecord (key 2)) p4_world).
  reflexivity.
Defined.

Lemma delete_record_deletes_matches_witness :
  exists w',
    delete_record (key 2) p4_world = Some (DB_SUCCESS, w') /\
    clust_index w'
    = [row 1 false 0; row 2 true 0; row 2 true 0; row 3 false 0].
Proof.
  apply (delete_record_deletes_matches (key 2) p4_world); reflexivity.
Defined.

Lemma delete_all_deletes_every_row_witness :
  exists w',
    delete_all p4_world = Some (DB_SUCCESS, w') /\
    clust_index w'
    = [row 1 true 0; row 2 true 0; row 2 true 0; row 3 true 0].
Proof.
  apply (delete_all_deletes_every_row p4_world). reflexivity.
Defined.

Lemma read_processes_wanted_witness :
  exists w',
    read None process_all tombstone_world = Some (DB_SUCCESS, w') /\
    processed_records w' = [row 1 false 0; row 3 false 0].
Proof.
  apply (read_processes_wanted None process_all tombstone_world).
  - reflexivity.
  - intros rec offs. reflexivity.
  - intros rec Hin. reflexivity.
Defined.

Lemma read_by_index_joins_witness :
  exists w',
    read_by_index [mk_dfield 20 8] process_all indexed_world
    = Some (DB_SUCCESS, w') /\
    processed_records w' = [row 3 false 0].
Proof.
  apply (read_by_index_joins [mk_dfield 20 8] process_all indexed_world).
  - reflexivity.
  - intros rec offs. reflexivity.
  - intros rec Hin. reflexivity.
Defined.

Lemma select_for_update_success_witness :
  exists rec e,
    nth_error (clust_index p4_world) (page_cur_ge (key 2) (clust_index p4_world))
    = Some rec /\
    pcur_index (snd (select_for_update (key 2) None p4_world)) = CLUST /\
    btr_pcur_get_user_rec (snd (select_for_update (key 2) None p4_world))
    = Some (page_cur_ge (key 2) (clust_index p4_world), rec) /\
    cmp_dtuple_rec (key 2) rec = 0%Z /\
    (trx_present p4_world = true -> creator_visible p4_world rec = true) /\
    lock_granted e = true /\
    In (EvLock (page_cur_ge (key 2) (clust_index p4_world)) e)
      (trace (snd (select_for_update (key 2) None p4_world))) /\
    count_events is_lock (snd (select_for_update (key 2) None p4_world))
    = S (count_events is_lock p4_world) /\
    count_events is_lock_wait (snd (select_for_update (key 2) None p4_world))
    = count_events is_lock_wait p4_world /\
    clust_index (snd (select_for_update (key 2) None p4_world))
    = clust_index p4_world /\
    True.
Proof.
  apply (select_for_update_success (key 2) None p4_world). reflexivity.
Defined.

Lemma select_for_update_lock_wait_witness :
  fst (select_for_update (key 2) None lock_wait_world) = DB_LOCK_WAIT.
Proof.
  exact (proj1
           (select_for_update_lock_wait (key 2) None lock_wait_world
              (row 2 false 0) eq_refl eq_refl eq_refl eq_refl eq_refl)).
Defined.

Lemma replace_record_upsert_witness :
  exists r w',
    replace_record (key 5) null_update (key 5) p4_world = Some (r, w') /\
    replace_outcome (key 5) p4_world w' r Inserted /\
    r = DB_SUCCESS /\
    count_events is_lock w' = count_events is_lock p4_world.
Proof.
  apply (replace_record_upsert (key 5) null_update (key 5) p4_world);
    reflexivity.
Defined.
